(** * Field Service Report: the offline store and the synchronization engine

    A shallow embedding of [lib/offline-db.ts] (class [OfflineDatabase]) and
    [lib/sync-service.ts] (class [SyncService]), with the record shapes of
    [lib/types.ts].

    Modelling conventions.
    - A JavaScript [Date] is its epoch value in milliseconds, a [Z]; only
      valid dates are modelled.  The host time zone is taken to be UTC.
    - A JavaScript [number] holding a duration is an IEEE 754 binary64
      value ([spec_float] at precision 53), with the correctly rounded
      operations of the Standard Library; identifiers are integers [Z].
    - A string is the sequence of its characters; [toLowerCase] and [trim]
      are modelled on strings of ASCII characters, and a theorem whose
      truth depends on what they do to other characters assumes such
      strings.
    - A Dexie table with an auto-incremented inbound primary key ([++id]) is
      a finite map from keys to rows together with the key generator.
    - The host (clock, storage engine, network) is a record of oracles
      indexed by how often each has been consulted, so that every theorem
      quantifies over all host behaviours.
    - [async] methods are functions of the world in an error-and-state
      monad; [console] output is not modelled. *)

From Stdlib Require Import ZArith QArith Qround String Ascii List Lia.
From Stdlib Require Import DecimalString.
From Stdlib Require Floats.SpecFloat.
From stdpp Require Import base option list sorting gmap strings.

Local Open Scope list_scope.
Local Open Scope Z_scope.

(** ** JavaScript built-ins used by the two classes *)

Module JS.

(** [Number.prototype.toString] on an integer: its decimal numeral. *)
Definition toString (n : Z) : string :=
  NilZero.string_of_int (Z.to_int n).

(** [String.prototype.toLowerCase] on a string of ASCII characters: the
    letters A to Z are folded, every other ASCII character is kept. *)
Definition lower_ascii (c : ascii) : ascii :=
  let n := N_of_ascii c in
  if ((65 <=? n) && (n <=? 90))%N then ascii_of_N (n + 32) else c.

Fixpoint toLowerCase (s : string) : string :=
  match s with
  | EmptyString => EmptyString
  | String c r => String (lower_ascii c) (toLowerCase r)
  end.

(** Days from 1970-01-01 to the first day of month index [m] (0..11) of
    year [y], proleptic Gregorian calendar. *)
Definition days_from_civil (y m : Z) : Z :=
  let y' := if m <=? 1 then y - 1 else y in
  let era := y' / 400 in
  let yoe := y' - era * 400 in
  let mp := (m + 10) mod 12 in
  let doy := (153 * mp + 2) / 5 in
  let doe := yoe * 365 + yoe / 4 - yoe / 100 + doy in
  era * 146097 + doe - 719468.

(** ECMAScript [MakeDay]: month indices and day numbers out of range
    carry over ([new Date(y, m, 0)] is the last day of month [m - 1]). *)
Definition MakeDay (year month date : Z) : Z :=
  days_from_civil (year + month / 12) (month mod 12) + date - 1.

(** [new Date(year, monthIndex, day, hours, minutes, seconds)];
    a year in 0..99 means 1900 + year. *)
Definition Date (year monthIndex day hours minutes seconds : Z) : Z :=
  let yr := if (0 <=? year) && (year <=? 99) then 1900 + year else year in
  MakeDay yr monthIndex day * 86400000
  + hours * 3600000 + minutes * 60000 + seconds * 1000.

(** A [number]: an IEEE 754 binary64 value. *)
Definition Number : Type := SpecFloat.spec_float.
Definition prec : Z := 53.
Definition emax : Z := 1024.

(** The operators [+], [*] and [/]: the exact result rounded to the nearest
    number, ties to even. *)
Definition add : Number → Number → Number := SpecFloat.SFadd prec emax.
Definition mul : Number → Number → Number := SpecFloat.SFmul prec emax.
Definition div : Number → Number → Number := SpecFloat.SFdiv prec emax.

(** The number of an integer literal. *)
Definition of_Z (n : Z) : Number :=
  SpecFloat.binary_normalize prec emax n 0 false.

(** The number of the decimal literal with value [n / d]: the number
    nearest to the quotient ([num 15 100] is the literal [0.15]). *)
Definition num (n : Z) (d : positive) : Number :=
  div (of_Z n) (of_Z (Zpos d)).

(** The integer [n] as a number, zero taking the sign [s]. *)
Definition integer (s : bool) (n : Z) : Number :=
  if n =? 0 then SpecFloat.S754_zero s else of_Z n.

(** The exact value of a finite number. *)
Definition exact (x : Number) : option Q :=
  match x with
  | SpecFloat.S754_zero _ => Some 0%Q
  | SpecFloat.S754_finite s m e =>
      Some (if 0 <=? e
            then inject_Z (SpecFloat.cond_Zopp s (Zpos m) * 2 ^ e)
            else Qmake (SpecFloat.cond_Zopp s (Zpos m))
                       (Z.to_pos (2 ^ (- e))))
  | _ => None
  end.

(** [Math.round]: an integral or non-finite number is returned as it is;
    otherwise the integer nearest to the exact value, halves towards plus
    infinity (a result of zero keeps the sign of the argument). *)
Definition Math_round (x : Number) : Number :=
  match x with
  | SpecFloat.S754_finite s m e =>
      if 0 <=? e then x
      else integer s (Qfloor (Qmake (SpecFloat.cond_Zopp s (Zpos m))
                                    (Z.to_pos (2 ^ (- e)))
                              + (1 # 2)))
  | _ => x
  end.

End JS.

(** ** Record shapes ([lib/types.ts]) *)

Module OfflineTimeEntry.
Record t : Type := mk {
  id : option Z;
  userId : string;
  date : Z;
  timeStarted : Z;
  timeEnded : Z;
  hoursWorked : JS.Number;
  studies : list string;
  participated : bool;
  comments : option string;
  synced : bool;
  createdAt : Z;
  updatedAt : Z;
}.

Definition with_id (k : Z) (e : t) : t :=
  mk (Some k) (userId e) (date e) (timeStarted e) (timeEnded e)
     (hoursWorked e) (studies e) (participated e) (comments e)
     (synced e) (createdAt e) (updatedAt e).
End OfflineTimeEntry.

(** The argument of [addTimeEntry]:
    [Omit<OfflineTimeEntry, "id" | "synced" | "createdAt" | "updatedAt">]. *)
Module NewTimeEntry.
Record t : Type := mk {
  userId : string;
  date : Z;
  timeStarted : Z;
  timeEnded : Z;
  hoursWorked : JS.Number;
  studies : list string;
  participated : bool;
  comments : option string;
}.
End NewTimeEntry.

(** [Partial<OfflineTimeEntry>]: every field may be absent.  The primary
    key is not among the fields an update carries: the callers pass none,
    or the record's own. *)
Module PartialEntry.
Record t : Type := mk {
  userId : option string;
  date : option Z;
  timeStarted : option Z;
  timeEnded : option Z;
  hoursWorked : option JS.Number;
  studies : option (list string);
  participated : option bool;
  comments : option (option string);
  synced : option bool;
  createdAt : option Z;
  updatedAt : option Z;
}.

(** The object spread [{ ...entry }] of a full record. *)
Definition of_entry (e : OfflineTimeEntry.t) : t :=
  mk (Some (OfflineTimeEntry.userId e)) (Some (OfflineTimeEntry.date e))
     (Some (OfflineTimeEntry.timeStarted e))
     (Some (OfflineTimeEntry.timeEnded e))
     (Some (OfflineTimeEntry.hoursWorked e))
     (Some (OfflineTimeEntry.studies e))
     (Some (OfflineTimeEntry.participated e))
     (Some (OfflineTimeEntry.comments e))
     (Some (OfflineTimeEntry.synced e))
     (Some (OfflineTimeEntry.createdAt e))
     (Some (OfflineTimeEntry.updatedAt e)).

(** Dexie's [Table.update] sets every key path present in the changes. *)
Definition apply (p : t) (e : OfflineTimeEntry.t) : OfflineTimeEntry.t :=
  OfflineTimeEntry.mk
    (OfflineTimeEntry.id e)
    (default (OfflineTimeEntry.userId e) (userId p))
    (default (OfflineTimeEntry.date e) (date p))
    (default (OfflineTimeEntry.timeStarted e) (timeStarted p))
    (default (OfflineTimeEntry.timeEnded e) (timeEnded p))
    (default (OfflineTimeEntry.hoursWorked e) (hoursWorked p))
    (default (OfflineTimeEntry.studies e) (studies p))
    (default (OfflineTimeEntry.participated e) (participated p))
    (default (OfflineTimeEntry.comments e) (comments p))
    (default (OfflineTimeEntry.synced e) (synced p))
    (default (OfflineTimeEntry.createdAt e) (createdAt p))
    (default (OfflineTimeEntry.updatedAt e) (updatedAt p)).
End PartialEntry.

Module OfflineUser.
Record t : Type := mk {
  id : option Z;
  email : string;
  name : option string;
  lastSync : Z;
}.

Definition with_id (k : Z) (u : t) : t :=
  mk (Some k) (email u) (name u) (lastSync u).
Definition with_lastSync (d : Z) (u : t) : t :=
  mk (id u) (email u) (name u) d.
End OfflineUser.

(** The string literal types of [action] and [table]. *)
Module Action.
Inductive t : Type := create | update | delete.
End Action.

Module TableName.
Inductive t : Type := timeEntry | user.
End TableName.

(** The [data] snapshot of a queue item:
    [OfflineTimeEntry | Partial<OfflineTimeEntry> | { id: number }]. *)
Inductive Payload : Type :=
| FullEntry (e : OfflineTimeEntry.t)
| Changes (p : PartialEntry.t)
| IdOnly (k : Z).

Module SyncQueueItem.
Record t : Type := mk {
  id : option Z;
  action : Action.t;
  table : TableName.t;
  recordId : string;
  data : Payload;
  timestamp : Z;
  retryCount : Z;
}.

Definition with_id (k : Z) (i : t) : t :=
  mk (Some k) (action i) (table i) (recordId i) (data i) (timestamp i)
     (retryCount i).
Definition with_retryCount (n : Z) (i : t) : t :=
  mk (id i) (action i) (table i) (recordId i) (data i) (timestamp i) n.
End SyncQueueItem.

Module ServerTimeEntry.
Record ServerStudy : Type := mkStudy {
  study_id : string;
  participant : string;
}.

(** The date strings of the wire format are held parsed. *)
Record t : Type := mk {
  id : string;
  date : Z;
  timeStarted : Z;
  timeEnded : Z;
  hoursWorked : JS.Number;
  studies : list ServerStudy;
  participated : bool;
  comments : option string;
  createdAt : Z;
  updatedAt : Z;
}.
End ServerTimeEntry.

(** ** Dexie tables with an auto-incremented primary key *)

Module Table.
Section Table.
Context {A : Type}.

Record t : Type := mk {
  rows : gmap Z A;
  nextKey : Z;
}.

Definition empty : t := mk ∅ 1.

(** [table.add(obj)] for an object without a key: the generator's next key
    is used and written into the stored object ([withId]). *)
Definition add (withId : Z → A → A) (v : A) (tb : t) : Z * t :=
  let k := nextKey tb in
  (k, mk (<[k := withId k v]> (rows tb)) (k + 1)).

Definition get (k : Z) (tb : t) : option A := rows tb !! k.

(** [table.update(key, changes)]: no effect when the key is absent. *)
Definition update (k : Z) (f : A → A) (tb : t) : t :=
  mk (alter f k (rows tb)) (nextKey tb).

(** [table.delete(key)]: no effect when the key is absent. *)
Definition delete (k : Z) (tb : t) : t :=
  mk (base.delete k (rows tb)) (nextKey tb).

Definition clear (tb : t) : t := mk ∅ (nextKey tb).

(** The rows in primary-key order. *)
Definition toArray (tb : t) : list A :=
  omap (λ k, rows tb !! k) (seqZ 1 (nextKey tb - 1)).

Definition count (tb : t) : nat := size (rows tb).

(** Every key in use was handed out by the generator. *)
Definition wf (tb : t) : Prop :=
  ∀ k, is_Some (rows tb !! k) → 1 ≤ k < nextKey tb.

End Table.
Arguments t : clear implicits.
End Table.

(** ** The host and the world *)

Inductive Error : Type :=
| StorageError          (* the storage engine rejected an operation *)
| NetworkError          (* [fetch] rejected *)
| HttpError             (* a response with [ok = false] *)
| JsonError             (* [response.json()] rejected *)
| InvalidCreateData     (* "Invalid data for create operation" *)
| UnknownTable          (* "Unknown table: ..." *)
| MissingKey            (* an operation on an [undefined] key *)
| Offline.              (* "Cannot download data while offline" *)

(** The body of a response, as [response.json()] yields it. *)
Inductive Body : Type :=
| BadJson
| Json (entries : option (list ServerTimeEntry.t)).

Inductive FetchResult : Type :=
| Rejected
| Response (ok : bool) (body : Body).

(** The JSON body of a POST or PUT request: the six fields that
    [createTimeEntryOnServer] and [updateTimeEntryOnServer] pick from the
    queued data; [JSON.stringify] leaves out a field that is [undefined]. *)
Module RequestBody.
Record t : Type := mk {
  date : option Z;
  timeStarted : option Z;
  timeEnded : option Z;
  studies : option (list string);
  participated : option bool;
  comments : option string;
}.

Definition of_data (data : Payload) : t :=
  match data with
  | FullEntry e =>
      mk (Some (OfflineTimeEntry.date e))
         (Some (OfflineTimeEntry.timeStarted e))
         (Some (OfflineTimeEntry.timeEnded e))
         (Some (OfflineTimeEntry.studies e))
         (Some (OfflineTimeEntry.participated e))
         (OfflineTimeEntry.comments e)
  | Changes p =>
      mk (PartialEntry.date p) (PartialEntry.timeStarted p)
         (PartialEntry.timeEnded p) (PartialEntry.studies p)
         (PartialEntry.participated p) (mjoin (PartialEntry.comments p))
  | IdOnly _ => mk None None None None None None
  end.
End RequestBody.

(** The calls on the remote gateway. *)
Inductive Request : Type :=
| POST_time_entry (body : RequestBody.t)
| PUT_time_entry (recordId : string) (body : RequestBody.t)
| DELETE_time_entry (recordId : string)
| GET_monthly (year month : Z).

Record Host : Type := mkHost {
  Date_now : nat → Z;            (* the n-th reading of the clock *)
  store_fails : nat → bool;      (* does the n-th store operation throw? *)
  fetch_result : nat → FetchResult; (* the outcome of the n-th request *)
  navigator_onLine : bool;
}.

Record OfflineDatabase : Type := mkDb {
  timeEntries : Table.t OfflineTimeEntry.t;
  users : Table.t OfflineUser.t;
  syncQueue : Table.t SyncQueueItem.t;
}.

Record World : Type := mkWorld {
  host : Host;
  offlineDb : OfflineDatabase;
  syncInProgress : bool;         (* the field of the [SyncService] *)
  clockReads : nat;
  storeOps : nat;
  requests : list Request;       (* the gateway calls made so far *)
  delays : list Z;               (* the [delay(ms)] suspensions so far *)
}.

Definition set_db (d : OfflineDatabase) (w : World) : World :=
  mkWorld (host w) d (syncInProgress w) (clockReads w) (storeOps w)
          (requests w) (delays w).
Definition set_syncInProgress (b : bool) (w : World) : World :=
  mkWorld (host w) (offlineDb w) b (clockReads w) (storeOps w)
          (requests w) (delays w).

Definition tick_clock (w : World) : World :=
  mkWorld (host w) (offlineDb w) (syncInProgress w) (S (clockReads w))
          (storeOps w) (requests w) (delays w).
Definition tick_store (w : World) : World :=
  mkWorld (host w) (offlineDb w) (syncInProgress w) (clockReads w)
          (S (storeOps w)) (requests w) (delays w).
Definition log_request (req : Request) (w : World) : World :=
  mkWorld (host w) (offlineDb w) (syncInProgress w) (clockReads w)
          (storeOps w) (requests w ++ [req]) (delays w).
Definition log_delay (ms : Z) (w : World) : World :=
  mkWorld (host w) (offlineDb w) (syncInProgress w) (clockReads w)
          (storeOps w) (requests w) (delays w ++ [ms]).

Definition set_timeEntries (tb : Table.t OfflineTimeEntry.t)
    (d : OfflineDatabase) : OfflineDatabase :=
  mkDb tb (users d) (syncQueue d).
Definition set_users (tb : Table.t OfflineUser.t)
    (d : OfflineDatabase) : OfflineDatabase :=
  mkDb (timeEntries d) tb (syncQueue d).
Definition set_syncQueue (tb : Table.t SyncQueueItem.t)
    (d : OfflineDatabase) : OfflineDatabase :=
  mkDb (timeEntries d) (users d) tb.

(** ** The monad of [async] methods: state and exceptions *)

Inductive Result (A : Type) : Type :=
| Ok (a : A)
| Throw (e : Error).
Arguments Ok {A} a.
Arguments Throw {A} e.

Definition M (A : Type) : Type := World → Result A * World.

Definition ret {A} (a : A) : M A := λ w, (Ok a, w).
Definition throw {A} (e : Error) : M A := λ w, (Throw e, w).
Definition bind {A B} (m : M A) (k : A → M B) : M B :=
  λ w, match m w with
       | (Ok a, w') => k a w'
       | (Throw e, w') => (Throw e, w')
       end.

(** [try { m } catch (error) { h error }] *)
Definition try_catch {A} (m : M A) (h : Error → M A) : M A :=
  λ w, match m w with
       | (Ok a, w') => (Ok a, w')
       | (Throw e, w') => h e w'
       end.

(** [try { m } finally { f }] for a [finally] block that cannot throw. *)
Definition finally {A} (m : M A) (f : World → World) : M A :=
  λ w, let '(r, w') := m w in (r, f w').

Notation "'let*' x ':=' m 'in' k" := (bind m (λ x, k))
  (at level 10, x name, m at level 100, k at level 200).
Notation "m ';;;' k" := (bind m (λ _, k))
  (at level 100, k at level 200, right associativity).

(** [for (const x of xs) { body x }] *)
Fixpoint for_of {A} (xs : list A) (body : A → M unit) : M unit :=
  match xs with
  | [] => ret tt
  | x :: rest => body x ;;; for_of rest body
  end.

(** [new Date()] *)
Definition new_Date : M Z :=
  λ w, (Ok (Date_now (host w) (clockReads w)), tick_clock w).

(** One awaited Dexie operation: it throws when the storage engine fails,
    leaving the tables as they were, and otherwise takes effect. *)
Definition store_op {A} (f : OfflineDatabase → A * OfflineDatabase) : M A :=
  λ w, if store_fails (host w) (storeOps w)
       then (Throw StorageError, tick_store w)
       else (Ok (f (offlineDb w)).1,
             set_db (f (offlineDb w)).2 (tick_store w)).

(** [await fetch(...)]: the request is recorded; a rejected promise throws. *)
Definition fetch (req : Request) : M (bool * Body) :=
  λ w, match fetch_result (host w) (length (requests w)) with
       | Rejected => (Throw NetworkError, log_request req w)
       | Response ok body => (Ok (ok, body), log_request req w)
       end.

(** [delay(ms)] *)
Definition delay (ms : Z) : M unit :=
  λ w, (Ok tt, log_delay ms w).

(** ** [OfflineDatabase] ([lib/offline-db.ts]) *)

Definition addToSyncQueue (action : Action.t) (table : TableName.t)
    (recordId : string) (data : Payload) : M unit :=
  let* timestamp := new_Date in
  store_op (λ d,
    (tt, set_syncQueue
           (Table.add SyncQueueItem.with_id
              (SyncQueueItem.mk None action table recordId data timestamp 0)
              (syncQueue d)).2 d)).

Definition addTimeEntry (entry : NewTimeEntry.t) : M Z :=
  let* now := new_Date in
  let offlineEntry :=
    OfflineTimeEntry.mk None
      (NewTimeEntry.userId entry) (NewTimeEntry.date entry)
      (NewTimeEntry.timeStarted entry) (NewTimeEntry.timeEnded entry)
      (NewTimeEntry.hoursWorked entry) (NewTimeEntry.studies entry)
      (NewTimeEntry.participated entry) (NewTimeEntry.comments entry)
      false now now in
  let* id := store_op (λ d,
    let added := Table.add OfflineTimeEntry.with_id offlineEntry
                           (timeEntries d) in
    (added.1, set_timeEntries added.2 d)) in
  (* Dexie has written the key into [offlineEntry] by now *)
  addToSyncQueue Action.create TableName.timeEntry (JS.toString id)
    (FullEntry (OfflineTimeEntry.with_id id offlineEntry)) ;;;
  ret id.

Definition updateTimeEntry (id : Z) (updates : PartialEntry.t) : M unit :=
  let* now := new_Date in
  let updatedEntry :=
    PartialEntry.mk
      (PartialEntry.userId updates) (PartialEntry.date updates)
      (PartialEntry.timeStarted updates) (PartialEntry.timeEnded updates)
      (PartialEntry.hoursWorked updates) (PartialEntry.studies updates)
      (PartialEntry.participated updates) (PartialEntry.comments updates)
      (Some false) (PartialEntry.createdAt updates) (Some now) in
  store_op (λ d,
    (tt, set_timeEntries
           (Table.update id (PartialEntry.apply updatedEntry)
                         (timeEntries d)) d)) ;;;
  addToSyncQueue Action.update TableName.timeEntry (JS.toString id)
    (Changes updatedEntry).

Definition deleteTimeEntry (id : Z) : M unit :=
  store_op (λ d,
    (tt, set_timeEntries (Table.delete id (timeEntries d)) d)) ;;;
  addToSyncQueue Action.delete TableName.timeEntry (JS.toString id)
    (IdOnly id).

(** [where("userId").equals(userId).and(p).toArray()]: the matching rows in
    primary-key order. *)
Definition where_userId (userId : string)
    (p : OfflineTimeEntry.t → bool) (tb : Table.t OfflineTimeEntry.t)
    : list OfflineTimeEntry.t :=
  filter (λ e, OfflineTimeEntry.userId e = userId ∧ p e = true)
         (Table.toArray tb).

Definition in_range (startDate endDate : Z) (entry : OfflineTimeEntry.t)
    : bool :=
  (startDate <=? OfflineTimeEntry.date entry)
  && (OfflineTimeEntry.date entry <=? endDate).

Definition getTimeEntriesByMonth (userId : string) (year month : Z)
    : M (list OfflineTimeEntry.t) :=
  let startDate := JS.Date year (month - 1) 1 0 0 0 in
  let endDate := JS.Date year month 0 23 59 59 in
  store_op (λ d,
    (where_userId userId (in_range startDate endDate) (timeEntries d), d)).

Definition getTimeEntriesByYear (userId : string) (year : Z)
    : M (list OfflineTimeEntry.t) :=
  let startDate := JS.Date year 0 1 0 0 0 in
  let endDate := JS.Date year 11 31 23 59 59 in
  store_op (λ d,
    (where_userId userId (in_range startDate endDate) (timeEntries d), d)).

(** [orderBy("timestamp")]: by the index key, equal keys in primary-key
    order. *)
Fixpoint insert_by_timestamp (x : SyncQueueItem.t)
    (l : list SyncQueueItem.t) : list SyncQueueItem.t :=
  match l with
  | [] => [x]
  | y :: r =>
      if SyncQueueItem.timestamp x <=? SyncQueueItem.timestamp y
      then x :: y :: r
      else y :: insert_by_timestamp x r
  end.

Definition orderBy_timestamp (tb : Table.t SyncQueueItem.t)
    : list SyncQueueItem.t :=
  foldr insert_by_timestamp [] (Table.toArray tb).

Definition getPendingSyncItems : M (list SyncQueueItem.t) :=
  store_op (λ d, (orderBy_timestamp (syncQueue d), d)).

Definition markSyncItemCompleted (id : Z) : M unit :=
  store_op (λ d, (tt, set_syncQueue (Table.delete id (syncQueue d)) d)).

Definition incrementSyncRetry (id : Z) : M unit :=
  let* item := store_op (λ d, (Table.get id (syncQueue d), d)) in
  match item with
  | Some item =>
      store_op (λ d,
        (tt, set_syncQueue
               (Table.update id
                  (SyncQueueItem.with_retryCount
                     (SyncQueueItem.retryCount item + 1))
                  (syncQueue d)) d))
  | None => ret tt
  end.

Definition clearSyncQueue : M unit :=
  store_op (λ d, (tt, set_syncQueue (Table.clear (syncQueue d)) d)).

Definition getUnsyncedEntries (userId : string)
    : M (list OfflineTimeEntry.t) :=
  store_op (λ d,
    (where_userId userId (λ entry, negb (OfflineTimeEntry.synced entry))
                  (timeEntries d), d)).

(** [users.where("email").equals(email).first()] *)
Definition first_by_email (email : string) (tb : Table.t OfflineUser.t)
    : option OfflineUser.t :=
  head (filter (λ u, OfflineUser.email u = email) (Table.toArray tb)).

Definition updateLastSyncTime (userId : string) : M unit :=
  let* user := store_op (λ d, (first_by_email userId (users d), d)) in
  match user with
  | Some user =>
      let* now := new_Date in
      match OfflineUser.id user with
      | Some k =>
          store_op (λ d,
            (tt, set_users
                   (Table.update k (OfflineUser.with_lastSync now)
                                 (users d)) d))
      | None => throw MissingKey
      end
  | None => ret tt
  end.

(** The statistics records. *)
Record MonthlyStats : Type := mkMonthlyStats {
  m_totalHours : JS.Number;
  m_studiesCount : nat;
  m_participated : bool;
  m_entries : list OfflineTimeEntry.t;
}.

Record YearlyStats : Type := mkYearlyStats {
  y_totalHours : JS.Number;
  y_studiesCount : nat;
  y_entriesCount : nat;
}.

(** [entries.reduce((sum, entry) => sum + entry.hoursWorked, 0)] *)
Definition sum_hoursWorked (entries : list OfflineTimeEntry.t)
    : JS.Number :=
  fold_left (λ sum entry, JS.add sum (OfflineTimeEntry.hoursWorked entry))
            entries (JS.of_Z 0).

(** [new Set(entries.flatMap((entry) =>
       entry.studies.map((s) => s.toLowerCase())))] *)
Definition uniqueStudies (entries : list OfflineTimeEntry.t) : gset string :=
  list_to_set
    (flat_map (λ entry, map JS.toLowerCase (OfflineTimeEntry.studies entry))
              entries).

(** [Math.round(totalHours * 10) / 10] *)
Definition round_tenth (totalHours : JS.Number) : JS.Number :=
  JS.div (JS.Math_round (JS.mul totalHours (JS.of_Z 10))) (JS.of_Z 10).

Definition calculateMonthlyStats (userId : string) (year month : Z)
    : M MonthlyStats :=
  let* entries := getTimeEntriesByMonth userId year month in
  let totalHours := sum_hoursWorked entries in
  let participated := existsb OfflineTimeEntry.participated entries in
  ret (mkMonthlyStats (round_tenth totalHours)
                      (size (uniqueStudies entries)) participated entries).

Definition calculateYearlyStats (userId : string) (year : Z)
    : M YearlyStats :=
  let* entries := getTimeEntriesByYear userId year in
  let totalHours := sum_hoursWorked entries in
  ret (mkYearlyStats (round_tenth totalHours)
                     (size (uniqueStudies entries)) (length entries)).

(** The calendar fields of a date, for [getFullYear] and [getMonth]. *)
Module JSDate.
Definition civil_year_month (t : Z) : Z * Z :=
  let z := t / 86400000 + 719468 in
  let era := z / 146097 in
  let doe := z - era * 146097 in
  let yoe := (doe - doe / 1460 + doe / 36524 - doe / 146096) / 365 in
  let doy := doe - (365 * yoe + yoe / 4 - yoe / 100) in
  let mp := (5 * doy + 2) / 153 in
  let m := if mp <? 10 then mp + 2 else mp - 10 in
  (yoe + era * 400 + (if m <=? 1 then 1 else 0), m).

Definition getFullYear (t : Z) : Z := fst (civil_year_month t).
(** The month index, 0 for January. *)
Definition getMonth (t : Z) : Z := snd (civil_year_month t).
End JSDate.

(** ** [SyncService] ([lib/sync-service.ts]) *)

Definition maxRetries : Z := 3.
Definition retryDelay : Z := 1000.

Definition isOfflineTimeEntry (data : Payload) : bool :=
  match data with
  | FullEntry _ => true
  | Changes p =>
      bool_decide (is_Some (PartialEntry.userId p))
      && bool_decide (is_Some (PartialEntry.date p))
      && bool_decide (is_Some (PartialEntry.timeStarted p))
      && bool_decide (is_Some (PartialEntry.timeEnded p))
      && bool_decide (is_Some (PartialEntry.hoursWorked p))
      && bool_decide (is_Some (PartialEntry.studies p))
      && bool_decide (is_Some (PartialEntry.participated p))
  | IdOnly _ => false
  end.

(** The common tail of the three gateway methods:
    [if (!response.ok) { const error = await response.json(); throw ... }
     return response.json()]. *)
Definition settle (response : bool * Body) : M unit :=
  match response with
  | (_, BadJson) => throw JsonError
  | (false, Json _) => throw HttpError
  | (true, Json _) => ret tt
  end.

Definition createTimeEntryOnServer (data : Payload) : M unit :=
  let* response := fetch (POST_time_entry (RequestBody.of_data data)) in
  settle response.

Definition updateTimeEntryOnServer (recordId : string) (data : Payload)
    : M unit :=
  let* response :=
    fetch (PUT_time_entry recordId (RequestBody.of_data data)) in
  settle response.

Definition deleteTimeEntryOnServer (recordId : string) : M unit :=
  let* response := fetch (DELETE_time_entry recordId) in
  settle response.

Definition syncTimeEntry (item : SyncQueueItem.t) : M unit :=
  match SyncQueueItem.action item with
  | Action.create =>
      if negb (isOfflineTimeEntry (SyncQueueItem.data item))
      then throw InvalidCreateData
      else createTimeEntryOnServer (SyncQueueItem.data item)
  | Action.update =>
      updateTimeEntryOnServer (SyncQueueItem.recordId item)
                              (SyncQueueItem.data item)
  | Action.delete =>
      deleteTimeEntryOnServer (SyncQueueItem.recordId item)
  end.

Definition syncItem (item : SyncQueueItem.t) : M unit :=
  match SyncQueueItem.table item with
  | TableName.timeEntry => syncTimeEntry item
  | TableName.user => throw UnknownTable
  end.

(** A store method applied to [item.id!]: an [undefined] key is refused. *)
Definition on_key (id : option Z) (f : Z → M unit) : M unit :=
  match id with
  | Some k => f k
  | None => throw MissingKey
  end.

(** The body of the [for] loop of [syncPendingData]. *)
Definition sync_one (item : SyncQueueItem.t) : M unit :=
  if maxRetries <=? SyncQueueItem.retryCount item then
    on_key (SyncQueueItem.id item) markSyncItemCompleted
  else
    try_catch
      (syncItem item ;;;
       on_key (SyncQueueItem.id item) markSyncItemCompleted)
      (λ _,
         on_key (SyncQueueItem.id item) incrementSyncRetry ;;;
         delay (retryDelay * (SyncQueueItem.retryCount item + 1))).

(** The [try] block of [syncPendingData]. *)
Definition sync_pass : M bool :=
  let* pendingItems := getPendingSyncItems in
  for_of pendingItems sync_one ;;;
  ret true.

Definition syncPendingData : M bool :=
  λ w, if syncInProgress w then (Ok false, w)
       else finally (try_catch sync_pass (λ _, ret false))
                    (set_syncInProgress false)
                    (set_syncInProgress true w).

Definition forcSync : M bool := syncPendingData.

(** [useSyncService().triggerSync] *)
Definition triggerSync : M bool := forcSync.

Definition clearPendingData : M unit := clearSyncQueue.

(** The local record made of a server entry in [downloadServerData]. *)
Definition offlineEntry_of (userId : string) (entry : ServerTimeEntry.t)
    : OfflineTimeEntry.t :=
  OfflineTimeEntry.mk None userId
    (ServerTimeEntry.date entry) (ServerTimeEntry.timeStarted entry)
    (ServerTimeEntry.timeEnded entry) (ServerTimeEntry.hoursWorked entry)
    (map ServerTimeEntry.participant (ServerTimeEntry.studies entry))
    (ServerTimeEntry.participated entry) (ServerTimeEntry.comments entry)
    true
    (ServerTimeEntry.createdAt entry) (ServerTimeEntry.updatedAt entry).

Definition same_slot (offlineEntry e : OfflineTimeEntry.t) : bool :=
  (OfflineTimeEntry.date e =? OfflineTimeEntry.date offlineEntry)
  && (OfflineTimeEntry.timeStarted e
      =? OfflineTimeEntry.timeStarted offlineEntry).

(** The body of the inner loop of [downloadServerData]. *)
Definition store_server_entry (userId : string)
    (entry : ServerTimeEntry.t) : M unit :=
  let offlineEntry := offlineEntry_of userId entry in
  let* existing := store_op (λ d,
    (head (where_userId userId (same_slot offlineEntry) (timeEntries d)),
     d)) in
  match existing with
  | Some _ => ret tt
  | None =>
      store_op (λ d,
        (tt, set_timeEntries
               (Table.add OfflineTimeEntry.with_id offlineEntry
                          (timeEntries d)).2 d))
  end.

(** One iteration of the loop over the last three months. *)
Definition download_month (userId : string) (year month i : Z) : M unit :=
  let targetDate := JS.Date year (month - 1 - i) 1 0 0 0 in
  let targetYear := JSDate.getFullYear targetDate in
  let targetMonth := JSDate.getMonth targetDate + 1 in
  let* response := fetch (GET_monthly targetYear targetMonth) in
  match response with
  | (true, BadJson) => throw JsonError
  | (true, Json entries) =>
      for_of (default [] entries) (store_server_entry userId)
  | (false, _) => ret tt
  end.

(** The [try] block of [downloadServerData]. *)
Definition download_body (userId : string) : M unit :=
  let* now := new_Date in
  let year := JSDate.getFullYear now in
  let month := JSDate.getMonth now + 1 in
  for_of [0; 1; 2] (download_month userId year month) ;;;
  updateLastSyncTime userId.

Definition downloadServerData (userId : string) : M unit :=
  λ w, if negb (navigator_onLine (host w)) then (Throw Offline, w)
       else try_catch (download_body userId) (λ error, throw error) w.

Definition getConflicts (userId : string) : M (list OfflineTimeEntry.t) :=
  let* unsyncedEntries := getUnsyncedEntries userId in
  ret (filter (λ entry, OfflineTimeEntry.createdAt entry
                        < OfflineTimeEntry.updatedAt entry)
              unsyncedEntries).

Module Resolution.
Inductive t : Type := local | server.
End Resolution.

Definition resolveConflict (entryId : Z) (resolution : Resolution.t)
    : M unit :=
  match resolution with
  | Resolution.local =>
      let* entry := store_op (λ d, (Table.get entryId (timeEntries d), d)) in
      match entry with
      | Some entry => updateTimeEntry entryId (PartialEntry.of_entry entry)
      | None => ret tt
      end
  | Resolution.server =>
      store_op (λ d,
        (tt, set_timeEntries (Table.delete entryId (timeEntries d)) d))
  end.

(** ** Mutation sequences, healthy hosts and table invariants *)

(** The three mutations of a time entry that the forms issue. *)
Inductive Mutation : Type :=
| Add (entry : NewTimeEntry.t)
| Update (id : Z) (updates : PartialEntry.t)
| Delete (id : Z).

Definition action_of (m : Mutation) : Action.t :=
  match m with
  | Add _ => Action.create
  | Update _ _ => Action.update
  | Delete _ => Action.delete
  end.

(** One call; the result is the local identifier of the record concerned
    (for [addTimeEntry], the one it returns). *)
Definition run_mutation (m : Mutation) : M Z :=
  match m with
  | Add entry => addTimeEntry entry
  | Update id updates => updateTimeEntry id updates ;;; ret id
  | Delete id => deleteTimeEntry id ;;; ret id
  end.

Fixpoint run_mutations (ms : list Mutation) : M (list Z) :=
  match ms with
  | [] => ret []
  | m :: rest =>
      let* id := run_mutation m in
      let* ids := run_mutations rest in
      ret (id :: ids)
  end.

(** The queue entry that describes mutation [m] of record [rid]. *)
Definition describes (m : Mutation) (rid : Z) (item : SyncQueueItem.t)
    : Prop :=
  SyncQueueItem.action item = action_of m
  ∧ SyncQueueItem.table item = TableName.timeEntry
  ∧ SyncQueueItem.recordId item = JS.toString rid
  ∧ SyncQueueItem.retryCount item = 0
  ∧ match m with
    | Add _ => True
    | Update id _ | Delete id => rid = id
    end.

(** The storage engine never fails. *)
Definition healthy (w : World) : Prop :=
  ∀ n, store_fails (host w) n = false.

(** Every key in use comes from the generator, and every stored object
    carries its own key (the key path [id] is inbound). *)
Definition keyed {A} (get_id : A → option Z) (tb : Table.t A) : Prop :=
  1 ≤ Table.nextKey tb
  ∧ ∀ k v, Table.rows tb !! k = Some v →
           1 ≤ k < Table.nextKey tb ∧ get_id v = Some k.

Definition db_ok (d : OfflineDatabase) : Prop :=
  keyed OfflineTimeEntry.id (timeEntries d)
  ∧ keyed OfflineUser.id (users d)
  ∧ keyed SyncQueueItem.id (syncQueue d).

Definition empty_db : OfflineDatabase :=
  mkDb Table.empty Table.empty Table.empty.

(** ** The drain pass, one suspension at a time

    [syncPendingData] cut at its loop: the start of a pass (the busy check,
    raising the flag, reading the queue), one loop iteration, and the end
    of the pass ([finally]).  A started pass that has not ended is held as
    the list of items it still has to visit. *)

Definition drain_start (w : World)
    : World * option (list SyncQueueItem.t) :=
  match getPendingSyncItems (set_syncInProgress true w) with
  | (Ok pendingItems, w') => (w', Some pendingItems)
  | (Throw _, w') => (set_syncInProgress false w', None)
  end.

Definition drain_item (item : SyncQueueItem.t) (rest : list SyncQueueItem.t)
    (w : World) : World * option (list SyncQueueItem.t) :=
  match sync_one item w with
  | (Ok _, w') => (w', Some rest)
  | (Throw _, w') => (set_syncInProgress false w', None)
  end.

Definition drain_finish (w : World) : World := set_syncInProgress false w.

(** Running a started pass to its end without interruption: the value
    returned and the world left. *)
Fixpoint drain_run (items : list SyncQueueItem.t) (w : World)
    : bool * World :=
  match items with
  | [] => (true, drain_finish w)
  | item :: rest =>
      match drain_item item rest w with
      | (w', Some _) => drain_run rest w'
      | (w', None) => (false, w')
      end
  end.

(** The engine with its passes in flight. *)
Record System : Type := mkSystem {
  world : World;
  inflight : list (list SyncQueueItem.t);
}.

Definition idle_system (w : World) : System :=
  mkSystem (set_syncInProgress false w) [].

(** What can happen next: a trigger (connectivity event, timer tick or
    [triggerSync()]) that is turned away or starts a pass; a pass in flight
    that visits its next item or ends; a form that mutates the store. *)
Inductive sys_step : System → System → Prop :=
| step_trigger_busy s :
    syncInProgress (world s) = true →
    sys_step s s
| step_trigger_start s w' items :
    syncInProgress (world s) = false →
    drain_start (world s) = (w', Some items) →
    sys_step s (mkSystem w' (items :: inflight s))
| step_trigger_fail s w' :
    syncInProgress (world s) = false →
    drain_start (world s) = (w', None) →
    sys_step s (mkSystem w' (inflight s))
| step_item s pre item rest post w' rest' :
    inflight s = pre ++ (item :: rest) :: post →
    drain_item item rest (world s) = (w', rest') →
    sys_step s (mkSystem w' (pre ++ option_list rest' ++ post))
| step_finish s pre post :
    inflight s = pre ++ [] :: post →
    sys_step s (mkSystem (drain_finish (world s)) (pre ++ post))
| step_mutation s m r w' :
    run_mutation m (world s) = (r, w') →
    sys_step s (mkSystem w' (inflight s)).

Definition reachable (w : World) (s : System) : Prop :=
  rtc sys_step (idle_system w) s.

(** ** The worlds that the store mutations leave on a healthy host *)

(** The queue item that [addToSyncQueue] hands to [syncQueue.add] in [w]. *)
Definition queued (w : World) (action : Action.t) (recordId : string)
    (data : Payload) : SyncQueueItem.t :=
  SyncQueueItem.mk None action TableName.timeEntry recordId data
                   (Date_now (host w) (clockReads w)) 0.

Definition enqueue (item : SyncQueueItem.t) (w : World) : World :=
  set_db (set_syncQueue
            (Table.add SyncQueueItem.with_id item (syncQueue (offlineDb w))).2
            (offlineDb w))
         (tick_store (tick_clock w)).

(** The world after the first store operation of each mutation. *)
Definition stamped (updates : PartialEntry.t) (now : Z) : PartialEntry.t :=
  PartialEntry.mk
    (PartialEntry.userId updates) (PartialEntry.date updates)
    (PartialEntry.timeStarted updates) (PartialEntry.timeEnded updates)
    (PartialEntry.hoursWorked updates) (PartialEntry.studies updates)
    (PartialEntry.participated updates) (PartialEntry.comments updates)
    (Some false) (PartialEntry.createdAt updates) (Some now).

Definition updated (id : Z) (updates : PartialEntry.t) (w : World) : World :=
  set_db (set_timeEntries
            (Table.update id
               (PartialEntry.apply
                  (stamped updates (Date_now (host w) (clockReads w))))
               (timeEntries (offlineDb w)))
            (offlineDb w))
         (tick_store (tick_clock w)).

Definition deleted (id : Z) (w : World) : World :=
  set_db (set_timeEntries (Table.delete id (timeEntries (offlineDb w)))
                          (offlineDb w))
         (tick_store w).

Definition fresh_entry (entry : NewTimeEntry.t) (now : Z)
    : OfflineTimeEntry.t :=
  OfflineTimeEntry.mk None
    (NewTimeEntry.userId entry) (NewTimeEntry.date entry)
    (NewTimeEntry.timeStarted entry) (NewTimeEntry.timeEnded entry)
    (NewTimeEntry.hoursWorked entry) (NewTimeEntry.studies entry)
    (NewTimeEntry.participated entry) (NewTimeEntry.comments entry)
    false now now.

Definition added (entry : NewTimeEntry.t) (w : World) : World :=
  set_db (set_timeEntries
            (Table.add OfflineTimeEntry.with_id
               (fresh_entry entry (Date_now (host w) (clockReads w)))
               (timeEntries (offlineDb w))).2
            (offlineDb w))
         (tick_store (tick_clock w)).


(** ** Sample hosts and worlds *)

(** A host whose storage never fails and whose network rejects every
    request; the clock reads 1000, 1001, ... *)
Definition quiet_host : Host :=
  mkHost (λ n, 1000 + Z.of_nat n) (λ _, false) (λ _, Rejected) true.

Definition fresh_world (h : Host) : World :=
  mkWorld h empty_db false 0 0 [] [].

Definition sample_new_entry : NewTimeEntry.t :=
  NewTimeEntry.mk "u1" 86400000 90000000 102600000 (JS.num 7 2)
                  ["Alice"%string] true None.

Definition no_changes : PartialEntry.t :=
  PartialEntry.mk None None None None None None None None None None None.

(** ** The vocabulary of the aggregation claims *)

(** [r] is [x] rounded to one decimal: a multiple of one tenth at distance
    at most one twentieth, the upper neighbour at equal distance. *)
Definition nearest_tenth (r x : Q) : Prop :=
  ((∃ n : Z, r == inject_Z n / 10)
   ∧ x - (1 # 20) < r ∧ r <= x + (1 # 20))%Q.

(** [s] is the lower-cased form of a participant of one of [entries]. *)
Definition lowered_participant (entries : list OfflineTimeEntry.t)
    (s : string) : Prop :=
  ∃ entry p, entry ∈ entries ∧ p ∈ OfflineTimeEntry.studies entry
             ∧ s = JS.toLowerCase p.

Definition entry_with (userId : string) (date : Z) (hoursWorked : JS.Number)
    (studies : list string) (participated : bool) : OfflineTimeEntry.t :=
  OfflineTimeEntry.mk None userId date date (date + 3600000) hoursWorked
                      studies participated None true date date.

(** A store holding two entries of March 2024 with the participant lists
    ["Alice", "alice"] and ["Bob"], and one entry of April 2024. *)
Definition march_db : OfflineDatabase :=
  let t0 := Table.empty in
  let t1 := (Table.add OfflineTimeEntry.with_id
               (entry_with "u1" (JS.Date 2024 2 5 0 0 0) (JS.num 3 2)
                           ["Alice"%string; "alice"%string] false) t0).2 in
  let t2 := (Table.add OfflineTimeEntry.with_id
               (entry_with "u1" (JS.Date 2024 2 20 0 0 0) (JS.num 9 4)
                           ["Bob"%string] true) t1).2 in
  let t3 := (Table.add OfflineTimeEntry.with_id
               (entry_with "u1" (JS.Date 2024 3 2 0 0 0) (JS.num 1 1)
                           ["Carol"%string] false) t2).2 in
  mkDb t3 Table.empty Table.empty.

Definition march_world : World :=
  mkWorld quiet_host march_db false 0 0 [] [].

(** ** The worlds that the queue operations leave on a healthy host *)

(** After [markSyncItemCompleted(k)]. *)
Definition completed (k : Z) (w : World) : World :=
  set_db (set_syncQueue (Table.delete k (syncQueue (offlineDb w)))
                        (offlineDb w))
         (tick_store w).

(** After [incrementSyncRetry(k)]. *)
Definition retried (k : Z) (w : World) : World :=
  match Table.get k (syncQueue (offlineDb w)) with
  | Some stored =>
      set_db (set_syncQueue
                (Table.update k
                   (SyncQueueItem.with_retryCount
                      (SyncQueueItem.retryCount stored + 1))
                   (syncQueue (offlineDb w)))
                (offlineDb w))
             (tick_store (tick_store w))
  | None => tick_store w
  end.

(** An item is exhausted when the loop drops it without a replay. *)
Definition exhausted (item : SyncQueueItem.t) : bool :=
  maxRetries <=? SyncQueueItem.retryCount item.

(** The loop invariant of a pass on a healthy host: the items still to be
    visited have distinct keys and are stored as the snapshot holds them. *)
Definition pending_ok (items : list SyncQueueItem.t) (w : World) : Prop :=
  NoDup (map SyncQueueItem.id items)
  ∧ ∀ item, item ∈ items →
      ∃ k, SyncQueueItem.id item = Some k
           ∧ Table.get k (syncQueue (offlineDb w)) = Some item.

(** A queue of three items: an exhausted update of record 7, a fresh
    delete of record 8, and a create that has failed twice. *)
Definition sample_queue : Table.t SyncQueueItem.t :=
  let q0 := Table.empty in
  let q1 := (Table.add SyncQueueItem.with_id
               (SyncQueueItem.mk None Action.update TableName.timeEntry
                                 "7" (Changes no_changes) 10 3) q0).2 in
  let q2 := (Table.add SyncQueueItem.with_id
               (SyncQueueItem.mk None Action.delete TableName.timeEntry
                                 "8" (IdOnly 8) 20 0) q1).2 in
  (Table.add SyncQueueItem.with_id
     (SyncQueueItem.mk None Action.create TableName.timeEntry "3"
        (FullEntry (entry_with "u1" (JS.Date 2024 3 2 0 0 0) (JS.num 1 1)
                               ["Carol"%string] false)) 30 2) q2).2.

(** The March store with that queue, on the host whose network rejects
    every request. *)
Definition drain_world : World :=
  mkWorld quiet_host
          (mkDb (timeEntries march_db) Table.empty sample_queue)
          false 0 0 [] [].

(** The three sample items as the store holds them. *)
Definition queued_update7 : SyncQueueItem.t :=
  SyncQueueItem.mk (Some 1) Action.update TableName.timeEntry
                   "7" (Changes no_changes) 10 3.
Definition queued_delete8 : SyncQueueItem.t :=
  SyncQueueItem.mk (Some 2) Action.delete TableName.timeEntry
                   "8" (IdOnly 8) 20 0.
Definition queued_create3 : SyncQueueItem.t :=
  SyncQueueItem.mk (Some 3) Action.create TableName.timeEntry "3"
    (FullEntry (entry_with "u1" (JS.Date 2024 3 2 0 0 0) (JS.num 1 1)
                           ["Carol"%string] false)) 30 2.

(** A host like [quiet_host] whose third store operation fails. *)
Definition faulty_host : Host :=
  mkHost (λ n, 1000 + Z.of_nat n) (λ n, Nat.eqb n 2) (λ _, Rejected) true.

(** A method that leaves the engine's flag alone. *)
Definition keeps_flag {A} (m : M A) : Prop :=
  ∀ w, syncInProgress (m w).2 = syncInProgress w.

(** The invariant of the engine: the flag is raised exactly while one pass
    is in flight, and there is never a second one. *)
Definition sys_inv (s : System) : Prop :=
  (syncInProgress (world s) = true ∧ ∃ items, inflight s = [items])
  ∨ (syncInProgress (world s) = false ∧ inflight s = []).

(** The engine of [drain_world] just after a trigger has started a pass. *)
Definition draining_system : System :=
  mkSystem (drain_start drain_world).1
           (option_list (drain_start drain_world).2).

(** A host whose storage fails at every operation. *)
Definition broken_host : Host :=
  mkHost (λ n, 1000 + Z.of_nat n) (λ _, true) (λ _, Rejected) true.

Definition broken_world : World :=
  mkWorld broken_host (offlineDb drain_world) false 0 0 [] [].

(** [drain_world] on the host whose third store operation fails. *)
Definition faulty_world : World :=
  mkWorld faulty_host (offlineDb drain_world) false 0 0 [] [].

(** ** The vocabulary of the download and conflict claims *)

(** A method all of whose runs relate the world before to the world
    after by [R]. *)
Definition preserves {A} (R : World → World → Prop) (m : M A) : Prop :=
  ∀ w, R w (m w).2.

Definition same_users (w w' : World) : Prop :=
  users (offlineDb w') = users (offlineDb w).

Definition same_syncQueue (w w' : World) : Prop :=
  syncQueue (offlineDb w') = syncQueue (offlineDb w).

Definition same_host (w w' : World) : Prop := host w' = host w.

(** The [timeEntries] table only gains rows (and stays well keyed). *)
Definition timeEntries_grow (w w' : World) : Prop :=
  keyed OfflineTimeEntry.id (timeEntries (offlineDb w)) →
  keyed OfflineTimeEntry.id (timeEntries (offlineDb w'))
  ∧ ∀ k e, Table.get k (timeEntries (offlineDb w)) = Some e →
           Table.get k (timeEntries (offlineDb w')) = Some e.

(** A local entry of [userId] exists with the date and the start of the
    server entry. *)
Definition has_slot (userId : string) (entry : ServerTimeEntry.t)
    (tb : Table.t OfflineTimeEntry.t) : Prop :=
  ∃ k e, Table.get k tb = Some e
         ∧ OfflineTimeEntry.userId e = userId
         ∧ OfflineTimeEntry.date e = ServerTimeEntry.date entry
         ∧ OfflineTimeEntry.timeStarted e = ServerTimeEntry.timeStarted entry.

Definition with_updatedAt (d : Z) (e : OfflineTimeEntry.t)
    : OfflineTimeEntry.t :=
  OfflineTimeEntry.mk
    (OfflineTimeEntry.id e) (OfflineTimeEntry.userId e)
    (OfflineTimeEntry.date e) (OfflineTimeEntry.timeStarted e)
    (OfflineTimeEntry.timeEnded e) (OfflineTimeEntry.hoursWorked e)
    (OfflineTimeEntry.studies e) (OfflineTimeEntry.participated e)
    (OfflineTimeEntry.comments e) (OfflineTimeEntry.synced e)
    (OfflineTimeEntry.createdAt e) d.

(** The conflict test of [getConflicts]. *)
Definition conflicted (e : OfflineTimeEntry.t) : Prop :=
  OfflineTimeEntry.synced e = false
  ∧ OfflineTimeEntry.createdAt e < OfflineTimeEntry.updatedAt e.

(** A server entry for 5 March 2024, which [march_db] already holds for
    user "u1", and one for 6 March 2024, which it does not. *)
Definition server_entry (date : Z) : ServerTimeEntry.t :=
  ServerTimeEntry.mk "srv-1" date date (date + 3600000) (JS.num 1 1)
    [ServerTimeEntry.mkStudy "s-1" "Dora"] true None date date.

Definition server_known : ServerTimeEntry.t :=
  server_entry (JS.Date 2024 2 5 0 0 0).
Definition server_new : ServerTimeEntry.t :=
  server_entry (JS.Date 2024 2 6 0 0 0).

(** A cached user profile for "u1", last synchronized at time 5. *)
Definition cached_users : Table.t OfflineUser.t :=
  (Table.add OfflineUser.with_id (OfflineUser.mk None "u1" None 5)
             Table.empty).2.

(** A host whose gateway answers every request with a non-2xx response. *)
Definition http500_host : Host :=
  mkHost (λ n, 1000 + Z.of_nat n) (λ _, false)
         (λ _, Response false (Json None)) true.

Definition http500_world : World :=
  mkWorld http500_host (mkDb (timeEntries march_db) cached_users Table.empty)
          false 0 0 [] [].

(** A host whose gateway serves the first month with one new entry and
    rejects the request for the second. *)
Definition flaky_host : Host :=
  mkHost (λ n, 1000 + Z.of_nat n) (λ _, false)
         (λ n, match n with
               | O => Response true (Json (Some [server_new]))
               | _ => Rejected
               end) true.

Definition flaky_world : World :=
  mkWorld flaky_host (mkDb (timeEntries march_db) cached_users Table.empty)
          false 0 0 [] [].

(** A store with one conflicted entry: unsynced, modified at time 2 after
    its creation at time 1. *)
Definition conflict_entry : OfflineTimeEntry.t :=
  OfflineTimeEntry.mk None "u1" 86400000 90000000 102600000 (JS.num 7 2)
                      ["Alice"%string] true None false 1 2.

Definition conflict_world : World :=
  mkWorld quiet_host
          (mkDb (Table.add OfflineTimeEntry.with_id conflict_entry
                           Table.empty).2
                Table.empty Table.empty)
          false 0 0 [] [].

(** The table invariants, once established, are kept. *)
Definition db_ok_kept (w w' : World) : Prop :=
  db_ok (offlineDb w) → db_ok (offlineDb w').

(** * The rest of the two classes *)

(** ** More built-ins *)

Module JSString.

(** The white space that [trim] removes, among the ASCII characters. *)
Definition is_space (c : ascii) : bool :=
  let n := N_of_ascii c in
  (((9 <=? n) && (n <=? 13)) || (n =? 32))%N.

Fixpoint trimStart (s : string) : string :=
  match s with
  | EmptyString => EmptyString
  | String c r => if is_space c then trimStart r else s
  end.

Fixpoint trimEnd (s : string) : string :=
  match s with
  | EmptyString => EmptyString
  | String c r =>
      match trimEnd r with
      | EmptyString => if is_space c then EmptyString
                       else String c EmptyString
      | r' => String c r'
      end
  end.

(** [String.prototype.trim] *)
Definition trim (s : string) : string := trimEnd (trimStart s).

(** [s.startsWith(t)] *)
Fixpoint startsWith (s t : string) : bool :=
  match t with
  | EmptyString => true
  | String b t' =>
      match s with
      | EmptyString => false
      | String a s' => Ascii.eqb a b && startsWith s' t'
      end
  end.

(** [s.includes(t)] *)
Fixpoint includes (s t : string) : bool :=
  startsWith s t
  || match s with
     | EmptyString => false
     | String _ r => includes r t
     end.

End JSString.

(** ** [OfflineDatabase], continued *)

Definition with_synced (b : bool) (e : OfflineTimeEntry.t)
    : OfflineTimeEntry.t :=
  OfflineTimeEntry.mk
    (OfflineTimeEntry.id e) (OfflineTimeEntry.userId e)
    (OfflineTimeEntry.date e) (OfflineTimeEntry.timeStarted e)
    (OfflineTimeEntry.timeEnded e) (OfflineTimeEntry.hoursWorked e)
    (OfflineTimeEntry.studies e) (OfflineTimeEntry.participated e)
    (OfflineTimeEntry.comments e) b
    (OfflineTimeEntry.createdAt e) (OfflineTimeEntry.updatedAt e).

Definition markEntrySynced (id : Z) : M unit :=
  store_op (λ d,
    (tt, set_timeEntries
           (Table.update id (with_synced true) (timeEntries d)) d)).

Definition matches_participant (participantName : string)
    (entry : OfflineTimeEntry.t) : bool :=
  existsb (λ study,
             JSString.includes (JS.toLowerCase study)
                               (JS.toLowerCase participantName))
          (OfflineTimeEntry.studies entry).

Definition searchEntriesByParticipant (userId : string) (year : Z)
    (participantName : string) : M (list OfflineTimeEntry.t) :=
  if bool_decide (JSString.trim participantName = EmptyString) then ret []
  else
    let startDate := JS.Date year 0 1 0 0 0 in
    let endDate := JS.Date year 11 31 23 59 59 in
    let* entries := store_op (λ d,
      (where_userId userId (in_range startDate endDate) (timeEntries d),
       d)) in
    ret (List.filter (matches_participant participantName) entries).

(** The argument of [saveUser], [Omit<OfflineUser, "id" | "lastSync">]:
    the optional [name] is absent ([None]), or present and possibly
    [undefined] ([Some None]). *)
Module NewUser.
Record t : Type := mk {
  email : string;
  name : option (option string);
}.
End NewUser.

(** [{ ...user, lastSync }] applied by [users.update]: a key that is
    present is written, [undefined] removing the property. *)
Definition apply_user (user : NewUser.t) (lastSync : Z) (u : OfflineUser.t)
    : OfflineUser.t :=
  OfflineUser.mk (OfflineUser.id u) (NewUser.email user)
                 (default (OfflineUser.name u) (NewUser.name user))
                 lastSync.

Definition saveUser (user : NewUser.t) : M Z :=
  let* existingUser := store_op (λ d,
    (first_by_email (NewUser.email user) (users d), d)) in
  match existingUser with
  | Some existingUser =>
      let* now := new_Date in
      match OfflineUser.id existingUser with
      | Some k =>
          store_op (λ d,
            (tt, set_users (Table.update k (apply_user user now) (users d))
                           d)) ;;;
          ret k
      | None => throw MissingKey
      end
  | None =>
      let* now := new_Date in
      store_op (λ d,
        let added :=
          Table.add OfflineUser.with_id
            (OfflineUser.mk None (NewUser.email user)
                            (mjoin (NewUser.name user)) now)
            (users d) in
        (added.1, set_users added.2 d))
  end.

Definition getUser (email : string) : M (option OfflineUser.t) :=
  store_op (λ d, (first_by_email email (users d), d)).

(** [user?.lastSync || null] *)
Definition getLastSyncTime (userId : string) : M (option Z) :=
  let* user := store_op (λ d, (first_by_email userId (users d), d)) in
  ret (OfflineUser.lastSync <$> user).

Definition isOnline : M bool := λ w, (Ok (navigator_onLine (host w)), w).

(** ** [SyncService], continued *)

Definition syncWhenOnline : M unit :=
  λ w, if navigator_onLine (host w) then (syncPendingData ;;; ret tt) w
       else (Ok tt, w).

(** The callback of the periodic timer. *)
Definition periodic_sync : M unit :=
  λ w, if navigator_onLine (host w) && negb (syncInProgress w)
       then (syncPendingData ;;; ret tt) w
       else (Ok tt, w).

Record SyncStatus : Type := mkSyncStatus {
  status_syncInProgress : bool;
  status_isOnline : bool;
}.

Definition getSyncStatus (w : World) : SyncStatus :=
  mkSyncStatus (syncInProgress w) (navigator_onLine (host w)).

(** ** The vocabulary of the further properties *)

(** The order of the primary keys of two queue items. *)
Definition id_lt (a b : SyncQueueItem.t) : Prop :=
  ∃ ka kb, SyncQueueItem.id a = Some ka ∧ SyncQueueItem.id b = Some kb
           ∧ ka < kb.

(** The order of the [timestamp] index: by time, then by primary key. *)
Definition queue_lt (a b : SyncQueueItem.t) : Prop :=
  SyncQueueItem.timestamp a < SyncQueueItem.timestamp b
  ∨ (SyncQueueItem.timestamp a = SyncQueueItem.timestamp b
     ∧ ∃ ka kb, SyncQueueItem.id a = Some ka ∧ SyncQueueItem.id b = Some kb
                ∧ ka < kb).

(** The gateway call that a pass makes for an item, if any. *)
Definition request_of (item : SyncQueueItem.t) : option Request :=
  if exhausted item then None
  else
    match SyncQueueItem.table item, SyncQueueItem.action item with
    | TableName.user, _ => None
    | TableName.timeEntry, Action.create =>
        if isOfflineTimeEntry (SyncQueueItem.data item)
        then Some (POST_time_entry
                     (RequestBody.of_data (SyncQueueItem.data item)))
        else None
    | TableName.timeEntry, Action.update =>
        Some (PUT_time_entry (SyncQueueItem.recordId item)
                             (RequestBody.of_data (SyncQueueItem.data item)))
    | TableName.timeEntry, Action.delete =>
        Some (DELETE_time_entry (SyncQueueItem.recordId item))
    end.

(** An item that the gateway can be asked about: of the time-entry table,
    a create carrying a full record. *)
Definition sendable (item : SyncQueueItem.t) : Prop :=
  SyncQueueItem.table item = TableName.timeEntry
  ∧ (SyncQueueItem.action item = Action.create →
     isOfflineTimeEntry (SyncQueueItem.data item) = true).

(** The gateway accepts every request / is out of reach. *)
Definition gateway_up (w : World) : Prop :=
  ∀ n, ∃ entries, fetch_result (host w) n = Response true (Json entries).
Definition gateway_down (w : World) : Prop :=
  ∀ n, fetch_result (host w) n = Rejected.

(** The world after one call of [syncPendingData], and after [n]. *)
Definition after_pass (w : World) : World := (syncPendingData w).2.
Definition after_passes (n : nat) (w : World) : World :=
  Nat.iter n after_pass w.

(** What a pass with the gateway out of reach does to a stored item. *)
Definition fail_once (item : SyncQueueItem.t) : option SyncQueueItem.t :=
  if exhausted item then None
  else Some (SyncQueueItem.with_retryCount
               (SyncQueueItem.retryCount item + 1) item).

Definition same_timeEntries (w w' : World) : Prop :=
  timeEntries (offlineDb w') = timeEntries (offlineDb w).

(** No two cached users share an email. *)
Definition emails_distinct (tb : Table.t OfflineUser.t) : Prop :=
  ∀ k1 k2 u1 u2,
    Table.get k1 tb = Some u1 → Table.get k2 tb = Some u2 →
    OfflineUser.email u1 = OfflineUser.email u2 → k1 = k2.

(** Sample data for the further properties. *)
Definition sample_user : NewUser.t := NewUser.mk "u1" (Some (Some "Una")).

Definition up_host : Host :=
  mkHost (λ n, 1000 + Z.of_nat n) (λ _, false)
         (λ _, Response true (Json None)) true.

(** The sample queue without surprises: every item can be sent. *)
Definition up_world : World :=
  mkWorld up_host (mkDb (timeEntries march_db) Table.empty sample_queue)
          false 0 0 [] [].

(** What a download may do to the [timeEntries] table for user [u]: keep
    every row and add rows of [u] that are marked synced. *)
Definition gains_synced (u : string) (w w' : World) : Prop :=
  keyed OfflineTimeEntry.id (timeEntries (offlineDb w)) →
  keyed OfflineTimeEntry.id (timeEntries (offlineDb w'))
  ∧ (∀ k e, Table.get k (timeEntries (offlineDb w)) = Some e →
            Table.get k (timeEntries (offlineDb w')) = Some e)
  ∧ (∀ k e, Table.get k (timeEntries (offlineDb w')) = Some e →
            Table.get k (timeEntries (offlineDb w)) = Some e
            ∨ (OfflineTimeEntry.synced e = true
               ∧ OfflineTimeEntry.userId e = u)).

(** The user that [saveUser] stores for [user] at time [now], given the
    user cached so far under the email. *)
Definition saved_user (user : NewUser.t) (now : Z)
    (existingUser : option OfflineUser.t) (nextKey : Z) : OfflineUser.t :=
  match existingUser with
  | Some existingUser => apply_user user now existingUser
  | None =>
      OfflineUser.with_id nextKey
        (OfflineUser.mk None (NewUser.email user)
                        (mjoin (NewUser.name user)) now)
  end.

(** A string of white space only. *)
Fixpoint all_spaces (s : string) : bool :=
  match s with
  | EmptyString => true
  | String c r => JSString.is_space c && all_spaces r
  end.

(** The identifiers that the [addTimeEntry] calls of a mutation sequence
    returned. *)
Fixpoint added_ids (ms : list Mutation) (ids : list Z) : list Z :=
  match ms, ids with
  | Add _ :: ms', id :: ids' => id :: added_ids ms' ids'
  | _ :: ms', _ :: ids' => added_ids ms' ids'
  | _, _ => []
  end.

(** The March store with one more entry, dated half a second before the
    end of 31 March 2024. *)
Definition late_world : World :=
  mkWorld quiet_host
          (mkDb (Table.add OfflineTimeEntry.with_id
                   (entry_with "u1" (JS.Date 2024 2 31 23 59 59 + 500)
                               (JS.num 1 2) ["Eve"%string] false)
                   (timeEntries march_db)).2
                Table.empty Table.empty)
          false 0 0 [] [].

(** ** The calendar of [downloadServerData] *)

(** The day of its 400-year era on which month index [m] of the era's year
    [yoe] begins, as [JS.days_from_civil] numbers it. *)
Definition era_day (yoe m : Z) : Z :=
  yoe * 365 + yoe / 4 - yoe / 100 + (153 * ((m + 10) mod 12) + 2) / 5.

(** The year of the era and the month index of a day of the era, as
    [JSDate.civil_year_month] finds them. *)
Definition era_year_month (doe : Z) : Z * Z :=
  let yoe := (doe - doe / 1460 + doe / 36524 - doe / 146096) / 365 in
  let doy := doe - (365 * yoe + yoe / 4 - yoe / 100) in
  let mp := (5 * doy + 2) / 153 in
  (yoe, if mp <? 10 then mp + 2 else mp - 10).

Definition era_round_trip (yoe m : Z) : bool :=
  (0 <=? era_day yoe m) && (era_day yoe m <? 146097)
  && ((era_year_month (era_day yoe m)).1 =? yoe)
  && ((era_year_month (era_day yoe m)).2 =? m).

(** [p] holds of the [n] integers from [z] on. *)
Fixpoint all_from (p : Z → bool) (z : Z) (n : nat) : bool :=
  match n with
  | O => true
  | S n => p z && all_from p (z + 1) n
  end.

(** The calendar month [i] months before month [month] (1 to 12) of
    [year], for [i] below 12. *)
Definition months_before (year month i : Z) : Z * Z :=
  if i <? month then (year, month - i) else (year - 1, month + 12 - i).

(** The requests for the month of the clock's reading [now] and the two
    months before it. *)
Definition recent_months (now : Z) : list Request :=
  map (λ i, GET_monthly
              (months_before (JSDate.getFullYear now)
                             (JSDate.getMonth now + 1) i).1
              (months_before (JSDate.getFullYear now)
                             (JSDate.getMonth now + 1) i).2)
      [0; 1; 2].

(** ** A mutation and its replay *)

(** The gateway call that replays mutation [m]: of the record or the
    changes, the body carries the date, the two times, the participants,
    the participation mark and the comments, as far as they are given. *)
Definition replay_request (m : Mutation) : Request :=
  match m with
  | Add entry =>
      POST_time_entry
        (RequestBody.mk (Some (NewTimeEntry.date entry))
                        (Some (NewTimeEntry.timeStarted entry))
                        (Some (NewTimeEntry.timeEnded entry))
                        (Some (NewTimeEntry.studies entry))
                        (Some (NewTimeEntry.participated entry))
                        (NewTimeEntry.comments entry))
  | Update id updates =>
      PUT_time_entry (JS.toString id)
        (RequestBody.mk (PartialEntry.date updates)
                        (PartialEntry.timeStarted updates)
                        (PartialEntry.timeEnded updates)
                        (PartialEntry.studies updates)
                        (PartialEntry.participated updates)
                        (mjoin (PartialEntry.comments updates)))
  | Delete id => DELETE_time_entry (JS.toString id)
  end.

(** The March store on the host whose gateway accepts every request, with
    nothing pending. *)
Definition settled_world : World :=
  mkWorld up_host (mkDb (timeEntries march_db) Table.empty Table.empty)
          false 0 0 [] [].

(** ** The vocabulary of names and their case *)

(** A string of ASCII characters. *)
Fixpoint is_ascii (s : string) : bool :=
  match s with
  | EmptyString => true
  | String c r => (N_of_ascii c <? 128)%N && is_ascii r
  end.

(** Two characters that are equal, or the capital and the small form of
    one letter. *)
Definition same_letter (a b : ascii) : Prop :=
  a = b
  ∨ ((65 ≤ N_of_ascii a ≤ 90)%N ∧ N_of_ascii b = (N_of_ascii a + 32)%N)
  ∨ ((65 ≤ N_of_ascii b ≤ 90)%N ∧ N_of_ascii a = (N_of_ascii b + 32)%N).

(** Two names that differ at most in the case of their letters. *)
Fixpoint same_ignoring_case (s t : string) : Prop :=
  match s, t with
  | EmptyString, EmptyString => True
  | String a s', String b t' => same_letter a b ∧ same_ignoring_case s' t'
  | _, _ => False
  end.

(** [p] is a participant of one of [entries]. *)
Definition participant_of (entries : list OfflineTimeEntry.t) (p : string)
    : Prop :=
  ∃ entry, entry ∈ entries ∧ p ∈ OfflineTimeEntry.studies entry.

(** Every participant name in the table is a string of ASCII characters. *)
Definition ascii_participants (tb : Table.t OfflineTimeEntry.t) : Prop :=
  ∀ entry p, entry ∈ Table.toArray tb →
             p ∈ OfflineTimeEntry.studies entry → is_ascii p = true.

(** [reps] holds one name for each participant of [entries], names that
    differ only in case counting as one. *)
Definition distinct_participants (entries : list OfflineTimeEntry.t)
    (reps : list string) : Prop :=
  (∀ p, participant_of entries p → ∃ r, r ∈ reps ∧ same_ignoring_case p r)
  ∧ (∀ r, r ∈ reps → ∃ p, participant_of entries p ∧ same_ignoring_case p r)
  ∧ (∀ i j r r', reps !! i = Some r → reps !! j = Some r' →
                 same_ignoring_case r r' → i = j).

(** ** The suspensions of a pass *)

(** The worlds in which a started pass is suspended between two turns of
    its loop: the world in which the loop is entered, and the world after
    each iteration that did not throw. *)
Fixpoint drain_worlds (items : list SyncQueueItem.t) (w : World)
    : list World :=
  w :: match items with
       | [] => []
       | item :: rest =>
           match drain_item item rest w with
           | (w', Some _) => drain_worlds rest w'
           | (_, None) => []
           end
       end.

(** ** The request of a month *)

(** The request that the iteration [i] of [downloadServerData] makes when
    the clock read month [month] of [year]. *)
Definition month_request (year month i : Z) : Request :=
  GET_monthly
    (JSDate.getFullYear (JS.Date year (month - 1 - i) 1 0 0 0))
    (JSDate.getMonth (JS.Date year (month - 1 - i) 1 0 0 0) + 1).

(** ** Durations of nine and of seventy-two minutes *)

(** A store holding two entries of March 2024 with the durations 0.15 and
    1.2, and a store holding the first of them only. *)
Definition tenths_world : World :=
  mkWorld quiet_host
    (mkDb (Table.add OfflineTimeEntry.with_id
             (entry_with "u1" (JS.Date 2024 2 20 0 0 0) (JS.num 12 10)
                         ["Bob"%string] true)
             (Table.add OfflineTimeEntry.with_id
                (entry_with "u1" (JS.Date 2024 2 5 0 0 0) (JS.num 15 100)
                            ["Alice"%string] false)
                Table.empty).2).2
          Table.empty Table.empty)
    false 0 0 [] [].

Definition nine_minutes_world : World :=
  mkWorld quiet_host
    (mkDb (Table.add OfflineTimeEntry.with_id
             (entry_with "u1" (JS.Date 2024 2 5 0 0 0) (JS.num 15 100)
                         ["Alice"%string] false)
             Table.empty).2
          Table.empty Table.empty)
    false 0 0 [] [].

(** * Properties *)

(** ** Tables *)

Section TableFacts.
Context {A : Type} (get_id : A → option Z).
Implicit Types (tb : Table.t A) (k : Z) (v : A).

Lemma omap_lookup_ext (m1 m2 : gmap Z A) (ks : list Z) :
  (∀ k, k ∈ ks → m1 !! k = m2 !! k) →
  omap (λ k, m1 !! k) ks = omap (λ k, m2 !! k) ks.
Proof.
  induction ks as [|k ks IH]; intros Hks; [done|].
  cbn. rewrite (Hks k) by set_solver.
  rewrite IH; [done|]. intros k' ?. apply Hks. set_solver.
Qed.

Lemma toArray_add withId v tb :
  keyed get_id tb →
  Table.toArray (Table.add withId v tb).2
  = Table.toArray tb ++ [withId (Table.nextKey tb) v].
Proof.
  intros [Hn Hk]. unfold Table.toArray, Table.add. cbn.
  replace (Table.nextKey tb + 1 - 1) with ((Table.nextKey tb - 1) + 1) by lia.
  rewrite seqZ_app by lia. rewrite omap_app.
  f_equal.
  - apply omap_lookup_ext. intros k Hin. apply elem_of_seqZ in Hin.
    rewrite lookup_insert_ne by lia. done.
  - rewrite seqZ_cons by lia. rewrite seqZ_nil by lia. cbn.
    replace (1 + (Table.nextKey tb - 1)) with (Table.nextKey tb) by lia.
    by rewrite lookup_insert_eq.
Qed.

Lemma fresh_nextKey tb : keyed get_id tb → Table.rows tb !! Table.nextKey tb = None.
Proof.
  intros [_ Hk]. destruct (Table.rows tb !! Table.nextKey tb) as [v|] eqn:E; [|done].
  apply Hk in E. lia.
Qed.

Lemma count_add withId v tb :
  keyed get_id tb →
  Table.count (Table.add withId v tb).2 = S (Table.count tb).
Proof.
  intros Hk. unfold Table.count, Table.add. cbn.
  apply map_size_insert_None, fresh_nextKey, Hk.
Qed.

Lemma keyed_add withId v tb :
  (∀ k, get_id (withId k v) = Some k) →
  keyed get_id tb → keyed get_id (Table.add withId v tb).2.
Proof.
  intros Hid [Hn Hk]. split; cbn; [lia|].
  intros k x. rewrite lookup_insert. case_decide as E.
  - intros [= <-]. subst. split; [lia|apply Hid].
  - intros Hx. apply Hk in Hx. split; [lia|tauto].
Qed.

Lemma keyed_update k f tb :
  (∀ v, get_id (f v) = get_id v) →
  keyed get_id tb → keyed get_id (Table.update k f tb).
Proof.
  intros Hf [Hn Hk]. split; cbn; [done|].
  intros k' x. rewrite lookup_alter. case_decide as E.
  - subst. destruct (Table.rows tb !! k') as [y|] eqn:Ey; [|done].
    cbn. intros [= <-]. rewrite Hf. by apply Hk.
  - apply Hk.
Qed.

Lemma keyed_delete k tb :
  keyed get_id tb → keyed get_id (Table.delete k tb).
Proof.
  intros [Hn Hk]. split; cbn; [done|].
  intros k' x. rewrite lookup_delete. case_decide; [done|]. apply Hk.
Qed.

Lemma update_absent k f tb :
  Table.get k tb = None → Table.update k f tb = tb.
Proof.
  unfold Table.get, Table.update. intros Hnone. destruct tb as [m n]. cbn in *.
  f_equal. apply map_eq. intros j. rewrite lookup_alter.
  case_decide; [subst; by rewrite Hnone|done].
Qed.

Lemma elem_of_toArray v tb :
  keyed get_id tb →
  v ∈ Table.toArray tb ↔ ∃ k, Table.rows tb !! k = Some v.
Proof.
  intros [Hn Hk]. unfold Table.toArray. rewrite list_elem_of_omap. split.
  - intros (k & _ & Hv). eauto.
  - intros (k & Hv). exists k. split; [|done].
    apply elem_of_seqZ. apply Hk in Hv. lia.
Qed.

Lemma keyed_empty : keyed get_id (Table.empty (A:=A)).
Proof. split; cbn; [done|]. intros k v. by rewrite lookup_empty. Qed.

End TableFacts.

(** ** Running the store methods on a healthy host *)

Lemma healthy_host w w' : host w' = host w → healthy w → healthy w'.
Proof. unfold healthy. by intros ->. Qed.

Lemma store_op_healthy {A} (f : OfflineDatabase → A * OfflineDatabase) w :
  healthy w →
  store_op f w
  = (Ok (f (offlineDb w)).1, set_db (f (offlineDb w)).2 (tick_store w)).
Proof. intros H. unfold store_op. by rewrite H. Qed.

Lemma addToSyncQueue_healthy w action recordId data :
  healthy w →
  addToSyncQueue action TableName.timeEntry recordId data w
  = (Ok tt, enqueue (queued w action recordId data) w).
Proof.
  intros H. unfold addToSyncQueue, bind, new_Date.
  rewrite store_op_healthy by (eapply healthy_host; [|exact H]; done).
  unfold enqueue, queued, Table.add. cbn. done.
Qed.

Lemma enqueue_toArray item w :
  keyed SyncQueueItem.id (syncQueue (offlineDb w)) →
  Table.toArray (syncQueue (offlineDb (enqueue item w)))
  = Table.toArray (syncQueue (offlineDb w))
    ++ [SyncQueueItem.with_id (Table.nextKey (syncQueue (offlineDb w))) item].
Proof. intros Hk. cbn. by apply (toArray_add SyncQueueItem.id). Qed.

Lemma enqueue_count item w :
  keyed SyncQueueItem.id (syncQueue (offlineDb w)) →
  Table.count (syncQueue (offlineDb (enqueue item w)))
  = S (Table.count (syncQueue (offlineDb w))).
Proof. intros Hk. cbn. by apply (count_add SyncQueueItem.id). Qed.

Lemma enqueue_keyed item w :
  keyed SyncQueueItem.id (syncQueue (offlineDb w)) →
  keyed SyncQueueItem.id (syncQueue (offlineDb (enqueue item w))).
Proof. intros Hk. cbn. by apply keyed_add. Qed.

Lemma updateTimeEntry_healthy w id updates :
  healthy w →
  updateTimeEntry id updates w
  = (Ok tt,
     enqueue (queued (updated id updates w) Action.update (JS.toString id)
                (Changes (stamped updates (Date_now (host w) (clockReads w)))))
             (updated id updates w)).
Proof.
  intros H. unfold updateTimeEntry, bind, new_Date.
  rewrite store_op_healthy by (eapply healthy_host; [|exact H]; done).
  cbn [fst snd].
  rewrite addToSyncQueue_healthy by (eapply healthy_host; [|exact H]; done).
  done.
Qed.

Lemma deleteTimeEntry_healthy w id :
  healthy w →
  deleteTimeEntry id w
  = (Ok tt,
     enqueue (queued (deleted id w) Action.delete (JS.toString id) (IdOnly id))
             (deleted id w)).
Proof.
  intros H. unfold deleteTimeEntry, bind.
  rewrite store_op_healthy by done. cbn [fst snd].
  rewrite addToSyncQueue_healthy by (eapply healthy_host; [|exact H]; done).
  done.
Qed.

Lemma addTimeEntry_healthy w entry :
  healthy w →
  let id := Table.nextKey (timeEntries (offlineDb w)) in
  addTimeEntry entry w
  = (Ok id,
     enqueue (queued (added entry w) Action.create (JS.toString id)
                (FullEntry (OfflineTimeEntry.with_id id
                   (fresh_entry entry (Date_now (host w) (clockReads w))))))
             (added entry w)).
Proof.
  intros H id. unfold addTimeEntry, bind, new_Date.
  rewrite store_op_healthy by (eapply healthy_host; [|exact H]; done).
  cbn [fst snd].
  rewrite addToSyncQueue_healthy by (eapply healthy_host; [|exact H]; done).
  done.
Qed.

Lemma keyed_empty_db : db_ok empty_db.
Proof. repeat split; cbn; try done; intros k v; by rewrite lookup_empty. Qed.

Lemma healthy_quiet d b c s r l :
  healthy (mkWorld quiet_host d b c s r l).
Proof. by intros n. Qed.

(** ** Mutations and their queue entries *)

Lemma run_mutation_healthy m w :
  healthy w →
  keyed SyncQueueItem.id (syncQueue (offlineDb w)) →
  ∃ id item w',
    run_mutation m w = (Ok id, w')
    ∧ host w' = host w
    ∧ keyed SyncQueueItem.id (syncQueue (offlineDb w'))
    ∧ Table.toArray (syncQueue (offlineDb w'))
      = Table.toArray (syncQueue (offlineDb w)) ++ [item]
    ∧ Table.count (syncQueue (offlineDb w'))
      = S (Table.count (syncQueue (offlineDb w)))
    ∧ describes m id item.
Proof.
  intros H Hk. destruct m as [entry|id updates|id]; cbn [run_mutation].
  - pose proof (addTimeEntry_healthy w entry H) as E. cbn zeta in E.
    eexists _, _, _. split; [exact E|].
    split; [done|].
    split; [exact (enqueue_keyed _ (added entry w) Hk)|].
    split; [exact (enqueue_toArray _ (added entry w) Hk)|].
    split; [exact (enqueue_count _ (added entry w) Hk)|].
    by repeat split.
  - unfold bind. rewrite updateTimeEntry_healthy by done.
    eexists _, _, _. split; [reflexivity|].
    split; [done|].
    split; [exact (enqueue_keyed _ (updated id updates w) Hk)|].
    split; [exact (enqueue_toArray _ (updated id updates w) Hk)|].
    split; [exact (enqueue_count _ (updated id updates w) Hk)|].
    by repeat split.
  - unfold bind. rewrite deleteTimeEntry_healthy by done.
    eexists _, _, _. split; [reflexivity|].
    split; [done|].
    split; [exact (enqueue_keyed _ (deleted id w) Hk)|].
    split; [exact (enqueue_toArray _ (deleted id w) Hk)|].
    split; [exact (enqueue_count _ (deleted id w) Hk)|].
    by repeat split.
Qed.

(** The identifier that [addTimeEntry] returns is the key under which the
    new record is stored. *)
Lemma addTimeEntry_stores entry w id w' :
  healthy w →
  addTimeEntry entry w = (Ok id, w') →
  id = Table.nextKey (timeEntries (offlineDb w))
  ∧ Table.get id (timeEntries (offlineDb w'))
    = Some (OfflineTimeEntry.with_id id
              (fresh_entry entry (Date_now (host w) (clockReads w)))).
Proof.
  intros H E. pose proof (addTimeEntry_healthy w entry H) as E'.
  cbn zeta in E'. rewrite E in E'. injection E' as -> ->.
  split; [done|]. unfold Table.get. cbn. apply lookup_insert_eq.
Qed.

(** C1. On a host whose storage does not fail, every sequence of
    [addTimeEntry], [updateTimeEntry] and [deleteTimeEntry] calls completes
    and appends to the sync queue exactly one entry per call, in call
    order: the entry has [retryCount = 0], table ["timeEntry"], the action
    of the call and as [recordId] the string form of the record's local
    identifier.  The number of queue entries grows by the number of
    calls. *)
Theorem one_queue_entry_per_mutation (ms : list Mutation) (w : World) :
  healthy w →
  keyed SyncQueueItem.id (syncQueue (offlineDb w)) →
  ∃ ids items w',
    run_mutations ms w = (Ok ids, w')
    ∧ Table.toArray (syncQueue (offlineDb w'))
      = Table.toArray (syncQueue (offlineDb w)) ++ items
    ∧ Forall3 describes ms ids items
    ∧ Table.count (syncQueue (offlineDb w'))
      = (Table.count (syncQueue (offlineDb w)) + length ms)%nat.
Proof.
  revert w. induction ms as [|m ms IH]; intros w H Hk.
  - exists [], [], w. cbn. rewrite app_nil_r. repeat split; [constructor|lia].
  - destruct (run_mutation_healthy m w H Hk)
      as (id & item & w1 & E1 & Hh & Hk1 & Ha1 & Hc1 & Hd).
    destruct (IH w1 (healthy_host _ _ Hh H) Hk1)
      as (ids & items & w2 & E2 & Ha2 & Hf & Hc2).
    exists (id :: ids), (item :: items), w2.
    cbn [run_mutations]. unfold bind at 1. rewrite E1.
    unfold bind at 1. rewrite E2. cbn.
    split; [done|]. split; [by rewrite Ha2, Ha1, <- app_assoc|].
    split; [by constructor|lia].
Qed.

Lemma one_queue_entry_per_mutation_witness :
  ∃ ids items w',
    run_mutations [Add sample_new_entry; Update 1 no_changes; Delete 1]
                  (fresh_world quiet_host) = (Ok ids, w')
    ∧ Table.toArray (syncQueue (offlineDb w'))
      = Table.toArray (syncQueue (offlineDb (fresh_world quiet_host)))
        ++ items
    ∧ Forall3 describes
        [Add sample_new_entry; Update 1 no_changes; Delete 1] ids items
    ∧ Table.count (syncQueue (offlineDb w'))
      = (Table.count (syncQueue (offlineDb (fresh_world quiet_host)))
         + 3)%nat.
Proof.
  apply (one_queue_entry_per_mutation
           [Add sample_new_entry; Update 1 no_changes; Delete 1]
           (fresh_world quiet_host)).
  - intros n. reflexivity.
  - split; cbn; [lia|]. intros k v Hkv. vm_compute in Hkv. discriminate.
Defined.

(** The queue after the three sample mutations, computed. *)
Example three_mutations_queue :
  match run_mutations [Add sample_new_entry; Update 1 no_changes; Delete 1]
                      (fresh_world quiet_host) with
  | (Ok ids, w') =>
      ids = [1; 1; 1]
      ∧ map (λ i, (SyncQueueItem.id i, SyncQueueItem.action i,
                   SyncQueueItem.recordId i, SyncQueueItem.retryCount i))
            (Table.toArray (syncQueue (offlineDb w')))
        = [(Some 1, Action.create, "1"%string, 0);
           (Some 2, Action.update, "1"%string, 0);
           (Some 3, Action.delete, "1"%string, 0)]
  | _ => False
  end.
Proof. vm_compute. done. Qed.

(** C7. [updateTimeEntry] on an identifier that has no record does not
    throw (the storage engine being healthy) and leaves the [timeEntries]
    table as it was, yet appends one ["update"] queue entry whose
    [recordId] is the string form of the identifier. *)
Theorem updateTimeEntry_missing_id (id : Z) (updates : PartialEntry.t)
    (w : World) :
  healthy w →
  keyed SyncQueueItem.id (syncQueue (offlineDb w)) →
  Table.get id (timeEntries (offlineDb w)) = None →
  ∃ item w',
    updateTimeEntry id updates w = (Ok tt, w')
    ∧ timeEntries (offlineDb w') = timeEntries (offlineDb w)
    ∧ Table.toArray (syncQueue (offlineDb w'))
      = Table.toArray (syncQueue (offlineDb w)) ++ [item]
    ∧ Table.count (syncQueue (offlineDb w'))
      = S (Table.count (syncQueue (offlineDb w)))
    ∧ SyncQueueItem.action item = Action.update
    ∧ SyncQueueItem.table item = TableName.timeEntry
    ∧ SyncQueueItem.recordId item = JS.toString id
    ∧ SyncQueueItem.retryCount item = 0.
Proof.
  intros H Hk Hnone. rewrite updateTimeEntry_healthy by done.
  eexists _, _. split; [reflexivity|].
  split.
  { cbn. by apply update_absent. }
  split; [exact (enqueue_toArray _ (updated id updates w) Hk)|].
  split; [exact (enqueue_count _ (updated id updates w) Hk)|].
  by repeat split.
Qed.

Lemma updateTimeEntry_missing_id_witness :
  ∃ item w',
    updateTimeEntry 42 no_changes (fresh_world quiet_host) = (Ok tt, w')
    ∧ timeEntries (offlineDb w')
      = timeEntries (offlineDb (fresh_world quiet_host))
    ∧ Table.toArray (syncQueue (offlineDb w'))
      = Table.toArray (syncQueue (offlineDb (fresh_world quiet_host)))
        ++ [item]
    ∧ Table.count (syncQueue (offlineDb w'))
      = S (Table.count (syncQueue (offlineDb (fresh_world quiet_host))))
    ∧ SyncQueueItem.action item = Action.update
    ∧ SyncQueueItem.table item = TableName.timeEntry
    ∧ SyncQueueItem.recordId item = JS.toString 42
    ∧ SyncQueueItem.retryCount item = 0.
Proof.
  apply (updateTimeEntry_missing_id 42 no_changes (fresh_world quiet_host)).
  - intros n. reflexivity.
  - split; cbn; [lia|]. intros k v Hkv. vm_compute in Hkv. discriminate.
  - reflexivity.
Defined.

(** ** Aggregation *)

Lemma elem_of_uniqueStudies entries s :
  s ∈ uniqueStudies entries ↔ lowered_participant entries s.
Proof.
  unfold uniqueStudies, lowered_participant.
  rewrite elem_of_list_to_set, list_elem_of_In, in_flat_map.
  split.
  - intros (e & He & Hs). apply in_map_iff in Hs as (p & <- & Hp).
    exists e, p. by rewrite !list_elem_of_In.
  - intros (e & p & He & Hp & ->). exists e.
    rewrite <- list_elem_of_In. split; [done|].
    apply in_map. by rewrite <- list_elem_of_In.
Qed.

Lemma size_uniqueStudies entries (names : list string) :
  NoDup names →
  (∀ s, s ∈ names ↔ lowered_participant entries s) →
  size (uniqueStudies entries) = length names.
Proof.
  intros Hnd Hnames. unfold size, set_size. cbn.
  apply Permutation_length, NoDup_Permutation; [apply NoDup_elements|done|].
  intros s. rewrite elem_of_elements, elem_of_uniqueStudies. by rewrite Hnames.
Qed.

Lemma existsb_participated entries :
  existsb OfflineTimeEntry.participated entries = true
  ↔ ∃ entry, entry ∈ entries ∧ OfflineTimeEntry.participated entry = true.
Proof.
  rewrite existsb_exists. by setoid_rewrite list_elem_of_In.
Qed.

Lemma elem_of_where_userId userId p tb e :
  keyed OfflineTimeEntry.id tb →
  e ∈ where_userId userId p tb
  ↔ (∃ k, Table.get k tb = Some e)
    ∧ OfflineTimeEntry.userId e = userId ∧ p e = true.
Proof.
  intros Hk. unfold where_userId.
  rewrite list_elem_of_filter, (elem_of_toArray OfflineTimeEntry.id) by done.
  unfold Table.get. tauto.
Qed.

(** ** The drain pass *)

Lemma markSyncItemCompleted_healthy k w :
  healthy w → markSyncItemCompleted k w = (Ok tt, completed k w).
Proof. intros H. unfold markSyncItemCompleted. by rewrite store_op_healthy. Qed.

Lemma incrementSyncRetry_healthy k w :
  healthy w → incrementSyncRetry k w = (Ok tt, retried k w).
Proof.
  intros H. unfold incrementSyncRetry, bind, retried.
  rewrite store_op_healthy by done. cbn [fst snd].
  destruct (Table.get k (syncQueue (offlineDb w))) as [stored|]; [|done].
  rewrite store_op_healthy by (eapply healthy_host; [|exact H]; done).
  done.
Qed.

(** A replay makes at most one gateway call and touches nothing else. *)
Lemma syncItem_effect item w :
  ∃ r w', syncItem item w = (r, w')
          ∧ (w' = w ∨ ∃ req, w' = log_request req w).
Proof.
  unfold syncItem, syncTimeEntry.
  destruct (SyncQueueItem.table item); [|eexists _, _; split; [done|by left]].
  destruct (SyncQueueItem.action item).
  - destruct (negb _); [eexists _, _; split; [done|by left]|].
    unfold createTimeEntryOnServer, bind, fetch.
    destruct (fetch_result _ _) as [|[] []]; cbn;
      eexists _, _; (split; [done|right; eauto]).
  - unfold updateTimeEntryOnServer, bind, fetch.
    destruct (fetch_result _ _) as [|[] []]; cbn;
      eexists _, _; (split; [done|right; eauto]).
  - unfold deleteTimeEntryOnServer, bind, fetch.
    destruct (fetch_result _ _) as [|[] []]; cbn;
      eexists _, _; (split; [done|right; eauto]).
Qed.

Lemma syncItem_frame item w r w' :
  syncItem item w = (r, w') →
  host w' = host w ∧ offlineDb w' = offlineDb w
  ∧ syncInProgress w' = syncInProgress w ∧ storeOps w' = storeOps w
  ∧ delays w' = delays w
  ∧ ∃ reqs, requests w' = requests w ++ reqs ∧ (length reqs ≤ 1)%nat.
Proof.
  intros E. destruct (syncItem_effect item w) as (r0 & w0 & E0 & Hw).
  rewrite E in E0. injection E0 as <- <-.
  destruct Hw as [->|[req ->]]; repeat split; try done.
  - exists []. rewrite app_nil_r. split; [done|cbn; lia].
  - exists [req]. split; [done|cbn; lia].
Qed.

Lemma sync_one_exhausted item k w :
  healthy w → SyncQueueItem.id item = Some k → exhausted item = true →
  sync_one item w = (Ok tt, completed k w).
Proof.
  intros H Hid Hex. unfold sync_one. unfold exhausted in Hex. rewrite Hex, Hid.
  cbn. by apply markSyncItemCompleted_healthy.
Qed.

Lemma sync_one_success item k w w1 :
  healthy w → SyncQueueItem.id item = Some k → exhausted item = false →
  syncItem item w = (Ok tt, w1) →
  sync_one item w = (Ok tt, completed k w1).
Proof.
  intros H Hid Hex E. unfold sync_one. unfold exhausted in Hex.
  rewrite Hex, Hid. unfold try_catch, bind. rewrite E. cbn.
  rewrite markSyncItemCompleted_healthy; [done|].
  eapply healthy_host; [|exact H]. by apply syncItem_frame in E as (-> & _).
Qed.

Lemma sync_one_failure item k w e w1 :
  healthy w → SyncQueueItem.id item = Some k → exhausted item = false →
  syncItem item w = (Throw e, w1) →
  sync_one item w
  = (Ok tt, log_delay (retryDelay * (SyncQueueItem.retryCount item + 1))
                      (retried k w1)).
Proof.
  intros H Hid Hex E. unfold sync_one. unfold exhausted in Hex.
  rewrite Hex, Hid. unfold try_catch, bind. rewrite E. cbn.
  rewrite incrementSyncRetry_healthy; [done|].
  eapply healthy_host; [|exact H]. by apply syncItem_frame in E as (-> & _).
Qed.

Lemma get_completed k k' w :
  Table.get k' (syncQueue (offlineDb (completed k w)))
  = if decide (k = k') then None
    else Table.get k' (syncQueue (offlineDb w)).
Proof. unfold Table.get. cbn. apply lookup_delete. Qed.

Lemma get_retried k k' w :
  Table.get k' (syncQueue (offlineDb (retried k w)))
  = if decide (k = k')
    then (λ stored, SyncQueueItem.with_retryCount
                      (SyncQueueItem.retryCount stored + 1) stored)
         <$> Table.get k (syncQueue (offlineDb w))
    else Table.get k' (syncQueue (offlineDb w)).
Proof.
  unfold retried, Table.get.
  destruct (Table.rows (syncQueue (offlineDb w)) !! k) as [stored|] eqn:E;
    cbn.
  - rewrite lookup_alter. case_decide; [subst; by rewrite E|done].
  - case_decide; [by subst|done].
Qed.

Lemma retried_frame k w :
  host (retried k w) = host w
  ∧ syncInProgress (retried k w) = syncInProgress w
  ∧ timeEntries (offlineDb (retried k w)) = timeEntries (offlineDb w)
  ∧ users (offlineDb (retried k w)) = users (offlineDb w)
  ∧ requests (retried k w) = requests w
  ∧ delays (retried k w) = delays w.
Proof.
  unfold retried. by destruct (Table.get k (syncQueue (offlineDb w))).
Qed.

Lemma completed_frame k w :
  host (completed k w) = host w
  ∧ syncInProgress (completed k w) = syncInProgress w
  ∧ timeEntries (offlineDb (completed k w)) = timeEntries (offlineDb w)
  ∧ users (offlineDb (completed k w)) = users (offlineDb w)
  ∧ requests (completed k w) = requests w
  ∧ delays (completed k w) = delays w.
Proof. done. Qed.

(** What one loop iteration may change, on a healthy host. *)
Lemma sync_one_effect item k w :
  healthy w → SyncQueueItem.id item = Some k →
  ∃ w', sync_one item w = (Ok tt, w')
    ∧ host w' = host w
    ∧ syncInProgress w' = syncInProgress w
    ∧ timeEntries (offlineDb w') = timeEntries (offlineDb w)
    ∧ users (offlineDb w') = users (offlineDb w)
    ∧ (∀ k', k' ≠ k → Table.get k' (syncQueue (offlineDb w'))
                      = Table.get k' (syncQueue (offlineDb w)))
    ∧ (∀ k', Table.get k' (syncQueue (offlineDb w)) = None →
             Table.get k' (syncQueue (offlineDb w')) = None)
    ∧ (exhausted item = true →
       Table.get k (syncQueue (offlineDb w')) = None)
    ∧ (∃ reqs, requests w' = requests w ++ reqs
               ∧ (length reqs ≤ if exhausted item then 0 else 1)%nat)
    ∧ (∃ ds, delays w' = delays w ++ ds)
    ∧ (∀ k' stored', Table.get k' (syncQueue (offlineDb w')) = Some stored' →
         ∃ stored, Table.get k' (syncQueue (offlineDb w)) = Some stored
                   ∧ SyncQueueItem.retryCount stored
                     ≤ SyncQueueItem.retryCount stored').
Proof.
  intros H Hid. destruct (exhausted item) eqn:Hex.
  - rewrite (sync_one_exhausted item k w H Hid Hex).
    eexists. split; [done|]. repeat split; try done.
    + intros k' Hne. rewrite get_completed. by case_decide.
    + intros k' Hnone. rewrite get_completed. by case_decide.
    + intros _. rewrite get_completed. by case_decide.
    + exists []. by rewrite app_nil_r.
    + exists []. by rewrite app_nil_r.
    + intros k' stored'. rewrite get_completed. case_decide; [done|].
      intros ->. eexists. split; [done|lia].
  - destruct (syncItem item w) as [[[]|e] w1] eqn:E;
      pose proof (syncItem_frame _ _ _ _ E)
        as (Hh & Hdb & Hf & _ & Hd & reqs & Hr & Hlen).
    + rewrite (sync_one_success item k w w1 H Hid Hex E).
      destruct (completed_frame k w1) as (Hh' & Hf' & Ht' & Hu' & Hr' & Hd').
      eexists. split; [done|].
      rewrite Hh', Hf', Ht', Hu', Hr', Hd', Hdb.
      repeat split; try done.
      * intros k' Hne. rewrite get_completed. case_decide; [done|].
        by rewrite Hdb.
      * intros k' Hnone. rewrite get_completed. case_decide; [done|].
        by rewrite Hdb.
      * eauto.
      * exists []. by rewrite app_nil_r, Hd.
      * intros k' stored'. rewrite get_completed, Hdb. case_decide; [done|].
        intros ->. eexists. split; [done|lia].
    + rewrite (sync_one_failure item k w e w1 H Hid Hex E).
      destruct (retried_frame k w1) as (Hh' & Hf' & Ht' & Hu' & Hr' & Hd').
      eexists. split; [done|]. cbn [host syncInProgress offlineDb requests
        delays log_delay].
      rewrite Hh', Hf', Ht', Hu', Hr', Hdb.
      repeat split; try done.
      * intros k' Hne. rewrite get_retried. case_decide; [done|].
        by rewrite Hdb.
      * intros k' Hnone. rewrite get_retried, Hdb.
        case_decide; [subst; by rewrite Hnone|done].
      * eauto.
      * rewrite Hd', Hd. eauto.
      * intros k' stored'. rewrite get_retried, Hdb. case_decide.
        -- subst k'.
           destruct (Table.get k (syncQueue (offlineDb w))) as [stored|];
             [|done].
           cbn. intros [= <-]. eexists. split; [done|cbn; lia].
        -- intros ->. eexists. split; [done|lia].
Qed.

Lemma for_of_cons {A} (x : A) xs body w :
  for_of (x :: xs) body w
  = match body x w with
    | (Ok _, w') => for_of xs body w'
    | (Throw e, w') => (Throw e, w')
    end.
Proof. done. Qed.

(** What the loop may change, on a healthy host. *)
Lemma sync_loop_effect items w :
  healthy w →
  Forall (λ item, is_Some (SyncQueueItem.id item)) items →
  ∃ w', for_of items sync_one w = (Ok tt, w')
    ∧ host w' = host w
    ∧ syncInProgress w' = syncInProgress w
    ∧ timeEntries (offlineDb w') = timeEntries (offlineDb w)
    ∧ users (offlineDb w') = users (offlineDb w)
    ∧ (∀ k', Some k' ∉ map SyncQueueItem.id items →
             Table.get k' (syncQueue (offlineDb w'))
             = Table.get k' (syncQueue (offlineDb w)))
    ∧ (∀ k', Table.get k' (syncQueue (offlineDb w)) = None →
             Table.get k' (syncQueue (offlineDb w')) = None)
    ∧ (∀ item k, item ∈ items → SyncQueueItem.id item = Some k →
                 exhausted item = true →
                 Table.get k (syncQueue (offlineDb w')) = None)
    ∧ (∃ reqs, requests w' = requests w ++ reqs
               ∧ (length reqs
                  ≤ length (filter (λ i, exhausted i = false) items))%nat)
    ∧ (∃ ds, delays w' = delays w ++ ds)
    ∧ (∀ k' stored', Table.get k' (syncQueue (offlineDb w')) = Some stored' →
         ∃ stored, Table.get k' (syncQueue (offlineDb w)) = Some stored
                   ∧ SyncQueueItem.retryCount stored
                     ≤ SyncQueueItem.retryCount stored').
Proof.
  intros H Hids. revert w H.
  induction Hids as [|item items [k Hid] Hids IH]; intros w H.
  - exists w. cbn. repeat split; try done.
    + intros item k Hin. by apply elem_of_nil in Hin.
    + exists []. by rewrite app_nil_r.
    + exists []. by rewrite app_nil_r.
    + intros k' stored' ->. eexists. split; [done|lia].
  - destruct (sync_one_effect item k w H Hid)
      as (w1 & E1 & Hh1 & Hf1 & Ht1 & Hu1 & Hne1 & Hno1 & Hex1
          & (reqs1 & Hr1 & Hl1) & (ds1 & Hd1) & Hm1).
    destruct (IH w1 (healthy_host _ _ Hh1 H))
      as (w2 & E2 & Hh2 & Hf2 & Ht2 & Hu2 & Hne2 & Hno2 & Hex2
          & (reqs2 & Hr2 & Hl2) & (ds2 & Hd2) & Hm2).
    exists w2. rewrite for_of_cons, E1. split; [done|].
    split; [congruence|]. split; [congruence|]. split; [congruence|].
    split; [congruence|].
    split.
    { intros k' Hk'. cbn in Hk'. rewrite not_elem_of_cons in Hk'.
      destruct Hk' as [Hk1 Hk2]. rewrite Hne2 by done.
      apply Hne1. congruence. }
    split; [by auto|].
    split.
    { intros item' k' Hin Hid' Hex'. apply elem_of_cons in Hin as [->|Hin].
      - apply Hno2. rewrite Hid in Hid'. injection Hid' as <-. by apply Hex1.
      - by eapply Hex2. }
    split.
    { exists (reqs1 ++ reqs2). rewrite Hr2, Hr1, <- app_assoc.
      split; [done|]. rewrite length_app, filter_cons.
      destruct (exhausted item); case_decide; try done; cbn in *; lia. }
    split; [exists (ds1 ++ ds2); by rewrite Hd2, Hd1, <- app_assoc|].
    intros k' stored' Hget. apply Hm2 in Hget as (mid & Hget & Hle2).
    apply Hm1 in Hget as (stored & Hget & Hle1).
    exists stored. split; [done|lia].
Qed.

(** *** The snapshot read at the start of a pass *)

Lemma insert_by_timestamp_perm x l : insert_by_timestamp x l ≡ₚ x :: l.
Proof.
  induction l as [|y l IH]; cbn; [done|].
  destruct (_ <=? _); [done|]. rewrite IH. apply Permutation_swap.
Qed.

Lemma orderBy_timestamp_perm tb : orderBy_timestamp tb ≡ₚ Table.toArray tb.
Proof.
  unfold orderBy_timestamp.
  induction (Table.toArray tb) as [|x l IH]; cbn; [done|].
  by rewrite insert_by_timestamp_perm, IH.
Qed.

Lemma NoDup_ids_omap (m : gmap Z SyncQueueItem.t) (ks : list Z) :
  (∀ k v, m !! k = Some v → SyncQueueItem.id v = Some k) →
  NoDup ks →
  NoDup (map SyncQueueItem.id (omap (λ k, m !! k) ks)).
Proof.
  intros Hid Hnd. induction Hnd as [|k ks Hnotin Hnd IH]; cbn; [constructor|].
  destruct (m !! k) as [v|] eqn:E; [|done].
  cbn. constructor; [|done].
  rewrite (Hid _ _ E). intros Hin. apply list_elem_of_fmap in Hin
    as (v' & Hv' & Hin). apply list_elem_of_omap in Hin as (k' & Hk' & E').
  apply Hid in E'. rewrite E' in Hv'. injection Hv' as ->. done.
Qed.

Lemma snapshot_ok w :
  keyed SyncQueueItem.id (syncQueue (offlineDb w)) →
  pending_ok (orderBy_timestamp (syncQueue (offlineDb w))) w.
Proof.
  intros Hk. pose proof Hk as [_ Hrows]. split.
  - rewrite orderBy_timestamp_perm. apply NoDup_ids_omap; [|apply NoDup_seqZ].
    intros k v Hv. exact (proj2 (Hrows _ _ Hv)).
  - intros item Hin. rewrite orderBy_timestamp_perm in Hin.
    apply (elem_of_toArray SyncQueueItem.id) in Hin as [k Hv]; [|done].
    exists k. split; [|done]. exact (proj2 (Hrows _ _ Hv)).
Qed.

Lemma pending_ok_ids items w :
  pending_ok items w →
  Forall (λ item, is_Some (SyncQueueItem.id item)) items.
Proof.
  intros [_ Hst]. apply Forall_forall. intros item Hin.
  destruct (Hst item Hin) as (k & -> & _). eauto.
Qed.

Lemma getPendingSyncItems_healthy w :
  healthy w →
  getPendingSyncItems w
  = (Ok (orderBy_timestamp (syncQueue (offlineDb w))),
     set_db (offlineDb w) (tick_store w)).
Proof. intros H. unfold getPendingSyncItems. by rewrite store_op_healthy. Qed.

(** The whole pass on a healthy host. *)
Lemma syncPendingData_healthy w :
  healthy w →
  keyed SyncQueueItem.id (syncQueue (offlineDb w)) →
  syncInProgress w = false →
  ∃ w', syncPendingData w = (Ok true, w')
    ∧ host w' = host w
    ∧ syncInProgress w' = false
    ∧ timeEntries (offlineDb w') = timeEntries (offlineDb w)
    ∧ users (offlineDb w') = users (offlineDb w)
    ∧ (∀ k, Table.get k (syncQueue (offlineDb w)) = None →
            Table.get k (syncQueue (offlineDb w')) = None)
    ∧ (∀ item k, Table.get k (syncQueue (offlineDb w)) = Some item →
                 exhausted item = true →
                 Table.get k (syncQueue (offlineDb w')) = None)
    ∧ (∃ reqs, requests w' = requests w ++ reqs
               ∧ (length reqs
                  ≤ length (filter (λ i, exhausted i = false)
                              (Table.toArray (syncQueue (offlineDb w)))))%nat).
Proof.
  intros H Hk Hidle.
  set (w0 := set_db (offlineDb w) (tick_store (set_syncInProgress true w))).
  assert (healthy w0) as H0 by (eapply healthy_host; [|exact H]; done).
  pose proof (snapshot_ok w Hk) as Hok.
  destruct (sync_loop_effect (orderBy_timestamp (syncQueue (offlineDb w)))
              w0 H0 (pending_ok_ids _ _ Hok))
    as (w1 & E1 & Hh1 & Hf1 & Ht1 & Hu1 & Hne1 & Hno1 & Hex1
        & (reqs & Hr & Hl) & _).
  exists (set_syncInProgress false w1).
  unfold syncPendingData. rewrite Hidle.
  unfold finally, try_catch, sync_pass, bind.
  rewrite getPendingSyncItems_healthy
    by (eapply healthy_host; [|exact H]; done).
  cbn [offlineDb set_syncInProgress]. fold w0. rewrite E1. cbn [ret].
  split; [done|]. split; [done|]. split; [done|]. split; [done|].
  split; [done|]. split; [exact Hno1|].
  split.
  - intros item k Hget Hex. destruct Hok as [_ Hst].
    assert (item ∈ orderBy_timestamp (syncQueue (offlineDb w))) as Hin.
    { rewrite orderBy_timestamp_perm.
      apply (elem_of_toArray SyncQueueItem.id); [done|]. by exists k. }
    destruct (Hst item Hin) as (k' & Hid & Hget').
    assert (k' = k) as ->.
    { destruct Hk as [_ Hrows]. apply Hrows in Hget as [_ Hid']. congruence. }
    by apply (Hex1 item k).
  - exists reqs. split; [done|].
    etrans; [exact Hl|]. apply Nat.eq_le_incl, Permutation_length.
    apply filter_Permutation, orderBy_timestamp_perm.
Qed.

Lemma keyed_sample_queue : keyed SyncQueueItem.id sample_queue.
Proof.
  unfold sample_queue. cbn zeta.
  repeat (apply keyed_add; [done|]). apply keyed_empty.
Qed.

(** C2. In a drain pass on a healthy host, every queue entry whose
    [retryCount] has reached [maxRetries] (3) is deleted from the sync
    queue; the loop iteration that drops it makes no gateway call (and no
    pause) and leaves the [timeEntries] table as it is; the whole pass
    leaves [timeEntries] unchanged and makes at most one gateway call per
    entry that is not exhausted. *)
Theorem exhausted_entries_dropped (w : World) :
  healthy w →
  keyed SyncQueueItem.id (syncQueue (offlineDb w)) →
  syncInProgress w = false →
  maxRetries = 3
  ∧ (∃ w', syncPendingData w = (Ok true, w')
      ∧ timeEntries (offlineDb w') = timeEntries (offlineDb w)
      ∧ (∀ item k, Table.get k (syncQueue (offlineDb w)) = Some item →
                   maxRetries ≤ SyncQueueItem.retryCount item →
                   Table.get k (syncQueue (offlineDb w')) = None)
      ∧ (∃ reqs, requests w' = requests w ++ reqs
           ∧ (length reqs
              ≤ length (filter (λ i, (SyncQueueItem.retryCount i < maxRetries)%Z)
                          (Table.toArray (syncQueue (offlineDb w)))))%nat))
  ∧ (∀ item k w1,
       healthy w1 → SyncQueueItem.id item = Some k →
       maxRetries ≤ SyncQueueItem.retryCount item →
       ∃ w2, sync_one item w1 = (Ok tt, w2)
         ∧ requests w2 = requests w1
         ∧ delays w2 = delays w1
         ∧ timeEntries (offlineDb w2) = timeEntries (offlineDb w1)
         ∧ Table.get k (syncQueue (offlineDb w2)) = None).
Proof.
  intros H Hk Hidle. split; [done|]. split.
  - destruct (syncPendingData_healthy w H Hk Hidle)
      as (w' & E & _ & _ & Ht & _ & _ & Hex & (reqs & Hr & Hl)).
    exists w'. split; [done|]. split; [done|]. split.
    + intros item k Hget Hrc. apply (Hex item k Hget).
      unfold exhausted. by apply Z.leb_le.
    + exists reqs. split; [done|]. etrans; [exact Hl|].
      apply Nat.eq_le_incl. f_equal. apply list_filter_iff.
      intros i. unfold exhausted. rewrite Z.leb_gt. done.
  - intros item k w1 H1 Hid Hrc.
    assert (exhausted item = true) as Hex by (unfold exhausted; by apply Z.leb_le).
    exists (completed k w1). rewrite (sync_one_exhausted item k w1 H1 Hid Hex).
    repeat split. rewrite get_completed. by case_decide.
Qed.

Lemma exhausted_entries_dropped_witness :
  maxRetries = 3
  ∧ (∃ w', syncPendingData drain_world = (Ok true, w')
      ∧ timeEntries (offlineDb w') = timeEntries (offlineDb drain_world)
      ∧ (∀ item k,
           Table.get k (syncQueue (offlineDb drain_world)) = Some item →
           maxRetries ≤ SyncQueueItem.retryCount item →
           Table.get k (syncQueue (offlineDb w')) = None)
      ∧ (∃ reqs, requests w' = requests drain_world ++ reqs
           ∧ (length reqs
              ≤ length (filter (λ i, (SyncQueueItem.retryCount i < maxRetries)%Z)
                          (Table.toArray
                             (syncQueue (offlineDb drain_world)))))%nat))
  ∧ (∀ item k w1,
       healthy w1 → SyncQueueItem.id item = Some k →
       maxRetries ≤ SyncQueueItem.retryCount item →
       ∃ w2, sync_one item w1 = (Ok tt, w2)
         ∧ requests w2 = requests w1
         ∧ delays w2 = delays w1
         ∧ timeEntries (offlineDb w2) = timeEntries (offlineDb w1)
         ∧ Table.get k (syncQueue (offlineDb w2)) = None).
Proof.
  apply (exhausted_entries_dropped drain_world).
  - intros n. reflexivity.
  - exact keyed_sample_queue.
  - reflexivity.
Defined.

(** The sample pass, computed: the exhausted update of record 7 is dropped
    without a call; the two other items are replayed once each, fail, and
    stay with their counters raised. *)
Example drain_world_pass :
  match syncPendingData drain_world with
  | (Ok true, w') =>
      map (λ i, (SyncQueueItem.id i, SyncQueueItem.retryCount i))
          (Table.toArray (syncQueue (offlineDb w')))
      = [(Some 2, 1); (Some 3, 3)]
      ∧ map (λ r, match r with
                  | POST_time_entry _ => "POST"%string
                  | PUT_time_entry rid _ => ("PUT " +:+ rid)%string
                  | DELETE_time_entry rid => ("DELETE " +:+ rid)%string
                  | GET_monthly _ _ => "GET"%string
                  end) (requests w')
        = ["DELETE 8"%string; "POST"%string]
      ∧ delays w' = [1000; 3000]
      ∧ syncInProgress w' = false
  | _ => False
  end.
Proof. vm_compute. done. Qed.

(** *** A failed replay *)

Lemma pending_ok_step item rest w w' :
  healthy w → pending_ok (item :: rest) w →
  sync_one item w = (Ok tt, w') →
  pending_ok rest w'.
Proof.
  intros H [Hnd Hst] E. cbn in Hnd. apply NoDup_cons in Hnd as [Hnotin Hnd].
  destruct (Hst item) as (k & Hid & _); [by left|].
  destruct (sync_one_effect item k w H Hid) as (w1 & E1 & _ & _ & _ & _ & Hne & _).
  rewrite E in E1. injection E1 as <-.
  split; [done|]. intros item' Hin.
  destruct (Hst item') as (k' & Hid' & Hget'); [by right|].
  exists k'. split; [done|]. rewrite Hne; [done|].
  intros ->. apply Hnotin. rewrite Hid, <- Hid'.
  apply list_elem_of_fmap. eauto.
Qed.

Lemma pending_ok_loop pre items w w' :
  healthy w → pending_ok (pre ++ items) w →
  for_of pre sync_one w = (Ok tt, w') →
  healthy w' ∧ pending_ok items w'.
Proof.
  revert w. induction pre as [|item pre IH]; intros w H Hok E.
  - cbn in E. injection E as <-. done.
  - rewrite for_of_cons in E. cbn in Hok.
    destruct (proj2 Hok item) as (k & Hid & _); [by left|].
    destruct (sync_one_effect item k w H Hid) as (w1 & E1 & Hh & _).
    rewrite E1 in E. apply (IH w1); [by eapply healthy_host|  |done].
    by eapply pending_ok_step.
Qed.

Lemma for_of_app {A} (xs ys : list A) body w w' :
  for_of xs body w = (Ok tt, w') →
  for_of (xs ++ ys) body w = for_of ys body w'.
Proof.
  revert w. induction xs as [|x xs IH]; intros w E.
  - cbn in E. by injection E as <-.
  - cbn [app]. rewrite for_of_cons in *.
    destruct (body x w) as [[[]|e] w1]; [by apply IH|done].
Qed.

(** C4. In a drain pass on a healthy host, let the replay of a queue entry
    that is not exhausted fail (the gateway call or the shape check
    throws).  Then the loop iteration completes; the entry stays in the
    queue with its stored [retryCount] raised by exactly 1; the pass
    pauses for [retryDelay * (retryCount + 1)] milliseconds and makes no
    further call for the entry; it then goes on with the next entries,
    which leave the failed entry as it is: it is not replayed again within
    the pass.  No stored counter is lowered by the pass. *)
Theorem failed_replay_backoff (w0 w w1 : World)
    (pre rest : list SyncQueueItem.t) (item : SyncQueueItem.t) (e : Error) :
  healthy w0 →
  keyed SyncQueueItem.id (syncQueue (offlineDb w0)) →
  orderBy_timestamp (syncQueue (offlineDb w0)) = pre ++ item :: rest →
  for_of pre sync_one w0 = (Ok tt, w) →
  SyncQueueItem.retryCount item < maxRetries →
  syncItem item w = (Throw e, w1) →
  ∃ k w2 w3,
    SyncQueueItem.id item = Some k
    ∧ Table.get k (syncQueue (offlineDb w)) = Some item
    ∧ sync_one item w = (Ok tt, w2)
    ∧ Table.get k (syncQueue (offlineDb w2))
      = Some (SyncQueueItem.with_retryCount
                (SyncQueueItem.retryCount item + 1) item)
    ∧ delays w2 = delays w ++ [retryDelay * (SyncQueueItem.retryCount item + 1)]
    ∧ requests w2 = requests w1
    ∧ for_of rest sync_one w2 = (Ok tt, w3)
    ∧ for_of (pre ++ item :: rest) sync_one w0 = (Ok tt, w3)
    ∧ Table.get k (syncQueue (offlineDb w3))
      = Some (SyncQueueItem.with_retryCount
                (SyncQueueItem.retryCount item + 1) item)
    ∧ (∀ k' stored', Table.get k' (syncQueue (offlineDb w3)) = Some stored' →
         ∃ stored, Table.get k' (syncQueue (offlineDb w0)) = Some stored
                   ∧ SyncQueueItem.retryCount stored
                     ≤ SyncQueueItem.retryCount stored').
Proof.
  intros H0 Hk Hsnap Epre Hrc Efail.
  pose proof (snapshot_ok w0 Hk) as Hok0. rewrite Hsnap in Hok0.
  destruct (pending_ok_loop pre (item :: rest) w0 w H0 Hok0 Epre) as [H Hok].
  destruct (proj2 Hok item) as (k & Hid & Hget); [by left|].
  assert (exhausted item = false) as Hex
    by (unfold exhausted; by apply Z.leb_gt).
  pose proof (sync_one_failure item k w e w1 H Hid Hex Efail) as E2.
  set (w2 := log_delay _ _) in E2.
  pose proof (syncItem_frame _ _ _ _ Efail)
    as (Hh1 & Hdb1 & _ & _ & Hd1 & _).
  assert (healthy w2) as H2.
  { eapply healthy_host; [|exact H]. unfold w2. cbn [host log_delay].
    by rewrite (proj1 (retried_frame k w1)). }
  pose proof (pending_ok_step item rest w w2 H Hok E2) as Hok2.
  destruct (sync_loop_effect rest w2 H2 (pending_ok_ids _ _ Hok2))
    as (w3 & E3 & _ & _ & _ & _ & Hne3 & _ & _ & _ & _ & Hm3).
  assert (Table.get k (syncQueue (offlineDb w2))
          = Some (SyncQueueItem.with_retryCount
                    (SyncQueueItem.retryCount item + 1) item)) as Hget2.
  { unfold w2. cbn [offlineDb log_delay]. rewrite get_retried, Hdb1.
    case_decide; [|done]. by rewrite Hget. }
  exists k, w2, w3. split; [done|]. split; [done|]. split; [done|].
  split; [done|].
  split.
  { unfold w2. cbn [delays log_delay].
    destruct (retried_frame k w1) as (_ & _ & _ & _ & _ & ->). by rewrite Hd1. }
  split.
  { unfold w2. cbn [requests log_delay].
    by destruct (retried_frame k w1) as (_ & _ & _ & _ & -> & _). }
  split; [done|].
  split.
  { rewrite (for_of_app pre (item :: rest) sync_one w0 w Epre).
    by rewrite for_of_cons, E2. }
  split.
  { rewrite Hne3; [done|]. destruct Hok as [Hnd _]. cbn in Hnd.
    apply NoDup_cons in Hnd as [Hnotin _]. by rewrite <- Hid. }
  intros k' stored' Hget3.
  apply Hm3 in Hget3 as (s2 & Hg2 & Hle2).
  destruct (sync_one_effect item k w H Hid) as (w2' & E2' & Hrest).
  rewrite E2 in E2'. injection E2' as <-.
  destruct Hrest as (_ & _ & _ & _ & _ & _ & _ & _ & _ & Hm2).
  apply Hm2 in Hg2 as (s1 & Hg1 & Hle1).
  destruct (sync_loop_effect pre w0 H0) as (w' & E' & Hrest').
  { apply Forall_forall. intros i Hin.
    destruct (proj2 Hok0 i) as (ki & -> & _); [|eauto].
    apply elem_of_app. by left. }
  rewrite Epre in E'. injection E' as <-.
  destruct Hrest' as (_ & _ & _ & _ & _ & _ & _ & _ & _ & Hm1).
  apply Hm1 in Hg1 as (s0 & Hg0 & Hle0).
  exists s0. split; [done|lia].
Qed.

Lemma failed_replay_backoff_witness :
  ∃ k w2 w3,
    SyncQueueItem.id queued_delete8 = Some k
    ∧ Table.get k (syncQueue (offlineDb (completed 1 drain_world)))
      = Some queued_delete8
    ∧ sync_one queued_delete8 (completed 1 drain_world) = (Ok tt, w2)
    ∧ Table.get k (syncQueue (offlineDb w2))
      = Some (SyncQueueItem.with_retryCount
                (SyncQueueItem.retryCount queued_delete8 + 1) queued_delete8)
    ∧ delays w2
      = delays (completed 1 drain_world)
        ++ [retryDelay * (SyncQueueItem.retryCount queued_delete8 + 1)]
    ∧ requests w2
      = requests (log_request (DELETE_time_entry "8")
                              (completed 1 drain_world))
    ∧ for_of [queued_create3] sync_one w2 = (Ok tt, w3)
    ∧ for_of ([queued_update7] ++ queued_delete8 :: [queued_create3])
             sync_one drain_world = (Ok tt, w3)
    ∧ Table.get k (syncQueue (offlineDb w3))
      = Some (SyncQueueItem.with_retryCount
                (SyncQueueItem.retryCount queued_delete8 + 1) queued_delete8)
    ∧ (∀ k' stored', Table.get k' (syncQueue (offlineDb w3)) = Some stored' →
         ∃ stored,
           Table.get k' (syncQueue (offlineDb drain_world)) = Some stored
           ∧ SyncQueueItem.retryCount stored
             ≤ SyncQueueItem.retryCount stored').
Proof.
  apply (failed_replay_backoff drain_world (completed 1 drain_world)
           (log_request (DELETE_time_entry "8") (completed 1 drain_world))
           [queued_update7] [queued_create3] queued_delete8 NetworkError).
  - intros n. reflexivity.
  - exact keyed_sample_queue.
  - reflexivity.
  - reflexivity.
  - reflexivity.
  - reflexivity.
Defined.

(** ** The flag of the engine *)

Lemma keeps_flag_ret {A} (a : A) : keeps_flag (ret a).
Proof. by intros w. Qed.

Lemma keeps_flag_throw {A} e : keeps_flag (throw (A:=A) e).
Proof. by intros w. Qed.

Lemma keeps_flag_bind {A B} (m : M A) (k : A → M B) :
  keeps_flag m → (∀ a, keeps_flag (k a)) → keeps_flag (bind m k).
Proof.
  intros Hm Hk w. unfold bind. specialize (Hm w).
  destruct (m w) as [[a|e] w1]; cbn in *; [|done].
  by rewrite Hk.
Qed.

Lemma keeps_flag_try_catch {A} (m : M A) h :
  keeps_flag m → (∀ e, keeps_flag (h e)) → keeps_flag (try_catch m h).
Proof.
  intros Hm Hh w. unfold try_catch. specialize (Hm w).
  destruct (m w) as [[a|e] w1]; cbn in *; [done|].
  by rewrite Hh.
Qed.

Lemma keeps_flag_for_of {A} (xs : list A) body :
  (∀ x, keeps_flag (body x)) → keeps_flag (for_of xs body).
Proof.
  intros Hb. induction xs as [|x xs IH]; cbn [for_of].
  - apply keeps_flag_ret.
  - apply keeps_flag_bind; [apply Hb|done].
Qed.

Lemma keeps_flag_new_Date : keeps_flag new_Date.
Proof. by intros w. Qed.

Lemma keeps_flag_store_op {A} (f : OfflineDatabase → A * OfflineDatabase) :
  keeps_flag (store_op f).
Proof. intros w. unfold store_op. by destruct (store_fails _ _). Qed.

Lemma keeps_flag_fetch req : keeps_flag (fetch req).
Proof. intros w. unfold fetch. by destruct (fetch_result _ _). Qed.

Lemma keeps_flag_delay ms : keeps_flag (delay ms).
Proof. by intros w. Qed.

Create HintDb flag.
#[local] Hint Resolve keeps_flag_ret keeps_flag_throw keeps_flag_bind
  keeps_flag_try_catch keeps_flag_for_of keeps_flag_new_Date
  keeps_flag_store_op keeps_flag_fetch keeps_flag_delay : flag.

Ltac flag_auto :=
  repeat first
    [ progress intros
    | apply keeps_flag_bind | apply keeps_flag_try_catch
    | apply keeps_flag_for_of
    | apply keeps_flag_ret | apply keeps_flag_throw
    | apply keeps_flag_new_Date | apply keeps_flag_store_op
    | apply keeps_flag_fetch | apply keeps_flag_delay
    | match goal with
      | |- keeps_flag (match ?x with _ => _ end) => destruct x
      | |- keeps_flag (if ?x then _ else _) => destruct x
      end ].

Lemma keeps_flag_addToSyncQueue a t r d : keeps_flag (addToSyncQueue a t r d).
Proof. unfold addToSyncQueue. flag_auto. Qed.
#[local] Hint Resolve keeps_flag_addToSyncQueue : flag.

Lemma keeps_flag_run_mutation m : keeps_flag (run_mutation m).
Proof.
  destruct m; cbn [run_mutation];
    unfold addTimeEntry, updateTimeEntry, deleteTimeEntry;
    flag_auto; auto with flag.
Qed.

Lemma keeps_flag_syncItem item : keeps_flag (syncItem item).
Proof.
  unfold syncItem, syncTimeEntry, createTimeEntryOnServer,
    updateTimeEntryOnServer, deleteTimeEntryOnServer, settle.
  flag_auto.
Qed.
#[local] Hint Resolve keeps_flag_syncItem : flag.

Lemma keeps_flag_sync_one item : keeps_flag (sync_one item).
Proof.
  unfold sync_one, on_key, markSyncItemCompleted, incrementSyncRetry.
  flag_auto; auto with flag.
Qed.
#[local] Hint Resolve keeps_flag_sync_one : flag.

Lemma keeps_flag_getPendingSyncItems : keeps_flag getPendingSyncItems.
Proof. apply keeps_flag_store_op. Qed.
#[local] Hint Resolve keeps_flag_getPendingSyncItems : flag.

Lemma keeps_flag_sync_pass : keeps_flag sync_pass.
Proof. unfold sync_pass. flag_auto; auto with flag. Qed.

Lemma syncPendingData_busy w :
  syncInProgress w = true → syncPendingData w = (Ok false, w).
Proof. intros Hbusy. unfold syncPendingData. by rewrite Hbusy. Qed.

(** The loop under [try]/[catch]/[finally] is the pass run item by item. *)
Lemma loop_drain_run items w :
  finally (try_catch (for_of items sync_one ;;; ret true) (λ _, ret false))
          (set_syncInProgress false) w
  = (Ok (drain_run items w).1, (drain_run items w).2).
Proof.
  revert w. induction items as [|item items IH]; intros w; [done|].
  specialize (IH ((sync_one item w).2)).
  unfold finally, try_catch, bind in *. rewrite for_of_cons.
  cbn [drain_run]. unfold drain_item.
  destruct (sync_one item w) as [[[]|e] w1]; [|done].
  cbn [snd] in IH. exact IH.
Qed.

Lemma syncPendingData_drain w :
  syncInProgress w = false →
  syncPendingData w
  = match drain_start w with
    | (w1, Some items) => (Ok (drain_run items w1).1, (drain_run items w1).2)
    | (w1, None) => (Ok false, w1)
    end.
Proof.
  intros Hidle. unfold syncPendingData. rewrite Hidle.
  unfold drain_start.
  pose proof (loop_drain_run) as Hloop.
  unfold finally, try_catch, sync_pass, bind in *.
  destruct (getPendingSyncItems (set_syncInProgress true w))
    as [[items|e] w1]; [|done].
  apply Hloop.
Qed.

Lemma drain_start_flag w w' items :
  drain_start w = (w', Some items) → syncInProgress w' = true.
Proof.
  unfold drain_start.
  pose proof (keeps_flag_getPendingSyncItems (set_syncInProgress true w)) as Hf.
  destruct (getPendingSyncItems _) as [[l|e] w1]; [|done].
  intros [= <- _]. exact Hf.
Qed.

Lemma drain_start_fail_flag w w' :
  drain_start w = (w', None) → syncInProgress w' = false.
Proof.
  unfold drain_start. destruct (getPendingSyncItems _) as [[l|e] w1]; [done|].
  by intros [= <-].
Qed.

Lemma drain_item_flag item rest w w' rest' :
  drain_item item rest w = (w', rest') →
  (rest' = Some rest ∧ syncInProgress w' = syncInProgress w)
  ∨ (rest' = None ∧ syncInProgress w' = false).
Proof.
  unfold drain_item. pose proof (keeps_flag_sync_one item w) as Hf.
  destruct (sync_one item w) as [[[]|e] w1]; intros [= <- <-]; [left|right];
    done.
Qed.

Lemma drain_run_flag items w : syncInProgress (drain_run items w).2 = false.
Proof.
  revert w. induction items as [|item items IH]; intros w; [done|].
  cbn [drain_run]. destruct (drain_item item items w) as [w' [rest'|]] eqn:E.
  - apply IH.
  - by apply drain_item_flag in E as [[? _]|[_ ?]].
Qed.

Lemma sys_step_inv s s' : sys_inv s → sys_step s s' → sys_inv s'.
Proof.
  intros Hinv Hstep.
  destruct Hstep as [s Hbusy|s w' items Hidle E|s w' Hidle E
                    |s pre item rest post w' rest' Hin E|s pre post Hin
                    |s m r w' E].
  - done.
  - destruct Hinv as [[Hb _]|[_ Hnone]]; [congruence|].
    left. cbn. rewrite Hnone. split; [by eapply drain_start_flag|eauto].
  - destruct Hinv as [[Hb _]|[_ Hnone]]; [congruence|].
    right. cbn. split; [by eapply drain_start_fail_flag|done].
  - destruct Hinv as [[Hb [p Hp]]|[_ Hnone]].
    + rewrite Hp in Hin. destruct pre as [|? [|? ?]]; try done.
      cbn in Hin. simplify_eq.
      apply drain_item_flag in E as [[-> Hf]|[-> Hf]]; cbn.
      * left. cbn. split; [congruence|eauto].
      * right. done.
    + rewrite Hnone in Hin. by destruct pre.
  - destruct Hinv as [[Hb [p Hp]]|[_ Hnone]].
    + rewrite Hp in Hin. destruct pre as [|? [|? ?]]; try done.
      cbn in Hin. simplify_eq. right. done.
    + rewrite Hnone in Hin. by destruct pre.
  - pose proof (keeps_flag_run_mutation m (world s)) as Hf.
    rewrite E in Hf. cbn in Hf. unfold sys_inv. cbn. by rewrite Hf.
Qed.

Lemma reachable_inv w0 s : reachable w0 s → sys_inv s.
Proof.
  unfold reachable. intros Hr.
  assert (sys_inv (idle_system w0)) as H0 by (by right).
  revert H0. induction Hr as [|s1 s2 s3 Hstep _ IH]; [done|].
  intros H1. apply IH. by eapply sys_step_inv.
Qed.

(** The steps of the engine cover the method: a call that passes the busy
    check is a start step followed by item steps and a finish step. *)
Lemma drain_run_steps items w :
  rtc sys_step (mkSystem w [items]) (mkSystem (drain_run items w).2 []).
Proof.
  revert w. induction items as [|item items IH]; intros w.
  - apply rtc_once. exact (step_finish (mkSystem w [[]]) [] [] eq_refl).
  - cbn [drain_run].
    destruct (drain_item item items w) as [w' rest'] eqn:E.
    pose proof (step_item (mkSystem w [item :: items]) [] item items []
                  w' rest' eq_refl E) as Hstep.
    destruct (drain_item_flag _ _ _ _ _ E) as [[-> _]|[-> _]].
    + eapply rtc_l; [exact Hstep|]. apply IH.
    + apply rtc_once. exact Hstep.
Qed.

Lemma syncPendingData_steps w :
  syncInProgress w = false →
  rtc sys_step (mkSystem w []) (mkSystem (syncPendingData w).2 []).
Proof.
  intros Hidle. rewrite syncPendingData_drain by done.
  destruct (drain_start w) as [w1 [items|]] eqn:E.
  - eapply rtc_l.
    + exact (step_trigger_start (mkSystem w []) w1 items Hidle E).
    + apply drain_run_steps.
  - apply rtc_once. exact (step_trigger_fail (mkSystem w []) w1 Hidle E).
Qed.

(** C3. While a drain is in progress (the flag is raised),
    [syncPendingData], and with it [forcSync] and [triggerSync], returns
    [false] at once and leaves the world as it is: no queue entry is
    processed, no call is made, and the pass in flight is not altered.
    In every state the engine can reach, at most one pass is in flight,
    and one is in flight exactly when the flag is raised. *)
Theorem busy_trigger_rejected (w0 : World) (s : System) :
  reachable w0 s →
  (syncInProgress (world s) = true →
   syncPendingData (world s) = (Ok false, world s)
   ∧ forcSync (world s) = (Ok false, world s)
   ∧ triggerSync (world s) = (Ok false, world s)
   ∧ sys_step s s)
  ∧ (length (inflight s) ≤ 1)%nat
  ∧ (inflight s ≠ [] ↔ syncInProgress (world s) = true).
Proof.
  intros Hr. split.
  - intros Hbusy. unfold triggerSync, forcSync.
    rewrite syncPendingData_busy by done. repeat split. by constructor.
  - destruct (reachable_inv w0 s Hr) as [[Hb [p Hp]]|[Hidle Hnone]].
    + rewrite Hp. cbn. split; [lia|]. done.
    + rewrite Hnone, Hidle. cbn. split; [lia|]. done.
Qed.

Lemma busy_trigger_rejected_witness :
  (syncPendingData (world draining_system)
   = (Ok false, world draining_system)
   ∧ forcSync (world draining_system) = (Ok false, world draining_system)
   ∧ triggerSync (world draining_system) = (Ok false, world draining_system)
   ∧ sys_step draining_system draining_system)
  ∧ (length (inflight draining_system) ≤ 1)%nat
  ∧ (inflight draining_system ≠ []
     ↔ syncInProgress (world draining_system) = true).
Proof.
  assert (reachable drain_world draining_system) as Hr.
  { eapply rtc_l; [|apply rtc_refl].
    apply (step_trigger_start (idle_system drain_world)
             (drain_start drain_world).1
             [queued_update7; queued_delete8; queued_create3]);
      reflexivity. }
  destruct (busy_trigger_rejected drain_world draining_system Hr)
    as [Hbusy Hinv].
  split; [exact (Hbusy eq_refl)|exact Hinv].
Defined.

Lemma sync_pass_result w r w1 :
  sync_pass w = (r, w1) → r = Ok true ∨ ∃ e, r = Throw e.
Proof.
  unfold sync_pass, bind.
  destruct (getPendingSyncItems w) as [[items|e] w0]; [|intros [= <- _]; eauto].
  destruct (for_of items sync_one w0) as [[[]|e] w2]; intros [= <- _]; eauto.
Qed.

Lemma syncPendingData_idle w :
  syncInProgress w = false →
  syncPendingData w
  = (Ok match (sync_pass (set_syncInProgress true w)).1 with
        | Ok b => b
        | Throw _ => false
        end,
     set_syncInProgress false (sync_pass (set_syncInProgress true w)).2).
Proof.
  intros Hidle. unfold syncPendingData, finally, try_catch. rewrite Hidle.
  by destruct (sync_pass _) as [[b|e] w1].
Qed.

(** A trigger that arrives while a started pass is suspended finds the
    flag raised and is turned away. *)
Lemma drain_worlds_busy items w :
  syncInProgress w = true →
  Forall (λ wi, syncInProgress wi = true
                ∧ syncPendingData wi = (Ok false, wi))
         (drain_worlds items w).
Proof.
  revert w. induction items as [|item rest IH]; intros w Hbusy;
    cbn [drain_worlds].
  - constructor; [|constructor]. split; [done|by apply syncPendingData_busy].
  - constructor; [split; [done|by apply syncPendingData_busy]|].
    destruct (drain_item item rest w) as [w' [rest'|]] eqn:E;
      [|constructor].
    apply IH.
    destruct (drain_item_flag _ _ _ _ _ E) as [[_ Hf]|[? _]];
      [congruence|done].
Qed.

(** A started pass returns [true] exactly when no iteration throws. *)
Lemma drain_run_true items w :
  (drain_run items w).1 = true
  ↔ ∃ w2, for_of items sync_one w = (Ok tt, w2).
Proof.
  revert w. induction items as [|item rest IH]; intros w.
  - cbn. split; [eauto|done].
  - cbn [drain_run]. rewrite for_of_cons. unfold drain_item.
    destruct (sync_one item w) as [[[]|e] w1].
    + apply IH.
    + cbn. split; [done|]. by intros [w2 ?].
Qed.

Lemma drain_start_outcome w :
  match drain_start w with
  | (w1, Some _) =>
      store_fails (host w) (storeOps w) = false
      ∧ syncInProgress w1 = true ∧ offlineDb w1 = offlineDb w
  | (w1, None) =>
      store_fails (host w) (storeOps w) = true
      ∧ syncInProgress w1 = false ∧ offlineDb w1 = offlineDb w
  end.
Proof.
  unfold drain_start, getPendingSyncItems, store_op. cbn.
  by destruct (store_fails (host w) (storeOps w)).
Qed.



(** The pass on the host whose third store operation fails is suspended
    twice with the flag raised, on entering the loop and after the
    exhausted item is dropped, before the failure ends it. *)
Example faulty_world_suspensions :
  match drain_start faulty_world with
  | (w1, Some items) =>
      map syncInProgress (drain_worlds items w1) = [true; true]
      ∧ length items = 3%nat
  | _ => False
  end.
Proof. by vm_compute. Qed.

(** When reading the queue throws, the call returns [false] with the flag
    lowered and the store untouched. *)
Example broken_world_pass :
  syncPendingData broken_world
  = (Ok false,
     mkWorld broken_host (offlineDb drain_world) false 0 1 [] []).
Proof. reflexivity. Qed.

(** On the host whose third store operation fails, the pass drops the
    exhausted item, replays the next one, and is cut short when the retry
    counter cannot be read: the call returns [false] with the flag
    lowered. *)
Example faulty_world_pass :
  match syncPendingData faulty_world with
  | (Ok false, w') =>
      syncInProgress w' = false
      ∧ map (λ i, (SyncQueueItem.id i, SyncQueueItem.retryCount i))
            (Table.toArray (syncQueue (offlineDb w')))
        = [(Some 2, 0); (Some 3, 2)]
      ∧ requests w' = [DELETE_time_entry "8"]
      ∧ delays w' = []
  | _ => False
  end.
Proof. vm_compute. done. Qed.

(** ** What a method preserves *)

Section Preserves.
Context (R : World → World → Prop) `{!PreOrder R}.

Lemma preserves_ret {A} (a : A) : preserves R (ret a).
Proof. intros w. cbn. reflexivity. Qed.

Lemma preserves_throw {A} e : preserves R (throw (A:=A) e).
Proof. intros w. cbn. reflexivity. Qed.

Lemma preserves_bind {A B} (m : M A) (k : A → M B) :
  preserves R m → (∀ a, preserves R (k a)) → preserves R (bind m k).
Proof.
  intros Hm Hk w. unfold bind. specialize (Hm w).
  destruct (m w) as [[a|e] w1]; cbn in *; [|done].
  etrans; [exact Hm|apply Hk].
Qed.

Lemma preserves_try_catch {A} (m : M A) h :
  preserves R m → (∀ e, preserves R (h e)) → preserves R (try_catch m h).
Proof.
  intros Hm Hh w. unfold try_catch. specialize (Hm w).
  destruct (m w) as [[a|e] w1]; cbn in *; [done|].
  etrans; [exact Hm|apply Hh].
Qed.

Lemma preserves_for_of {A} (xs : list A) body :
  (∀ x, preserves R (body x)) → preserves R (for_of xs body).
Proof.
  intros Hb. induction xs as [|x xs IH]; cbn [for_of].
  - apply preserves_ret.
  - apply preserves_bind; [apply Hb|done].
Qed.

(** The host-side primitives qualify when [R] looks at the store only. *)
Hypothesis R_store : ∀ w w', offlineDb w' = offlineDb w → host w' = host w → R w w'.

Lemma preserves_new_Date : preserves R new_Date.
Proof. intros w. by apply R_store. Qed.

Lemma preserves_fetch req : preserves R (fetch req).
Proof.
  intros w. unfold fetch. destruct (fetch_result _ _); by apply R_store.
Qed.

Lemma preserves_delay ms : preserves R (delay ms).
Proof. intros w. by apply R_store. Qed.

Lemma preserves_store_op {A} (f : OfflineDatabase → A * OfflineDatabase) :
  (∀ w, R w (set_db (f (offlineDb w)).2 (tick_store w))) →
  preserves R (store_op f).
Proof.
  intros Hf w. unfold store_op.
  destruct (store_fails _ _); [by apply R_store|apply Hf].
Qed.

Lemma preserves_store_read {A} (f : OfflineDatabase → A) :
  preserves R (store_op (λ d, (f d, d))).
Proof. apply preserves_store_op. intros w. by apply R_store. Qed.

End Preserves.

Global Instance same_users_preorder : PreOrder same_users.
Proof. split; unfold same_users; [done|]. intros x y z. congruence. Qed.

Global Instance same_syncQueue_preorder : PreOrder same_syncQueue.
Proof. split; unfold same_syncQueue; [done|]. intros x y z. congruence. Qed.

Global Instance same_host_preorder : PreOrder same_host.
Proof. split; unfold same_host; [done|]. intros x y z. congruence. Qed.

Global Instance timeEntries_grow_preorder : PreOrder timeEntries_grow.
Proof.
  split; unfold timeEntries_grow; [done|].
  intros x y z Hxy Hyz Hk. destruct (Hxy Hk) as [Hk' Hrows].
  destruct (Hyz Hk') as [Hk'' Hrows']. split; [done|]. auto.
Qed.

Lemma same_users_store w w' :
  offlineDb w' = offlineDb w → host w' = host w → same_users w w'.
Proof. unfold same_users. by intros ->. Qed.

Lemma same_syncQueue_store w w' :
  offlineDb w' = offlineDb w → host w' = host w → same_syncQueue w w'.
Proof. unfold same_syncQueue. by intros ->. Qed.

Lemma same_host_store w w' :
  offlineDb w' = offlineDb w → host w' = host w → same_host w w'.
Proof. done. Qed.

Lemma timeEntries_grow_store w w' :
  offlineDb w' = offlineDb w → host w' = host w → timeEntries_grow w w'.
Proof. unfold timeEntries_grow. by intros -> _. Qed.

Ltac pres_step Rstore :=
  first
    [ match goal with |- PreOrder _ => apply _ end
    | match goal with |- ∀ _, preserves _ _ => intro end
    | apply preserves_bind | apply preserves_try_catch
    | apply preserves_for_of
    | apply preserves_ret | apply preserves_throw
    | apply (preserves_new_Date _ Rstore)
    | apply (preserves_fetch _ Rstore)
    | apply (preserves_delay _ Rstore)
    | apply (preserves_store_read _ Rstore)
    | match goal with
      | |- preserves _ (match ?x with _ => _ end) => destruct x
      | |- preserves _ (if ?x then _ else _) => destruct x
      end ].

(** [pres_auto Rstore known]: decompose the method, closing the calls of
    methods already dealt with by [known]. *)
Tactic Notation "pres_auto" constr(Rstore) "using" tactic3(known) :=
  repeat first [ known | pres_step Rstore ].
Tactic Notation "pres_auto" constr(Rstore) :=
  repeat pres_step Rstore.

(** ** Download *)

Lemma store_server_entry_users userId entry :
  preserves same_users (store_server_entry userId entry).
Proof.
  unfold store_server_entry. pres_auto same_users_store.
  apply (preserves_store_op _ same_users_store). by intros w.
Qed.

Lemma store_server_entry_syncQueue userId entry :
  preserves same_syncQueue (store_server_entry userId entry).
Proof.
  unfold store_server_entry. pres_auto same_syncQueue_store.
  apply (preserves_store_op _ same_syncQueue_store). by intros w.
Qed.

Lemma store_server_entry_host userId entry :
  preserves same_host (store_server_entry userId entry).
Proof.
  unfold store_server_entry. pres_auto same_host_store.
  apply (preserves_store_op _ same_host_store). by intros w.
Qed.

Lemma add_grows (v : OfflineTimeEntry.t) tb :
  keyed OfflineTimeEntry.id tb →
  keyed OfflineTimeEntry.id (Table.add OfflineTimeEntry.with_id v tb).2
  ∧ ∀ k e, Table.get k tb = Some e →
           Table.get k (Table.add OfflineTimeEntry.with_id v tb).2 = Some e.
Proof.
  intros Hk. split; [by apply keyed_add|].
  intros k e Hget. unfold Table.get, Table.add in *. cbn.
  rewrite lookup_insert_ne; [done|].
  intros <-. by rewrite (fresh_nextKey OfflineTimeEntry.id) in Hget.
Qed.

Lemma store_server_entry_grow userId entry :
  preserves timeEntries_grow (store_server_entry userId entry).
Proof.
  unfold store_server_entry. pres_auto timeEntries_grow_store.
  apply (preserves_store_op _ timeEntries_grow_store).
  intros w Hk. cbn. by apply add_grows.
Qed.

Lemma download_month_users userId year month i :
  preserves same_users (download_month userId year month i).
Proof.
  unfold download_month.
  pres_auto same_users_store using (apply store_server_entry_users).
Qed.

Lemma download_month_syncQueue userId year month i :
  preserves same_syncQueue (download_month userId year month i).
Proof.
  unfold download_month.
  pres_auto same_syncQueue_store using (apply store_server_entry_syncQueue).
Qed.

Lemma download_month_grow userId year month i :
  preserves timeEntries_grow (download_month userId year month i).
Proof.
  unfold download_month.
  pres_auto timeEntries_grow_store using (apply store_server_entry_grow).
Qed.

Lemma updateLastSyncTime_syncQueue userId :
  preserves same_syncQueue (updateLastSyncTime userId).
Proof.
  unfold updateLastSyncTime. pres_auto same_syncQueue_store.
  apply (preserves_store_op _ same_syncQueue_store). by intros w.
Qed.

Lemma updateLastSyncTime_grow userId :
  preserves timeEntries_grow (updateLastSyncTime userId).
Proof.
  unfold updateLastSyncTime. pres_auto timeEntries_grow_store.
  apply (preserves_store_op _ timeEntries_grow_store). by intros w Hk.
Qed.

(** [updateLastSyncTime] writes the user cache only when it completes. *)
Lemma updateLastSyncTime_throw userId w e w' :
  updateLastSyncTime userId w = (Throw e, w') → same_users w w'.
Proof.
  unfold updateLastSyncTime, bind, store_op, new_Date, throw, ret, same_users.
  destruct (store_fails (host w) (storeOps w)); [by intros [= _ <-]|].
  cbn. destruct (first_by_email _ _) as [u|]; [|done].
  destruct (OfflineUser.id u); [|by intros [= _ <-]].
  cbn. destruct (store_fails _ _); [by intros [= _ <-]|done].
Qed.

Lemma download_body_syncQueue userId :
  preserves same_syncQueue (download_body userId).
Proof.
  unfold download_body.
  pres_auto same_syncQueue_store
    using (first [apply download_month_syncQueue
                 |apply updateLastSyncTime_syncQueue]).
Qed.

Lemma download_body_grow userId :
  preserves timeEntries_grow (download_body userId).
Proof.
  unfold download_body.
  pres_auto timeEntries_grow_store
    using (first [apply download_month_grow|apply updateLastSyncTime_grow]).
Qed.

Lemma same_slot_spec userId entry e :
  same_slot (offlineEntry_of userId entry) e = true
  ↔ OfflineTimeEntry.date e = ServerTimeEntry.date entry
    ∧ OfflineTimeEntry.timeStarted e = ServerTimeEntry.timeStarted entry.
Proof.
  unfold same_slot, offlineEntry_of. cbn.
  rewrite andb_true_iff, !Z.eqb_eq. done.
Qed.

Lemma existing_slot userId entry tb :
  keyed OfflineTimeEntry.id tb →
  is_Some (head (where_userId userId
                   (same_slot (offlineEntry_of userId entry)) tb))
  ↔ has_slot userId entry tb.
Proof.
  intros Hk. unfold has_slot. split.
  - intros [e He]. apply head_Some_elem_of in He.
    apply elem_of_where_userId in He as ([k Hget] & Hu & Hs); [|done].
    apply same_slot_spec in Hs as [Hd Ht]. by exists k, e.
  - intros (k & e & Hget & Hu & Hd & Ht).
    assert (e ∈ where_userId userId
                  (same_slot (offlineEntry_of userId entry)) tb) as Hin.
    { apply elem_of_where_userId; [done|]. split; [by exists k|].
      split; [done|]. by apply same_slot_spec. }
    destruct (where_userId _ _ _) as [|x l]; [by apply elem_of_nil in Hin|].
    by exists x.
Qed.


Lemma keyed_march_timeEntries :
  keyed OfflineTimeEntry.id (timeEntries march_db).
Proof.
  unfold march_db. cbn zeta. cbn [timeEntries].
  repeat (apply keyed_add; [done|]). apply keyed_empty.
Qed.


(** Both cases, computed on the March store: the entry of 5 March is
    already there and nothing is added; the entry of 6 March is added as
    record 4. *)
Example march_download_entries :
  match store_server_entry "u1" server_known march_world,
        store_server_entry "u1" server_new march_world with
  | (Ok _, w1), (Ok _, w2) =>
      Table.count (timeEntries (offlineDb w1)) = 3%nat
      ∧ Table.count (timeEntries (offlineDb w2)) = 4%nat
      ∧ (OfflineTimeEntry.synced
           <$> Table.get 4 (timeEntries (offlineDb w2))) = Some true
      ∧ Table.count (syncQueue (offlineDb w1)) = 0%nat
      ∧ Table.count (syncQueue (offlineDb w2)) = 0%nat
  | _, _ => False
  end.
Proof. vm_compute. done. Qed.

Lemma for_of_throw {A} (xs : list A) body w e w' :
  for_of xs body w = (Throw e, w') →
  ∃ pre x post w0,
    xs = pre ++ x :: post
    ∧ for_of pre body w = (Ok tt, w0)
    ∧ body x w0 = (Throw e, w').
Proof.
  revert w. induction xs as [|x xs IH]; intros w E; [done|].
  rewrite for_of_cons in E. destruct (body x w) as [[[]|e1] w1] eqn:E1.
  - destruct (IH w1 E) as (pre & y & post & w0 & -> & Epre & Ey).
    exists (x :: pre), y, post, w0. split; [done|].
    split; [|done]. by rewrite for_of_cons, E1.
  - injection E as -> ->. exists [], x, xs, w. done.
Qed.

Lemma try_catch_rethrow {A} (m : M A) w : try_catch m (λ error, throw error) w = m w.
Proof. unfold try_catch, throw. by destruct (m w) as [[a|e] w1]. Qed.

Lemma downloadServerData_online userId w :
  navigator_onLine (host w) = true →
  downloadServerData userId w = download_body userId w.
Proof.
  intros Hon. unfold downloadServerData. rewrite Hon. cbn [negb].
  apply try_catch_rethrow.
Qed.

Lemma download_loop_users userId year month (offsets : list Z) :
  preserves same_users (for_of offsets (download_month userId year month)).
Proof. apply preserves_for_of; [apply _|]. intros i. apply download_month_users. Qed.

(** Whatever [downloadServerData] throws, the user cache is as before. *)
Lemma downloadServerData_throw_users userId w e w' :
  downloadServerData userId w = (Throw e, w') → same_users w w'.
Proof.
  unfold downloadServerData. destruct (negb _); [by intros [= _ <-]|].
  rewrite try_catch_rethrow. unfold download_body, bind, new_Date.
  set (body := download_month _ _ _).
  pose proof (download_loop_users userId
                (JSDate.getFullYear (Date_now (host w) (clockReads w)))
                (JSDate.getMonth (Date_now (host w) (clockReads w)) + 1)
                [0; 1; 2] (tick_clock w)) as Hloop.
  fold body in Hloop.
  destruct (for_of [0; 1; 2] body (tick_clock w)) as [[[]|e1] w1].
  - intros E. apply updateLastSyncTime_throw in E.
    unfold same_users in *. cbn in Hloop. congruence.
  - intros [= _ <-]. exact Hloop.
Qed.


(** On the host that serves the first month and rejects the second, the
    download throws the network error; the record of the first month
    stays, the third month is never requested, and the last-sync time is
    still 5. *)
Example flaky_download :
  match downloadServerData "u1" flaky_world with
  | (Throw NetworkError, w') =>
      requests w' = [GET_monthly 1970 1; GET_monthly 1969 12]
      ∧ Table.count (timeEntries (offlineDb flaky_world)) = 3%nat
      ∧ Table.count (timeEntries (offlineDb w')) = 4%nat
      ∧ (OfflineUser.lastSync
           <$> first_by_email "u1" (users (offlineDb w'))) = Some 5
  | _ => False
  end.
Proof. vm_compute. done. Qed.

(** ** Conflict resolution *)

Lemma apply_stamped_of_entry entry now :
  OfflineTimeEntry.synced entry = false →
  PartialEntry.apply (stamped (PartialEntry.of_entry entry) now) entry
  = with_updatedAt now entry.
Proof. destruct entry. cbn. by intros ->. Qed.

(** The claim as the specification words it fails: keeping the local
    version of the conflicted record 1 (last modified at time 2) rewrites
    its [updatedAt] with the clock's 1000. *)
Lemma resolveConflict_local_restamps :
  ∃ e e' w',
    Table.get 1 (timeEntries (offlineDb conflict_world)) = Some e
    ∧ conflicted e
    ∧ resolveConflict 1 Resolution.local conflict_world = (Ok tt, w')
    ∧ Table.get 1 (timeEntries (offlineDb w')) = Some e'
    ∧ OfflineTimeEntry.updatedAt e = 2
    ∧ OfflineTimeEntry.updatedAt e' = 1000
    ∧ e' ≠ e.
Proof.
  eexists _, _, _. split; [vm_compute; reflexivity|].
  split; [by vm_compute|]. split; [vm_compute; reflexivity|].
  split; [vm_compute; reflexivity|]. split; [done|]. split; [done|].
  intros [=].
Qed.

(** C9, amended. For a conflicted entry, on a healthy host:
    [resolveConflict(entryId, "local")] re-stages the local version, that
    is, it appends an ["update"] queue entry for the record that carries
    all its fields, and changes nothing of the record but its [updatedAt],
    which becomes the current time; [resolveConflict(entryId, "server")]
    removes the local record and does nothing else: no gateway call, no
    queue entry, no other record touched. *)
Theorem resolveConflict_effects (entryId : Z) (entry : OfflineTimeEntry.t)
    (w : World) :
  healthy w →
  keyed SyncQueueItem.id (syncQueue (offlineDb w)) →
  Table.get entryId (timeEntries (offlineDb w)) = Some entry →
  conflicted entry →
  let now := Date_now (host w) (clockReads w) in
  (∃ w' item,
     resolveConflict entryId Resolution.local w = (Ok tt, w')
     ∧ Table.get entryId (timeEntries (offlineDb w'))
       = Some (with_updatedAt now entry)
     ∧ (∀ k, k ≠ entryId →
             Table.get k (timeEntries (offlineDb w'))
             = Table.get k (timeEntries (offlineDb w)))
     ∧ Table.toArray (syncQueue (offlineDb w'))
       = Table.toArray (syncQueue (offlineDb w)) ++ [item]
     ∧ SyncQueueItem.action item = Action.update
     ∧ SyncQueueItem.table item = TableName.timeEntry
     ∧ SyncQueueItem.recordId item = JS.toString entryId
     ∧ SyncQueueItem.retryCount item = 0
     ∧ SyncQueueItem.data item
       = Changes (stamped (PartialEntry.of_entry entry) now)
     ∧ requests w' = requests w)
  ∧ (∃ w',
       resolveConflict entryId Resolution.server w = (Ok tt, w')
       ∧ Table.get entryId (timeEntries (offlineDb w')) = None
       ∧ (∀ k, k ≠ entryId →
               Table.get k (timeEntries (offlineDb w'))
               = Table.get k (timeEntries (offlineDb w)))
       ∧ syncQueue (offlineDb w') = syncQueue (offlineDb w)
       ∧ users (offlineDb w') = users (offlineDb w)
       ∧ requests w' = requests w).
Proof.
  intros H Hk Hget [Hsynced _] now. split.
  - unfold resolveConflict, bind. rewrite store_op_healthy by done.
    cbn [fst snd]. rewrite Hget.
    rewrite updateTimeEntry_healthy
      by (eapply healthy_host; [|exact H]; done).
    eexists _, _. split; [reflexivity|].
    split.
    { unfold Table.get in *. cbn. rewrite lookup_alter_eq, Hget. cbn.
      f_equal. by apply apply_stamped_of_entry. }
    split.
    { intros k Hne. unfold Table.get. cbn. by rewrite lookup_alter_ne. }
    split.
    { exact (enqueue_toArray _
               (updated entryId (PartialEntry.of_entry entry)
                        (set_db (offlineDb w) (tick_store w))) Hk). }
    by repeat split.
  - unfold resolveConflict. rewrite store_op_healthy by done.
    eexists. split; [reflexivity|]. cbn.
    split; [unfold Table.get; cbn; apply lookup_delete_eq|].
    split; [|done].
    intros k Hne. unfold Table.get. cbn. by rewrite lookup_delete_ne.
Qed.

Lemma resolveConflict_effects_witness :
  let entry := OfflineTimeEntry.with_id 1 conflict_entry in
  (∃ w' item,
     resolveConflict 1 Resolution.local conflict_world = (Ok tt, w')
     ∧ Table.get 1 (timeEntries (offlineDb w'))
       = Some (with_updatedAt 1000 entry)
     ∧ (∀ k, k ≠ 1 →
             Table.get k (timeEntries (offlineDb w'))
             = Table.get k (timeEntries (offlineDb conflict_world)))
     ∧ Table.toArray (syncQueue (offlineDb w'))
       = Table.toArray (syncQueue (offlineDb conflict_world)) ++ [item]
     ∧ SyncQueueItem.action item = Action.update
     ∧ SyncQueueItem.table item = TableName.timeEntry
     ∧ SyncQueueItem.recordId item = JS.toString 1
     ∧ SyncQueueItem.retryCount item = 0
     ∧ SyncQueueItem.data item
       = Changes (stamped (PartialEntry.of_entry entry) 1000)
     ∧ requests w' = requests conflict_world)
  ∧ (∃ w',
       resolveConflict 1 Resolution.server conflict_world = (Ok tt, w')
       ∧ Table.get 1 (timeEntries (offlineDb w')) = None
       ∧ (∀ k, k ≠ 1 →
               Table.get k (timeEntries (offlineDb w'))
               = Table.get k (timeEntries (offlineDb conflict_world)))
       ∧ syncQueue (offlineDb w') = syncQueue (offlineDb conflict_world)
       ∧ users (offlineDb w') = users (offlineDb conflict_world)
       ∧ requests w' = requests conflict_world).
Proof.
  apply (resolveConflict_effects 1 (OfflineTimeEntry.with_id 1 conflict_entry)
           conflict_world).
  - intros n. reflexivity.
  - apply keyed_empty.
  - reflexivity.
  - split; [reflexivity|]. cbn. lia.
Defined.

(** ** Sanity checks of the built-ins *)

Example toString_examples :
  JS.toString 42 = "42"%string ∧ JS.toString 0 = "0"%string
  ∧ JS.toString (-7) = "-7"%string.
Proof. by vm_compute. Qed.

Example toLowerCase_example :
  JS.toLowerCase "Alice B." = "alice b."%string.
Proof. reflexivity. Qed.

Example Date_examples :
  JS.Date 1970 0 1 0 0 0 = 0
  ∧ JS.Date 2024 1 29 0 0 0 = 1709164800000
  ∧ JS.Date 2024 2 0 23 59 59 = 1709251199000
  ∧ JS.Date 2025 (-1) 1 0 0 0 = JS.Date 2024 11 1 0 0 0
  ∧ JSDate.civil_year_month 1709251199000 = (2024, 1)
  ∧ JSDate.civil_year_month (JS.Date 2024 11 1 0 0 0) = (2024, 11).
Proof. by vm_compute. Qed.

(** ** The table invariants are kept by every method *)

Global Instance db_ok_kept_preorder : PreOrder db_ok_kept.
Proof.
  split; unfold db_ok_kept.
  - intros x Hx. exact Hx.
  - intros x y z Hxy Hyz Hx. exact (Hyz (Hxy Hx)).
Qed.

Lemma db_ok_kept_store w w' :
  offlineDb w' = offlineDb w → host w' = host w → db_ok_kept w w'.
Proof. unfold db_ok_kept. by intros -> _. Qed.

Lemma db_ok_set_timeEntries tb d :
  db_ok d → keyed OfflineTimeEntry.id tb → db_ok (set_timeEntries tb d).
Proof. intros (Ht & Hu & Hq) Hk. by split. Qed.

Lemma db_ok_set_users tb d :
  db_ok d → keyed OfflineUser.id tb → db_ok (set_users tb d).
Proof. intros (Ht & Hu & Hq) Hk. by split. Qed.

Lemma db_ok_set_syncQueue tb d :
  db_ok d → keyed SyncQueueItem.id tb → db_ok (set_syncQueue tb d).
Proof. intros (Ht & Hu & Hq) Hk. by split. Qed.

(** A store operation that rewrites one table with a well-keyed one. *)
Ltac db_ok_write :=
  apply (preserves_store_op _ db_ok_kept_store);
  let w := fresh "w" in let Hok := fresh "Hok" in
  intros w Hok; cbn [fst snd offlineDb set_db];
  pose proof Hok as (? & ? & ?);
  lazymatch goal with
  | |- db_ok (set_timeEntries _ _) => apply db_ok_set_timeEntries
  | |- db_ok (set_users _ _) => apply db_ok_set_users
  | |- db_ok (set_syncQueue _ _) => apply db_ok_set_syncQueue
  end;
  [ exact Hok
  | first [ by apply keyed_add | by apply keyed_update
          | by apply keyed_delete ] ].

Lemma db_ok_kept_addToSyncQueue a t r d :
  preserves db_ok_kept (addToSyncQueue a t r d).
Proof.
  unfold addToSyncQueue. pres_auto db_ok_kept_store. db_ok_write.
Qed.

Lemma db_ok_kept_updateTimeEntry id updates :
  preserves db_ok_kept (updateTimeEntry id updates).
Proof.
  unfold updateTimeEntry.
  pres_auto db_ok_kept_store using (apply db_ok_kept_addToSyncQueue).
  db_ok_write.
Qed.

Lemma db_ok_kept_run_mutation m : preserves db_ok_kept (run_mutation m).
Proof.
  destruct m; cbn [run_mutation]; unfold addTimeEntry, deleteTimeEntry;
    pres_auto db_ok_kept_store
      using (first [apply db_ok_kept_addToSyncQueue
                   |apply db_ok_kept_updateTimeEntry]);
    db_ok_write.
Qed.

Lemma db_ok_kept_sync_one item : preserves db_ok_kept (sync_one item).
Proof.
  assert (preserves db_ok_kept (syncItem item)) as HsyncItem.
  { unfold syncItem, syncTimeEntry, createTimeEntryOnServer,
      updateTimeEntryOnServer, deleteTimeEntryOnServer, settle.
    pres_auto db_ok_kept_store. }
  unfold sync_one, on_key, markSyncItemCompleted, incrementSyncRetry.
  pres_auto db_ok_kept_store using (apply HsyncItem); db_ok_write.
Qed.

Lemma db_ok_kept_syncPendingData : preserves db_ok_kept syncPendingData.
Proof.
  assert (preserves db_ok_kept sync_pass) as Hpass.
  { unfold sync_pass, getPendingSyncItems.
    pres_auto db_ok_kept_store using (apply db_ok_kept_sync_one). }
  intros w. unfold syncPendingData. destruct (syncInProgress w).
  { intros Hok. exact Hok. }
  unfold finally, try_catch.
  specialize (Hpass (set_syncInProgress true w)).
  by destruct (sync_pass _) as [[b|e] w1].
Qed.

Lemma db_ok_kept_downloadServerData userId :
  preserves db_ok_kept (downloadServerData userId).
Proof.
  assert (preserves db_ok_kept (download_body userId)) as Hbody.
  { unfold download_body, download_month, store_server_entry,
      updateLastSyncTime.
    pres_auto db_ok_kept_store; db_ok_write. }
  intros w. unfold downloadServerData. destruct (negb _).
  { intros Hok. exact Hok. }
  rewrite try_catch_rethrow. apply Hbody.
Qed.

Lemma db_ok_kept_resolveConflict entryId resolution :
  preserves db_ok_kept (resolveConflict entryId resolution).
Proof.
  destruct resolution; unfold resolveConflict.
  - pres_auto db_ok_kept_store using (apply db_ok_kept_updateTimeEntry).
  - db_ok_write.
Qed.

(** Every state the engine reaches from a well-keyed store is well
    keyed. *)
Lemma reachable_db_ok w0 s :
  db_ok (offlineDb w0) → reachable w0 s → db_ok (offlineDb (world s)).
Proof.
  intros H0 Hr. unfold reachable in Hr.
  assert (db_ok (offlineDb (world (idle_system w0)))) as Hidle by done.
  revert Hidle. clear H0.
  induction Hr as [|s1 s2 s3 Hstep _ IH]; [done|].
  intros H1. apply IH. clear IH.
  destruct Hstep as [s Hbusy|s w' items Hidle E|s w' Hidle E
                    |s pre item rest post w' rest' Hin E|s pre post Hin
                    |s m r w' E]; cbn.
  - done.
  - unfold drain_start, getPendingSyncItems in E.
    pose proof (preserves_store_read _ db_ok_kept_store
                  (λ d, orderBy_timestamp (syncQueue d))
                  (set_syncInProgress true (world s)) H1) as Hk.
    destruct (store_op _ _) as [[l|e] w1]; [|done]. by injection E as <- _.
  - unfold drain_start, getPendingSyncItems in E.
    pose proof (preserves_store_read _ db_ok_kept_store
                  (λ d, orderBy_timestamp (syncQueue d))
                  (set_syncInProgress true (world s)) H1) as Hk.
    destruct (store_op _ _) as [[l|e] w1]; [done|]. by injection E as <-.
  - unfold drain_item in E.
    pose proof (db_ok_kept_sync_one item (world s) H1) as Hk.
    destruct (sync_one item (world s)) as [[[]|e] w1];
      by injection E as <- _.
  - done.
  - pose proof (db_ok_kept_run_mutation m (world s) H1) as Hk.
    by rewrite E in Hk.
Qed.

(** * Further properties *)

(** ** The order of the pending items *)

Lemma seqZ_sorted m len : StronglySorted Z.lt (seqZ m (Z.of_nat len)).
Proof.
  revert m. induction len as [|len IH]; intros m.
  - rewrite seqZ_nil by lia. constructor.
  - rewrite seqZ_cons by lia.
    replace (Z.pred (Z.of_nat (S len))) with (Z.of_nat len) by lia.
    constructor; [apply IH|].
    apply Forall_forall. intros k Hk. apply elem_of_seqZ in Hk. lia.
Qed.

Lemma omap_ids_sorted (m : gmap Z SyncQueueItem.t) (ks : list Z) :
  (∀ k v, m !! k = Some v → SyncQueueItem.id v = Some k) →
  StronglySorted Z.lt ks →
  StronglySorted id_lt (omap (λ k, m !! k) ks).
Proof.
  intros Hid Hs. induction Hs as [|k ks Hs IH Hall]; cbn; [constructor|].
  destruct (m !! k) as [v|] eqn:E; [|done].
  constructor; [done|].
  apply Forall_forall. intros v' Hin.
  apply list_elem_of_omap in Hin as (k' & Hk' & E').
  rewrite Forall_forall in Hall. exists k, k'.
  split; [by apply Hid|]. split; [by apply Hid|]. by apply Hall.
Qed.

Lemma toArray_ids_sorted (tb : Table.t SyncQueueItem.t) :
  keyed SyncQueueItem.id tb → StronglySorted id_lt (Table.toArray tb).
Proof.
  intros [Hn Hrows]. unfold Table.toArray. apply omap_ids_sorted.
  - intros k v Hv. exact (proj2 (Hrows _ _ Hv)).
  - replace (Table.nextKey tb - 1)
      with (Z.of_nat (Z.to_nat (Table.nextKey tb - 1))) by lia.
    apply seqZ_sorted.
Qed.

Lemma queue_lt_timestamp a b :
  queue_lt a b → SyncQueueItem.timestamp a ≤ SyncQueueItem.timestamp b.
Proof. intros [?|[? _]]; lia. Qed.

Lemma insert_by_timestamp_sorted x l :
  StronglySorted queue_lt l →
  Forall (id_lt x) l →
  StronglySorted queue_lt (insert_by_timestamp x l).
Proof.
  intros Hs Hx. induction Hs as [|y r Hs IH Hall]; cbn.
  - repeat constructor.
  - apply Forall_cons in Hx as [Hxy Hxr].
    destruct (SyncQueueItem.timestamp x <=? SyncQueueItem.timestamp y)
      eqn:Hle.
    + apply Z.leb_le in Hle. constructor; [by constructor|].
      constructor.
      * unfold queue_lt. destruct (decide
          (SyncQueueItem.timestamp x = SyncQueueItem.timestamp y));
          [right; done|left; lia].
      * rewrite Forall_forall in *. intros z Hz.
        pose proof (queue_lt_timestamp _ _ (Hall z Hz)) as Hyz.
        unfold queue_lt. destruct (decide
          (SyncQueueItem.timestamp x = SyncQueueItem.timestamp z));
          [right; split; [done|by apply Hxr]|left; lia].
    + apply Z.leb_gt in Hle. constructor; [by apply IH|].
      rewrite insert_by_timestamp_perm. constructor; [|done].
      left. lia.
Qed.

Lemma orderBy_timestamp_sorted (tb : Table.t SyncQueueItem.t) :
  keyed SyncQueueItem.id tb → StronglySorted queue_lt (orderBy_timestamp tb).
Proof.
  intros Hk. unfold orderBy_timestamp.
  induction (toArray_ids_sorted tb Hk) as [|x l Hs IH Hall]; cbn.
  - constructor.
  - apply insert_by_timestamp_sorted; [done|].
    fold (foldr insert_by_timestamp [] l).
    assert (foldr insert_by_timestamp [] l ≡ₚ l) as ->; [|done].
    clear. induction l as [|y l IH]; cbn; [done|].
    by rewrite insert_by_timestamp_perm, IH.
Qed.

Lemma toArray_length {A} (get_id : A → option Z) (tb : Table.t A) :
  keyed get_id tb → length (Table.toArray tb) = Table.count tb.
Proof.
  intros [Hn Hrows]. unfold Table.toArray, Table.count.
  set (m := Table.rows tb). set (ks := seqZ 1 (Table.nextKey tb - 1)).
  assert (NoDup ks) as Hnd by apply NoDup_seqZ.
  assert (∀ k v, m !! k = Some v → k ∈ ks) as Hdom.
  { intros k v Hv. apply elem_of_seqZ. apply Hrows in Hv. lia. }
  clearbody m ks. clear Hrows Hn.
  rewrite <- length_map_to_list.
  set (pairs := omap (λ k, (k,.) <$> m !! k) ks).
  assert (length (omap (λ k, m !! k) ks) = length pairs) as ->.
  { unfold pairs. clear. induction ks as [|k ks IH]; cbn; [done|].
    destruct (m !! k); cbn; by rewrite ?IH. }
  apply Permutation_length, NoDup_Permutation.
  - unfold pairs. clear Hdom. induction Hnd as [|k ks Hnotin Hnd IH]; cbn;
      [constructor|].
    destruct (m !! k) as [v|]; cbn; [|done]. constructor; [|done].
    intros Hin. apply list_elem_of_omap in Hin as (k' & Hk' & E).
    destruct (m !! k'); cbn in E; [|done]. by injection E as -> _.
  - apply NoDup_map_to_list.
  - intros [k v]. rewrite elem_of_map_to_list. unfold pairs.
    rewrite list_elem_of_omap. split.
    + intros (k' & Hk' & E). destruct (m !! k') eqn:E'; cbn in E; [|done].
      by injection E as -> ->.
    + intros Hv. exists k. split; [by eapply Hdom|]. by rewrite Hv.
Qed.

(** X1. On a healthy host [getPendingSyncItems] returns exactly the stored
    queue items, oldest first: in increasing [timestamp] order, items of
    equal [timestamp] in increasing key order; the store is left as it
    is. *)
Theorem pending_items_oldest_first (w : World) :
  healthy w →
  keyed SyncQueueItem.id (syncQueue (offlineDb w)) →
  ∃ items w',
    getPendingSyncItems w = (Ok items, w')
    ∧ StronglySorted queue_lt items
    ∧ items ≡ₚ Table.toArray (syncQueue (offlineDb w))
    ∧ (∀ item, item ∈ items
               ↔ ∃ k, Table.get k (syncQueue (offlineDb w)) = Some item)
    ∧ length items = Table.count (syncQueue (offlineDb w))
    ∧ offlineDb w' = offlineDb w.
Proof.
  intros H Hk. rewrite getPendingSyncItems_healthy by done.
  eexists _, _. split; [done|].
  split; [by apply orderBy_timestamp_sorted|].
  split; [apply orderBy_timestamp_perm|].
  split.
  { intros item. rewrite orderBy_timestamp_perm.
    by apply (elem_of_toArray SyncQueueItem.id). }
  split; [|done].
  rewrite orderBy_timestamp_perm.
  by apply (toArray_length SyncQueueItem.id).
Qed.

Lemma pending_items_oldest_first_witness :
  ∃ items w',
    getPendingSyncItems drain_world = (Ok items, w')
    ∧ StronglySorted queue_lt items
    ∧ items ≡ₚ Table.toArray (syncQueue (offlineDb drain_world))
    ∧ (∀ item, item ∈ items
         ↔ ∃ k, Table.get k (syncQueue (offlineDb drain_world)) = Some item)
    ∧ length items = Table.count (syncQueue (offlineDb drain_world))
    ∧ offlineDb w' = offlineDb drain_world.
Proof.
  apply (pending_items_oldest_first drain_world).
  - intros n. reflexivity.
  - exact keyed_sample_queue.
Defined.

(** ** The gateway calls of a pass *)

Lemma syncItem_requests item w :
  exhausted item = false →
  requests (syncItem item w).2
  = requests w ++ option_list (request_of item).
Proof.
  intros Hex. unfold request_of. rewrite Hex.
  unfold syncItem, syncTimeEntry.
  destruct (SyncQueueItem.table item); [|cbn; by rewrite app_nil_r].
  destruct (SyncQueueItem.action item).
  - destruct (isOfflineTimeEntry _); cbn [negb];
      [|cbn; by rewrite app_nil_r].
    unfold createTimeEntryOnServer, bind, fetch.
    by destruct (fetch_result _ _) as [|[] []].
  - unfold updateTimeEntryOnServer, bind, fetch.
    by destruct (fetch_result _ _) as [|[] []].
  - unfold deleteTimeEntryOnServer, bind, fetch.
    by destruct (fetch_result _ _) as [|[] []].
Qed.

Lemma sync_one_requests item k w :
  healthy w → SyncQueueItem.id item = Some k →
  requests (sync_one item w).2
  = requests w ++ option_list (request_of item).
Proof.
  intros H Hid. destruct (exhausted item) eqn:Hex.
  - rewrite (sync_one_exhausted item k w H Hid Hex).
    unfold request_of. rewrite Hex. cbn. by rewrite app_nil_r.
  - rewrite <- (syncItem_requests item w Hex).
    destruct (syncItem item w) as [[[]|e] w1] eqn:E.
    + by rewrite (sync_one_success item k w w1 H Hid Hex E).
    + rewrite (sync_one_failure item k w e w1 H Hid Hex E).
      cbn [snd requests log_delay].
      by destruct (retried_frame k w1) as (_ & _ & _ & _ & -> & _).
Qed.

Lemma sync_loop_requests items w :
  healthy w →
  Forall (λ item, is_Some (SyncQueueItem.id item)) items →
  requests (for_of items sync_one w).2
  = requests w ++ omap request_of items.
Proof.
  intros H Hids. revert w H.
  induction Hids as [|item items [k Hid] Hids IH]; intros w H.
  - cbn. by rewrite app_nil_r.
  - rewrite for_of_cons.
    pose proof (sync_one_requests item k w H Hid) as Hr.
    destruct (sync_one_effect item k w H Hid) as (w1 & E1 & Hh1 & _).
    rewrite E1 in Hr |- *. cbn [snd] in Hr.
    rewrite (IH w1 (healthy_host _ _ Hh1 H)), Hr, <- app_assoc.
    f_equal. cbn [omap list_omap]. by destruct (request_of item).
Qed.

(** X2. On a healthy host a pass asks the gateway, in the order of the
    pending items (oldest first), exactly once for every item that is
    neither exhausted nor malformed (a ["user"] item, a create without a
    full record), whatever the outcomes of the calls: for a create a POST
    whose body carries the date, the two times, the participants, the
    participation mark and the comments of the queued record; for an
    update a PUT to the queued [recordId] whose body carries those of
    these six fields that the queued changes give; for a delete a DELETE
    to the queued [recordId]. *)
Theorem pass_requests_in_order (w : World) :
  healthy w →
  keyed SyncQueueItem.id (syncQueue (offlineDb w)) →
  syncInProgress w = false →
  ∃ w', syncPendingData w = (Ok true, w')
    ∧ requests w'
      = requests w
        ++ omap request_of (orderBy_timestamp (syncQueue (offlineDb w))).
Proof.
  intros H Hk Hidle.
  destruct (syncPendingData_healthy w H Hk Hidle) as (w' & E & _).
  exists w'. split; [done|].
  rewrite syncPendingData_idle in E by done. injection E as _ <-.
  unfold sync_pass, bind.
  rewrite getPendingSyncItems_healthy
    by (eapply healthy_host; [|exact H]; done).
  cbn [offlineDb set_syncInProgress].
  set (w0 := set_db _ _).
  assert (healthy w0) as H0 by (eapply healthy_host; [|exact H]; done).
  pose proof (sync_loop_requests _ w0 H0
                (pending_ok_ids _ _ (snapshot_ok w Hk))) as Hr.
  destruct (sync_loop_effect _ w0 H0 (pending_ok_ids _ _ (snapshot_ok w Hk)))
    as (w1 & E1 & _).
  rewrite E1 in Hr |- *. exact Hr.
Qed.

Lemma pass_requests_in_order_witness :
  ∃ w', syncPendingData drain_world = (Ok true, w')
    ∧ requests w'
      = requests drain_world
        ++ omap request_of
             (orderBy_timestamp (syncQueue (offlineDb drain_world))).
Proof.
  apply (pass_requests_in_order drain_world).
  - intros n. reflexivity.
  - exact keyed_sample_queue.
  - reflexivity.
Defined.

(** ** A pass with the gateway up, and with the gateway out of reach *)

(** The calls of a pass over the sample queue when the gateway accepts
    every request: nothing for the exhausted update, the DELETE, and the
    POST with the six fields of the queued record. *)
Example up_world_requests :
  requests (syncPendingData up_world).2
  = [DELETE_time_entry "8";
     POST_time_entry
       (RequestBody.mk (Some (JS.Date 2024 3 2 0 0 0))
                       (Some (JS.Date 2024 3 2 0 0 0))
                       (Some (JS.Date 2024 3 2 0 0 0 + 3600000))
                       (Some ["Carol"%string]) (Some false) None)].
Proof. by vm_compute. Qed.

Lemma syncItem_up item w :
  gateway_up w → sendable item → ∃ w1, syncItem item w = (Ok tt, w1).
Proof.
  intros Hup [Htable Hcreate]. unfold syncItem, syncTimeEntry. rewrite Htable.
  destruct (Hup (length (requests w))) as [entries Hresp].
  destruct (SyncQueueItem.action item).
  - rewrite Hcreate by done. cbn [negb].
    unfold createTimeEntryOnServer, bind, fetch. rewrite Hresp. cbn. eauto.
  - unfold updateTimeEntryOnServer, bind, fetch. rewrite Hresp. cbn. eauto.
  - unfold deleteTimeEntryOnServer, bind, fetch. rewrite Hresp. cbn. eauto.
Qed.

Lemma syncItem_down item w :
  gateway_down w → ∃ e w1, syncItem item w = (Throw e, w1).
Proof.
  intros Hdown. unfold syncItem, syncTimeEntry.
  destruct (SyncQueueItem.table item); [|cbn; eauto].
  specialize (Hdown (length (requests w))).
  destruct (SyncQueueItem.action item).
  - destruct (isOfflineTimeEntry _); cbn [negb]; [|cbn; eauto].
    unfold createTimeEntryOnServer, bind, fetch. rewrite Hdown. eauto.
  - unfold updateTimeEntryOnServer, bind, fetch. rewrite Hdown. eauto.
  - unfold deleteTimeEntryOnServer, bind, fetch. rewrite Hdown. eauto.
Qed.

Lemma gateway_up_host w w' : host w' = host w → gateway_up w → gateway_up w'.
Proof. unfold gateway_up. by intros ->. Qed.

Lemma gateway_down_host w w' :
  host w' = host w → gateway_down w → gateway_down w'.
Proof. unfold gateway_down. by intros ->. Qed.

Lemma sync_loop_up items w :
  healthy w → gateway_up w →
  Forall (λ item, is_Some (SyncQueueItem.id item) ∧ sendable item) items →
  ∃ w', for_of items sync_one w = (Ok tt, w')
    ∧ delays w' = delays w
    ∧ (∀ k, Table.get k (syncQueue (offlineDb w)) = None →
            Table.get k (syncQueue (offlineDb w')) = None)
    ∧ (∀ item k, item ∈ items → SyncQueueItem.id item = Some k →
                 Table.get k (syncQueue (offlineDb w')) = None).
Proof.
  intros H Hup Hitems. revert w H Hup.
  induction Hitems as [|item items [[k Hid] Hs] Hitems IH]; intros w H Hup.
  - exists w. repeat split; try done. intros item k Hin.
    by apply elem_of_nil in Hin.
  - assert (∃ w1, sync_one item w = (Ok tt, w1)
                  ∧ host w1 = host w ∧ delays w1 = delays w
                  ∧ Table.get k (syncQueue (offlineDb w1)) = None
                  ∧ (∀ k', Table.get k' (syncQueue (offlineDb w)) = None →
                           Table.get k' (syncQueue (offlineDb w1)) = None))
      as (w1 & E1 & Hh1 & Hd1 & Hk1 & Hno1).
    { destruct (sync_one_effect item k w H Hid)
        as (w1 & E1 & Hh1 & _ & _ & _ & _ & Hno1 & _).
      exists w1. split; [done|]. split; [done|].
      destruct (exhausted item) eqn:Hex.
      - rewrite (sync_one_exhausted item k w H Hid Hex) in E1.
        injection E1 as <-. repeat split; try done.
        rewrite get_completed. by case_decide.
      - destruct (syncItem_up item w Hup Hs) as [w0 E0].
        rewrite (sync_one_success item k w w0 H Hid Hex E0) in E1.
        injection E1 as <-.
        apply syncItem_frame in E0 as (_ & _ & _ & _ & Hd & _).
        repeat split; try done.
        rewrite get_completed. by case_decide. }
    destruct (IH w1 (healthy_host _ _ Hh1 H) (gateway_up_host _ _ Hh1 Hup))
      as (w2 & E2 & Hd2 & Hno2 & Hgone2).
    exists w2. rewrite for_of_cons, E1. split; [done|].
    split; [congruence|]. split; [by auto|].
    intros item' k' Hin Hid'. apply elem_of_cons in Hin as [->|Hin].
    + apply Hno2. congruence.
    + by eapply Hgone2.
Qed.

(** The world in which a pass on a healthy host leaves its loop. *)
Lemma syncPendingData_loop w :
  healthy w → keyed SyncQueueItem.id (syncQueue (offlineDb w)) →
  syncInProgress w = false →
  let w0 := set_db (offlineDb w) (tick_store (set_syncInProgress true w)) in
  ∃ w1, for_of (orderBy_timestamp (syncQueue (offlineDb w))) sync_one w0
        = (Ok tt, w1)
        ∧ syncPendingData w = (Ok true, set_syncInProgress false w1).
Proof.
  intros H Hk Hidle w0.
  assert (healthy w0) as H0 by (eapply healthy_host; [|exact H]; done).
  destruct (sync_loop_effect _ w0 H0 (pending_ok_ids _ _ (snapshot_ok w Hk)))
    as (w1 & E1 & _).
  exists w1. split; [done|].
  rewrite syncPendingData_idle by done. unfold sync_pass, bind.
  rewrite getPendingSyncItems_healthy
    by (eapply healthy_host; [|exact H]; done).
  cbn [offlineDb set_syncInProgress]. fold w0. by rewrite E1.
Qed.

(** X3. On a healthy host whose gateway accepts every request, a pass
    over a queue of well-formed items removes every item: the queue is
    empty afterwards, no pause is taken, and the call returns [true]. *)
Theorem pass_with_gateway_up_empties_queue (w : World) :
  healthy w → gateway_up w →
  keyed SyncQueueItem.id (syncQueue (offlineDb w)) →
  syncInProgress w = false →
  (∀ k item, Table.get k (syncQueue (offlineDb w)) = Some item →
             sendable item) →
  ∃ w', syncPendingData w = (Ok true, w')
    ∧ Table.rows (syncQueue (offlineDb w')) = ∅
    ∧ Table.toArray (syncQueue (offlineDb w')) = []
    ∧ delays w' = delays w
    ∧ timeEntries (offlineDb w') = timeEntries (offlineDb w).
Proof.
  intros H Hup Hk Hidle Hsend.
  destruct (syncPendingData_loop w H Hk Hidle) as (w1 & E1 & E).
  set (w0 := set_db _ _) in E1.
  assert (healthy w0) as H0 by (eapply healthy_host; [|exact H]; done).
  assert (gateway_up w0) as Hup0
    by (eapply gateway_up_host; [|exact Hup]; done).
  pose proof (snapshot_ok w Hk) as [_ Hst].
  destruct (sync_loop_up (orderBy_timestamp (syncQueue (offlineDb w)))
              w0 H0 Hup0) as (w1' & E1' & Hd1 & Hno1 & Hgone1).
  { apply Forall_forall. intros item Hin.
    destruct (Hst item Hin) as (k & Hid & Hget). split; [by rewrite Hid|].
    by eapply Hsend. }
  rewrite E1 in E1'. injection E1' as <-.
  destruct (sync_loop_effect _ w0 H0 (pending_ok_ids _ _ (snapshot_ok w Hk)))
    as (w1' & E1' & _ & _ & Ht & _).
  rewrite E1 in E1'. injection E1' as <-.
  exists (set_syncInProgress false w1). split; [done|].
  cbn [offlineDb set_syncInProgress delays].
  assert (Table.rows (syncQueue (offlineDb w1)) = ∅) as Hempty.
  { apply map_eq. intros k. rewrite lookup_empty.
    destruct (Table.get k (syncQueue (offlineDb w))) as [item|] eqn:Hget.
    - assert (item ∈ orderBy_timestamp (syncQueue (offlineDb w))) as Hin.
      { rewrite orderBy_timestamp_perm.
        apply (elem_of_toArray SyncQueueItem.id); [done|]. by exists k. }
      apply (Hgone1 item k Hin). destruct Hk as [_ Hrows].
      exact (proj2 (Hrows _ _ Hget)).
    - by apply Hno1. }
  split; [done|]. split.
  { unfold Table.toArray. rewrite Hempty.
    induction (seqZ _ _) as [|k ks IH]; [done|]. cbn.
    by rewrite lookup_empty. }
  split; [done|]. exact Ht.
Qed.

Lemma keyed_up_world_queue :
  ∀ k item, Table.get k (syncQueue (offlineDb up_world)) = Some item →
            sendable item.
Proof.
  intros k item Hget.
  assert (item ∈ Table.toArray (syncQueue (offlineDb up_world))) as Hin.
  { apply (elem_of_toArray SyncQueueItem.id);
      [exact keyed_sample_queue|by exists k]. }
  vm_compute in Hin.
  repeat (apply elem_of_cons in Hin as [->|Hin]; [by split|]).
  by apply elem_of_nil in Hin.
Qed.

Lemma pass_with_gateway_up_empties_queue_witness :
  ∃ w', syncPendingData up_world = (Ok true, w')
    ∧ Table.rows (syncQueue (offlineDb w')) = ∅
    ∧ Table.toArray (syncQueue (offlineDb w')) = []
    ∧ delays w' = delays up_world
    ∧ timeEntries (offlineDb w') = timeEntries (offlineDb up_world).
Proof.
  apply (pass_with_gateway_up_empties_queue up_world).
  - intros n. reflexivity.
  - intros n. by exists None.
  - exact keyed_sample_queue.
  - reflexivity.
  - exact keyed_up_world_queue.
Defined.

Lemma sync_one_down item k w :
  healthy w → gateway_down w → SyncQueueItem.id item = Some k →
  Table.get k (syncQueue (offlineDb w)) = Some item →
  ∃ w1, sync_one item w = (Ok tt, w1)
    ∧ host w1 = host w
    ∧ Table.get k (syncQueue (offlineDb w1)) = fail_once item
    ∧ (∀ k', k' ≠ k → Table.get k' (syncQueue (offlineDb w1))
                      = Table.get k' (syncQueue (offlineDb w))).
Proof.
  intros H Hdown Hid Hget.
  destruct (sync_one_effect item k w H Hid)
    as (w1 & E1 & Hh1 & _ & _ & _ & Hne1 & _).
  exists w1. split; [done|]. split; [done|]. split; [|done].
  unfold fail_once. destruct (exhausted item) eqn:Hex.
  - rewrite (sync_one_exhausted item k w H Hid Hex) in E1.
    injection E1 as <-. rewrite get_completed. by case_decide.
  - destruct (syncItem_down item w Hdown) as (e & w0 & E0).
    rewrite (sync_one_failure item k w e w0 H Hid Hex E0) in E1.
    injection E1 as <-. cbn [offlineDb log_delay].
    apply syncItem_frame in E0 as (_ & Hdb & _).
    rewrite get_retried, Hdb. case_decide; [|done]. by rewrite Hget.
Qed.

Lemma sync_loop_down items w :
  healthy w → gateway_down w → pending_ok items w →
  ∃ w', for_of items sync_one w = (Ok tt, w')
    ∧ ∀ k, Table.get k (syncQueue (offlineDb w'))
           = match Table.get k (syncQueue (offlineDb w)) with
             | Some stored =>
                 if decide (Some k ∈ map SyncQueueItem.id items)
                 then fail_once stored else Some stored
             | None => None
             end.
Proof.
  revert w. induction items as [|item items IH]; intros w H Hdown Hok.
  - exists w. split; [done|]. intros k.
    destruct (Table.get k _); [|done]. case_decide as Hin; [|done].
    by apply elem_of_nil in Hin.
  - destruct (proj2 Hok item) as (k0 & Hid & Hget); [by left|].
    destruct (sync_one_down item k0 w H Hdown Hid Hget)
      as (w1 & E1 & Hh1 & Hk0 & Hne1).
    pose proof (pending_ok_step item items w w1 H Hok E1) as Hok1.
    destruct (IH w1 (healthy_host _ _ Hh1 H)
                (gateway_down_host _ _ Hh1 Hdown) Hok1) as (w2 & E2 & Hrows).
    exists w2. rewrite for_of_cons, E1. split; [done|].
    intros k. rewrite Hrows. destruct Hok as [Hnd _]. cbn in Hnd.
    apply NoDup_cons in Hnd as [Hnotin _]. rewrite Hid in Hnotin.
    destruct (decide (k = k0)) as [->|Hne].
    + rewrite Hk0, Hget. cbn [map]. rewrite Hid.
      rewrite decide_True by (by left).
      unfold fail_once. destruct (exhausted item); [done|].
      by rewrite decide_False.
    + rewrite Hne1 by done.
      destruct (Table.get k (syncQueue (offlineDb w))); [|done].
      cbn [map]. rewrite Hid.
      destruct (decide (Some k ∈ map SyncQueueItem.id items)) as [Hin|Hnin].
      * rewrite decide_True; [done|]. by right.
      * rewrite decide_False; [done|].
        intros Hin. apply elem_of_cons in Hin as [[=]|Hin]; done.
Qed.

(** One pass with the gateway out of reach, on a healthy host: every
    stored item is dropped if exhausted and has its counter raised by one
    otherwise. *)
Lemma pass_down w :
  healthy w → gateway_down w → db_ok (offlineDb w) →
  syncInProgress w = false →
  healthy (after_pass w) ∧ gateway_down (after_pass w)
  ∧ db_ok (offlineDb (after_pass w))
  ∧ syncInProgress (after_pass w) = false
  ∧ timeEntries (offlineDb (after_pass w)) = timeEntries (offlineDb w)
  ∧ ∀ k, Table.get k (syncQueue (offlineDb (after_pass w)))
         = Table.get k (syncQueue (offlineDb w)) ≫= fail_once.
Proof.
  intros H Hdown Hok Hidle. pose proof Hok as (_ & _ & Hk).
  destruct (syncPendingData_healthy w H Hk Hidle)
    as (w' & E & Hh & Hf & Ht & _).
  pose proof (db_ok_kept_syncPendingData w Hok) as Hok'.
  destruct (syncPendingData_loop w H Hk Hidle) as (w1 & E1 & E').
  unfold after_pass. rewrite E in Hok' |- *. cbn [snd] in *.
  split; [by eapply healthy_host|]. split; [by eapply gateway_down_host|].
  split; [done|]. split; [done|]. split; [done|].
  rewrite E in E'. injection E' as ->.
  set (w0 := set_db _ _) in E1.
  destruct (sync_loop_down (orderBy_timestamp (syncQueue (offlineDb w))) w0)
    as (w1' & E1' & Hrows).
  { eapply healthy_host; [|exact H]; done. }
  { eapply gateway_down_host; [|exact Hdown]; done. }
  { exact (snapshot_ok w Hk). }
  rewrite E1 in E1'. injection E1' as <-.
  intros k. cbn [offlineDb set_syncInProgress]. rewrite Hrows.
  change (offlineDb w0) with (offlineDb w).
  destruct (Table.get k (syncQueue (offlineDb w))) as [stored|] eqn:Hget;
    [|done].
  rewrite decide_True; [done|].
  destruct Hk as [_ Hrows']. rewrite <- (proj2 (Hrows' _ _ Hget)).
  apply list_elem_of_fmap. exists stored. split; [done|].
  rewrite orderBy_timestamp_perm.
  apply (elem_of_toArray SyncQueueItem.id); [|by exists k].
  by destruct Hok as (_ & _ & ?).
Qed.

Lemma fail_once_exhausted (item : SyncQueueItem.t) :
  3 ≤ SyncQueueItem.retryCount item → fail_once item = None.
Proof.
  intros Hge. unfold fail_once, exhausted, maxRetries.
  destruct (3 <=? _) eqn:E; [reflexivity|]. apply Z.leb_gt in E. lia.
Qed.

Lemma fail_once_four (item : SyncQueueItem.t) :
  0 ≤ SyncQueueItem.retryCount item →
  (((Some item ≫= fail_once) ≫= fail_once) ≫= fail_once) ≫= fail_once
  = None.
Proof.
  intros Hrc.
  assert (SyncQueueItem.retryCount item = 0
          ∨ SyncQueueItem.retryCount item = 1
          ∨ SyncQueueItem.retryCount item = 2
          ∨ 3 ≤ SyncQueueItem.retryCount item) as Hcases by lia.
  destruct item as [i a t r d ts rc]. cbn [SyncQueueItem.retryCount] in *.
  destruct Hcases as [->|[->|[->|Hge]]]; [reflexivity..|].
  cbn [mbind option_bind]. by rewrite fail_once_exhausted.
Qed.

(** X4. On a healthy host whose gateway is out of reach, four successive
    calls of [syncPendingData] (one more than [maxRetries]) discard every
    queue item with a counter of at least 0, replayed or not: the queue is
    empty afterwards, while the [timeEntries] table is as before. *)
Theorem unreachable_gateway_exhausts_queue (w : World) :
  healthy w → gateway_down w → db_ok (offlineDb w) →
  syncInProgress w = false →
  (∀ k item, Table.get k (syncQueue (offlineDb w)) = Some item →
             0 ≤ SyncQueueItem.retryCount item) →
  Table.rows (syncQueue (offlineDb (after_passes 4 w))) = ∅
  ∧ timeEntries (offlineDb (after_passes 4 w)) = timeEntries (offlineDb w)
  ∧ syncInProgress (after_passes 4 w) = false.
Proof.
  intros H Hdown Hok Hidle Hrc.
  change (after_passes 4 w)
    with (after_pass (after_pass (after_pass (after_pass w)))).
  destruct (pass_down w H Hdown Hok Hidle)
    as (H1 & Hd1 & Hok1 & Hf1 & Ht1 & Hq1).
  destruct (pass_down _ H1 Hd1 Hok1 Hf1)
    as (H2 & Hd2 & Hok2 & Hf2 & Ht2 & Hq2).
  destruct (pass_down _ H2 Hd2 Hok2 Hf2)
    as (H3 & Hd3 & Hok3 & Hf3 & Ht3 & Hq3).
  destruct (pass_down _ H3 Hd3 Hok3 Hf3)
    as (H4 & Hd4 & Hok4 & Hf4 & Ht4 & Hq4).
  split; [|split; [by rewrite Ht4, Ht3, Ht2, Ht1|done]].
  apply map_eq. intros k. rewrite lookup_empty.
  change (Table.get k (syncQueue (offlineDb
            (after_pass (after_pass (after_pass (after_pass w)))))) = None).
  rewrite Hq4, Hq3, Hq2, Hq1.
  destruct (Table.get k (syncQueue (offlineDb w))) as [item|] eqn:Hget;
    [|done].
  apply fail_once_four. by eapply Hrc.
Qed.

Lemma unreachable_gateway_exhausts_queue_witness :
  Table.rows (syncQueue (offlineDb (after_passes 4 drain_world))) = ∅
  ∧ timeEntries (offlineDb (after_passes 4 drain_world))
    = timeEntries (offlineDb drain_world)
  ∧ syncInProgress (after_passes 4 drain_world) = false.
Proof.
  apply (unreachable_gateway_exhausts_queue drain_world).
  - intros n. reflexivity.
  - intros n. reflexivity.
  - split; [exact keyed_march_timeEntries|].
    split; [apply keyed_empty|exact keyed_sample_queue].
  - reflexivity.
  - intros k item Hget.
    assert (item ∈ Table.toArray (syncQueue (offlineDb drain_world))) as Hin.
    { apply (elem_of_toArray SyncQueueItem.id);
        [exact keyed_sample_queue|by exists k]. }
    vm_compute in Hin.
    repeat (apply elem_of_cons in Hin as [->|Hin]; [by cbn|]).
    by apply elem_of_nil in Hin.
Defined.

(** ** What the drain and the download never touch *)

Global Instance same_timeEntries_preorder : PreOrder same_timeEntries.
Proof. split; unfold same_timeEntries; [done|]. intros x y z. congruence. Qed.

Lemma same_timeEntries_store w w' :
  offlineDb w' = offlineDb w → host w' = host w → same_timeEntries w w'.
Proof. unfold same_timeEntries. by intros ->. Qed.

Lemma sync_one_timeEntries item : preserves same_timeEntries (sync_one item).
Proof.
  unfold sync_one, on_key, markSyncItemCompleted, incrementSyncRetry,
    syncItem, syncTimeEntry, createTimeEntryOnServer,
    updateTimeEntryOnServer, deleteTimeEntryOnServer, settle.
  pres_auto same_timeEntries_store;
    apply (preserves_store_op _ same_timeEntries_store); by intros w.
Qed.

Lemma sync_one_users item : preserves same_users (sync_one item).
Proof.
  unfold sync_one, on_key, markSyncItemCompleted, incrementSyncRetry,
    syncItem, syncTimeEntry, createTimeEntryOnServer,
    updateTimeEntryOnServer, deleteTimeEntryOnServer, settle.
  pres_auto same_users_store;
    apply (preserves_store_op _ same_users_store); by intros w.
Qed.

Lemma syncPendingData_preserves R `{!PreOrder R} :
  (∀ w w', offlineDb w' = offlineDb w → host w' = host w → R w w') →
  (∀ item, preserves R (sync_one item)) →
  preserves R syncPendingData.
Proof.
  intros Rstore Hone.
  assert (preserves R sync_pass) as Hpass.
  { unfold sync_pass, getPendingSyncItems.
    pres_auto Rstore using (apply Hone). }
  intros w. unfold syncPendingData. destruct (syncInProgress w).
  { cbn. reflexivity. }
  unfold finally, try_catch.
  specialize (Hpass (set_syncInProgress true w)).
  assert (R w (set_syncInProgress true w)) as Hup by (by apply Rstore).
  destruct (sync_pass _) as [[b|e] w1]; cbn in *.
  - etrans; [exact Hup|]. etrans; [exact Hpass|]. by apply Rstore.
  - etrans; [exact Hup|]. etrans; [exact Hpass|]. by apply Rstore.
Qed.

(** X5. Whatever the storage engine and the network do, a call of
    [syncPendingData] leaves the [timeEntries] and [users] tables as they
    are; in particular it marks no entry as synced, even when every replay
    succeeds: the entries that [getUnsyncedEntries] selects are the same
    before and after. *)
Theorem drain_leaves_entries_unsynced (w : World) (userId : string) :
  timeEntries (offlineDb (syncPendingData w).2) = timeEntries (offlineDb w)
  ∧ users (offlineDb (syncPendingData w).2) = users (offlineDb w)
  ∧ where_userId userId (λ entry, negb (OfflineTimeEntry.synced entry))
      (timeEntries (offlineDb (syncPendingData w).2))
    = where_userId userId (λ entry, negb (OfflineTimeEntry.synced entry))
        (timeEntries (offlineDb w)).
Proof.
  pose proof (syncPendingData_preserves same_timeEntries
                same_timeEntries_store sync_one_timeEntries w) as Ht.
  pose proof (syncPendingData_preserves same_users
                same_users_store sync_one_users w) as Hu.
  unfold same_timeEntries, same_users in *.
  split; [done|]. split; [done|]. by rewrite Ht.
Qed.

Global Instance gains_synced_preorder u : PreOrder (gains_synced u).
Proof.
  split; unfold gains_synced.
  - intros x Hk. split; [done|]. split; [done|]. intros k e ?. by left.
  - intros x y z Hxy Hyz Hk. destruct (Hxy Hk) as (Hk' & Hkeep & Hnew).
    destruct (Hyz Hk') as (Hk'' & Hkeep' & Hnew').
    split; [done|]. split; [by auto|].
    intros k e Hget. destruct (Hnew' k e Hget) as [Hold|?]; [|by right].
    by apply Hnew.
Qed.

Lemma gains_synced_store u w w' :
  offlineDb w' = offlineDb w → host w' = host w → gains_synced u w w'.
Proof.
  unfold gains_synced. intros -> _ Hk. split; [done|]. split; [done|].
  intros k e ?. by left.
Qed.

Lemma store_server_entry_gains userId entry :
  preserves (gains_synced userId) (store_server_entry userId entry).
Proof.
  unfold store_server_entry. pres_auto (gains_synced_store userId).
  apply (preserves_store_op _ (gains_synced_store userId)).
  intros w Hk. cbn [fst snd offlineDb set_db timeEntries set_timeEntries].
  destruct (add_grows (offlineEntry_of userId entry) _ Hk) as [Hk' Hkeep].
  split; [done|]. split; [done|].
  intros k e. unfold Table.get, Table.add. cbn.
  rewrite lookup_insert. case_decide.
  - intros [= <-]. by right.
  - by left.
Qed.

Lemma updateLastSyncTime_gains u userId :
  preserves (gains_synced u) (updateLastSyncTime userId).
Proof.
  unfold updateLastSyncTime. pres_auto (gains_synced_store u).
  apply (preserves_store_op _ (gains_synced_store u)).
  intros w Hk. split; [done|]. split; [done|]. intros k e ?. by left.
Qed.

Lemma downloadServerData_preserves R `{!PreOrder R} userId :
  (∀ w w', offlineDb w' = offlineDb w → host w' = host w → R w w') →
  (∀ entry, preserves R (store_server_entry userId entry)) →
  preserves R (updateLastSyncTime userId) →
  preserves R (downloadServerData userId).
Proof.
  intros Rstore Hentry Hlast.
  assert (preserves R (download_body userId)) as Hbody.
  { unfold download_body, download_month.
    pres_auto Rstore using (first [apply Hentry|apply Hlast]). }
  intros w. unfold downloadServerData. destruct (negb _).
  { cbn. reflexivity. }
  rewrite try_catch_rethrow. apply Hbody.
Qed.

(** X6. Whatever the outcome of [downloadServerData(userId)] and whatever
    the host does, the sync queue is left as it is, every local record
    present before is still there unchanged, and every record added
    belongs to [userId] and is marked synced. *)
Theorem download_adds_only_synced (userId : string) (w : World) :
  keyed OfflineTimeEntry.id (timeEntries (offlineDb w)) →
  let w' := (downloadServerData userId w).2 in
  syncQueue (offlineDb w') = syncQueue (offlineDb w)
  ∧ (∀ k e, Table.get k (timeEntries (offlineDb w)) = Some e →
            Table.get k (timeEntries (offlineDb w')) = Some e)
  ∧ (∀ k e, Table.get k (timeEntries (offlineDb w')) = Some e →
            Table.get k (timeEntries (offlineDb w)) = Some e
            ∨ (OfflineTimeEntry.synced e = true
               ∧ OfflineTimeEntry.userId e = userId)).
Proof.
  intros Hk w'.
  pose proof (downloadServerData_preserves same_syncQueue userId
                same_syncQueue_store (store_server_entry_syncQueue userId)
                (updateLastSyncTime_syncQueue userId) w) as Hq.
  pose proof (downloadServerData_preserves (gains_synced userId) userId
                (gains_synced_store userId)
                (store_server_entry_gains userId)
                (updateLastSyncTime_gains userId userId) w Hk)
    as (_ & Hkeep & Hnew).
  split; [exact Hq|]. split; [exact Hkeep|exact Hnew].
Qed.

Lemma download_adds_only_synced_witness :
  let w' := (downloadServerData "u1" flaky_world).2 in
  syncQueue (offlineDb w') = syncQueue (offlineDb flaky_world)
  ∧ (∀ k e, Table.get k (timeEntries (offlineDb flaky_world)) = Some e →
            Table.get k (timeEntries (offlineDb w')) = Some e)
  ∧ (∀ k e, Table.get k (timeEntries (offlineDb w')) = Some e →
            Table.get k (timeEntries (offlineDb flaky_world)) = Some e
            ∨ (OfflineTimeEntry.synced e = true
               ∧ OfflineTimeEntry.userId e = "u1"%string)).
Proof.
  apply (download_adds_only_synced "u1" flaky_world).
  exact keyed_march_timeEntries.
Defined.

(** ** More on tables *)

Section TableFacts2.
Context {A : Type} (get_id : A → option Z).
Implicit Types (tb : Table.t A) (k : Z) (v : A).

Lemma toArray_update k (f : A → A) tb :
  keyed get_id tb →
  Table.toArray (Table.update k f tb)
  = (λ v, if decide (get_id v = Some k) then f v else v)
      <$> Table.toArray tb.
Proof.
  intros [_ Hrows]. unfold Table.toArray, Table.update. cbn.
  induction (seqZ 1 (Table.nextKey tb - 1)) as [|k' ks IH]; [done|].
  cbn. rewrite lookup_alter, IH. case_decide as Hk.
  - subst k'. destruct (Table.rows tb !! k) as [v|] eqn:E; [|done].
    cbn. rewrite decide_True; [done|]. exact (proj2 (Hrows _ _ E)).
  - destruct (Table.rows tb !! k') as [v|] eqn:E; [|done].
    cbn. rewrite decide_False; [done|].
    rewrite (proj2 (Hrows _ _ E)). congruence.
Qed.

Lemma toArray_delete k tb :
  keyed get_id tb →
  Table.toArray (Table.delete k tb)
  = filter (λ v, get_id v ≠ Some k) (Table.toArray tb).
Proof.
  intros [_ Hrows]. unfold Table.toArray, Table.delete. cbn.
  induction (seqZ 1 (Table.nextKey tb - 1)) as [|k' ks IH]; [done|].
  cbn. rewrite lookup_delete, IH. case_decide as Hk.
  - subst k'. destruct (Table.rows tb !! k) as [v|] eqn:E; [|done].
    rewrite filter_cons_False; [done|].
    intros Hne. apply Hne. exact (proj2 (Hrows _ _ E)).
  - destruct (Table.rows tb !! k') as [v|] eqn:E; [|done].
    rewrite filter_cons_True; [done|].
    rewrite (proj2 (Hrows _ _ E)). congruence.
Qed.

Lemma toArray_ids k v tb :
  keyed get_id tb →
  Table.get k tb = Some v ↔ v ∈ Table.toArray tb ∧ get_id v = Some k.
Proof.
  intros Hk. pose proof Hk as [_ Hrows]. split.
  - intros Hget. split; [|exact (proj2 (Hrows _ _ Hget))].
    apply (elem_of_toArray get_id); [done|]. by exists k.
  - intros [Hin Hid]. apply (elem_of_toArray get_id) in Hin as [k' Hget];
      [|done].
    pose proof (proj2 (Hrows _ _ Hget)) as Hid'.
    assert (k' = k) as -> by congruence. done.
Qed.

End TableFacts2.

Lemma head_filter_split {A} (P : A → Prop) `{!∀ x, Decision (P x)}
    (l : list A) x :
  head (filter P l) = Some x →
  ∃ l1 l2, l = l1 ++ x :: l2 ∧ Forall (λ y, ¬ P y) l1 ∧ P x.
Proof.
  induction l as [|y l IH]; [done|].
  rewrite filter_cons. case_decide as Hy.
  - intros [= ->]. exists [], l. done.
  - intros Hhead. destruct (IH Hhead) as (l1 & l2 & -> & Hl1 & Hx).
    exists (y :: l1), l2. split; [done|]. split; [by constructor|done].
Qed.

Lemma head_filter_app_hit {A} (P : A → Prop) `{!∀ x, Decision (P x)}
    (l1 l2 : list A) x :
  Forall (λ y, ¬ P y) l1 → P x → head (filter P (l1 ++ x :: l2)) = Some x.
Proof.
  intros Hl1 Hx. induction Hl1 as [|y l1 Hy Hl1 IH]; cbn [app].
  - by rewrite filter_cons_True.
  - by rewrite filter_cons_False.
Qed.

Lemma head_filter_None {A} (P : A → Prop) `{!∀ x, Decision (P x)}
    (l : list A) :
  head (filter P l) = None ↔ Forall (λ y, ¬ P y) l.
Proof.
  induction l as [|y l IH]; [by split; [constructor|]|].
  rewrite filter_cons. case_decide as Hy.
  - split; [done|]. intros Hall. by apply Forall_cons in Hall as [? _].
  - rewrite IH. split; [by constructor|].
    intros Hall. by apply Forall_cons in Hall as [_ ?].
Qed.

(** ** The user cache *)

Lemma first_by_email_stored email tb u :
  keyed OfflineUser.id tb →
  first_by_email email tb = Some u →
  OfflineUser.email u = email
  ∧ ∃ k, OfflineUser.id u = Some k ∧ Table.get k tb = Some u.
Proof.
  intros Hk Hfirst. unfold first_by_email in Hfirst.
  apply head_Some_elem_of, list_elem_of_filter in Hfirst as [He Hin].
  split; [done|].
  apply (elem_of_toArray OfflineUser.id) in Hin as [k Hget]; [|done].
  exists k. split; [|done]. destruct Hk as [_ Hrows].
  exact (proj2 (Hrows _ _ Hget)).
Qed.

Lemma first_by_email_None email tb :
  keyed OfflineUser.id tb →
  first_by_email email tb = None
  ↔ ∀ k u, Table.get k tb = Some u → OfflineUser.email u ≠ email.
Proof.
  intros Hk. unfold first_by_email. rewrite head_filter_None, Forall_forall.
  split.
  - intros Hall k u Hget. apply Hall.
    apply (elem_of_toArray OfflineUser.id); [done|]. by exists k.
  - intros Hall u Hin.
    apply (elem_of_toArray OfflineUser.id) in Hin as [k Hget]; [|done].
    by eapply Hall.
Qed.

(** Rewriting the first user of an email, keeping the email, keeps it
    first. *)
Lemma first_by_email_update email tb u k (f : OfflineUser.t → OfflineUser.t) :
  keyed OfflineUser.id tb →
  first_by_email email tb = Some u →
  OfflineUser.id u = Some k →
  OfflineUser.email (f u) = email →
  first_by_email email (Table.update k f tb) = Some (f u).
Proof.
  intros Hk Hfirst Hid Hemail. unfold first_by_email in *.
  rewrite (toArray_update OfflineUser.id) by done.
  apply head_filter_split in Hfirst as (l1 & l2 & Hl & Hl1 & Hu).
  assert (NoDup (OfflineUser.id <$> Table.toArray tb)) as Hnd.
  { destruct Hk as [_ Hrows]. unfold Table.toArray.
    assert (NoDup (seqZ 1 (Table.nextKey tb - 1))) as Hks by apply NoDup_seqZ.
    induction Hks as [|k' ks Hnotin Hks IH]; cbn; [constructor|].
    destruct (Table.rows tb !! k') as [v|] eqn:E; [|done].
    cbn. constructor; [|done].
    rewrite (proj2 (Hrows _ _ E)). intros Hin.
    apply list_elem_of_fmap in Hin as (v' & Hv' & Hin).
    apply list_elem_of_omap in Hin as (k'' & Hk'' & E').
    rewrite (proj2 (Hrows _ _ E')) in Hv'. by injection Hv' as ->. }
  rewrite Hl in Hnd |- *. rewrite fmap_app, fmap_cons.
  rewrite fmap_app, fmap_cons in Hnd.
  apply NoDup_app in Hnd as (_ & Hdisj & _).
  rewrite decide_True by done.
  apply head_filter_app_hit; [|done].
  apply Forall_fmap, Forall_forall. intros y Hy. cbn.
  rewrite Forall_forall in Hl1. case_decide as Hyk; [|by apply Hl1].
  exfalso. apply (Hdisj (OfflineUser.id y)).
  - apply list_elem_of_fmap. eauto.
  - rewrite Hyk, <- Hid. by left.
Qed.

Lemma first_by_email_add email tb (u : OfflineUser.t) :
  keyed OfflineUser.id tb →
  first_by_email email tb = None →
  OfflineUser.email u = email →
  first_by_email email (Table.add OfflineUser.with_id u tb).2
  = Some (OfflineUser.with_id (Table.nextKey tb) u).
Proof.
  intros Hk Hnone Hemail. unfold first_by_email in *.
  rewrite (toArray_add OfflineUser.id) by done.
  apply head_filter_None in Hnone.
  rewrite <- (app_nil_r [_]). by apply head_filter_app_hit.
Qed.

Lemma saveUser_healthy user w :
  healthy w → keyed OfflineUser.id (users (offlineDb w)) →
  let now := Date_now (host w) (clockReads w) in
  let tb := users (offlineDb w) in
  let existingUser := first_by_email (NewUser.email user) tb in
  ∃ id w1,
    saveUser user w = (Ok id, w1)
    ∧ host w1 = host w
    ∧ timeEntries (offlineDb w1) = timeEntries (offlineDb w)
    ∧ syncQueue (offlineDb w1) = syncQueue (offlineDb w)
    ∧ OfflineUser.id (saved_user user now existingUser (Table.nextKey tb))
      = Some id
    ∧ users (offlineDb w1)
      = match existingUser with
        | Some _ => Table.update id (apply_user user now) tb
        | None =>
            (Table.add OfflineUser.with_id
               (OfflineUser.mk None (NewUser.email user)
                               (mjoin (NewUser.name user)) now) tb).2
        end
    ∧ first_by_email (NewUser.email user) (users (offlineDb w1))
      = Some (saved_user user now existingUser (Table.nextKey tb)).
Proof.
  intros H Hk now tb existingUser. unfold saveUser, bind.
  rewrite store_op_healthy by done. cbn [fst snd]. fold tb existingUser.
  destruct existingUser as [eu|] eqn:Hfirst; unfold new_Date.
  - destruct (first_by_email_stored _ _ _ Hk Hfirst) as (He & k & Hid & Hget).
    rewrite Hid.
    rewrite store_op_healthy by (eapply healthy_host; [|exact H]; done).
    cbn. eexists _, _. split; [reflexivity|]. cbn.
    repeat split; try done.
    by apply first_by_email_update.
  - rewrite store_op_healthy by (eapply healthy_host; [|exact H]; done).
    cbn. eexists _, _. split; [reflexivity|]. cbn.
    repeat split; try done.
    by apply first_by_email_add.
Qed.

(** X7. On a healthy host, [saveUser(user)] followed by
    [getUser(user.email)] yields a user with that email, the identifier
    that [saveUser] returned, the time of the call as [lastSync], and the
    name given (a user already cached keeps its name when none is given);
    the [timeEntries] table and the sync queue are left as they are. *)
Theorem saveUser_then_getUser (user : NewUser.t) (w : World) :
  healthy w → keyed OfflineUser.id (users (offlineDb w)) →
  ∃ id w1 u w2,
    saveUser user w = (Ok id, w1)
    ∧ getUser (NewUser.email user) w1 = (Ok (Some u), w2)
    ∧ OfflineUser.id u = Some id
    ∧ OfflineUser.email u = NewUser.email user
    ∧ OfflineUser.lastSync u = Date_now (host w) (clockReads w)
    ∧ OfflineUser.name u
      = match NewUser.name user,
              first_by_email (NewUser.email user) (users (offlineDb w)) with
        | Some name, _ => name
        | None, Some existingUser => OfflineUser.name existingUser
        | None, None => None
        end
    ∧ timeEntries (offlineDb w1) = timeEntries (offlineDb w)
    ∧ syncQueue (offlineDb w1) = syncQueue (offlineDb w).
Proof.
  intros H Hk.
  destruct (saveUser_healthy user w H Hk)
    as (id & w1 & E & Hh & Ht & Hq & Hid & _ & Hfirst).
  exists id, w1. eexists _, _. split; [done|].
  unfold getUser. rewrite store_op_healthy by by eapply healthy_host.
  cbn [fst snd]. rewrite Hfirst. split; [done|]. split; [done|].
  split.
  { by destruct (first_by_email _ (users (offlineDb w))). }
  split.
  { by destruct (first_by_email _ (users (offlineDb w))). }
  split; [|done].
  destruct (first_by_email _ (users (offlineDb w))); cbn;
    by destruct (NewUser.name user) as [[?|]|].
Qed.

Lemma saveUser_then_getUser_witness :
  ∃ id w1 u w2,
    saveUser sample_user http500_world = (Ok id, w1)
    ∧ getUser (NewUser.email sample_user) w1 = (Ok (Some u), w2)
    ∧ OfflineUser.id u = Some id
    ∧ OfflineUser.email u = NewUser.email sample_user
    ∧ OfflineUser.lastSync u
      = Date_now (host http500_world) (clockReads http500_world)
    ∧ OfflineUser.name u
      = match NewUser.name sample_user,
              first_by_email (NewUser.email sample_user)
                             (users (offlineDb http500_world)) with
        | Some name, _ => name
        | None, Some existingUser => OfflineUser.name existingUser
        | None, None => None
        end
    ∧ timeEntries (offlineDb w1) = timeEntries (offlineDb http500_world)
    ∧ syncQueue (offlineDb w1) = syncQueue (offlineDb http500_world).
Proof.
  apply (saveUser_then_getUser sample_user http500_world).
  - intros n. reflexivity.
  - unfold http500_world, cached_users. cbn [offlineDb users].
    apply keyed_add; [done|apply keyed_empty].
Defined.

(** X8. On a healthy host [saveUser] never stores a second user for an
    email: if no two cached users share an email before the call, none do
    after it; the cache grows by one user when the email was unknown and
    keeps its size otherwise, and the users of other emails are left as
    they are. *)
Theorem saveUser_keeps_emails_distinct (user : NewUser.t) (w : World) :
  healthy w → keyed OfflineUser.id (users (offlineDb w)) →
  emails_distinct (users (offlineDb w)) →
  ∃ id w1,
    saveUser user w = (Ok id, w1)
    ∧ emails_distinct (users (offlineDb w1))
    ∧ Table.count (users (offlineDb w1))
      = (match first_by_email (NewUser.email user) (users (offlineDb w)) with
         | Some _ => Table.count (users (offlineDb w))
         | None => S (Table.count (users (offlineDb w)))
         end)
    ∧ (∀ k u, Table.get k (users (offlineDb w)) = Some u →
              OfflineUser.email u ≠ NewUser.email user →
              Table.get k (users (offlineDb w1)) = Some u).
Proof.
  intros H Hk Hdist.
  destruct (saveUser_healthy user w H Hk)
    as (id & w1 & E & _ & _ & _ & Hid & Husers & _).
  exists id, w1. split; [done|]. rewrite Husers. clear Husers E.
  destruct (first_by_email _ _) as [eu|] eqn:Hfirst.
  - destruct (first_by_email_stored _ _ _ Hk Hfirst) as (He & k & Hid' & Hget).
    cbn in Hid. rewrite Hid' in Hid. injection Hid as <-.
    assert (∀ k' u', Table.get k' (Table.update k (apply_user user
              (Date_now (host w) (clockReads w))) (users (offlineDb w)))
            = Some u' →
            ∃ u0, Table.get k' (users (offlineDb w)) = Some u0
                  ∧ OfflineUser.email u' = OfflineUser.email u0) as Hsame.
    { intros k' u'. unfold Table.get, Table.update. cbn.
      rewrite lookup_alter. case_decide as Hkk.
      - subst k'. unfold Table.get in Hget. rewrite Hget. cbn.
        intros [= <-]. exists eu. split; [done|]. by cbn.
      - intros Hu'. by exists u'. }
    split.
    { intros k1 k2 u1 u2 H1 H2 Hemail.
      destruct (Hsame _ _ H1) as (v1 & Hv1 & He1).
      destruct (Hsame _ _ H2) as (v2 & Hv2 & He2).
      apply (Hdist k1 k2 v1 v2 Hv1 Hv2). congruence. }
    split.
    { rewrite <- !(toArray_length OfflineUser.id) by
        (try apply keyed_update; done).
      rewrite (toArray_update OfflineUser.id) by done.
      by rewrite length_fmap. }
    intros k' u' Hget' Hne. unfold Table.get, Table.update in *. cbn.
    rewrite lookup_alter_ne; [done|]. intros <-.
    rewrite Hget in Hget'. injection Hget' as <-. done.
  - pose proof (proj1 (first_by_email_None _ _ Hk) Hfirst) as Hnone.
    split.
    { intros k1 k2 u1 u2. unfold Table.get, Table.add. cbn.
      rewrite !lookup_insert.
      repeat case_decide; subst; try done.
      - intros [= <-] H2 Hemail. cbn in Hemail.
        exfalso. by eapply Hnone.
      - intros H1 [= <-] Hemail. cbn in Hemail.
        exfalso. by eapply Hnone.
      - apply Hdist. }
    split; [by apply (count_add OfflineUser.id)|].
    intros k' u' Hget' _. unfold Table.get, Table.add in *. cbn.
    rewrite lookup_insert_ne; [done|]. intros <-.
    by rewrite (fresh_nextKey OfflineUser.id) in Hget'.
Qed.

Lemma saveUser_keeps_emails_distinct_witness :
  ∃ id w1,
    saveUser sample_user http500_world = (Ok id, w1)
    ∧ emails_distinct (users (offlineDb w1))
    ∧ Table.count (users (offlineDb w1))
      = (match first_by_email (NewUser.email sample_user)
                              (users (offlineDb http500_world)) with
         | Some _ => Table.count (users (offlineDb http500_world))
         | None => S (Table.count (users (offlineDb http500_world)))
         end)
    ∧ (∀ k u, Table.get k (users (offlineDb http500_world)) = Some u →
              OfflineUser.email u ≠ NewUser.email sample_user →
              Table.get k (users (offlineDb w1)) = Some u).
Proof.
  apply (saveUser_keeps_emails_distinct sample_user http500_world).
  - intros n. reflexivity.
  - unfold http500_world, cached_users. cbn [offlineDb users].
    apply keyed_add; [done|apply keyed_empty].
  - intros k1 k2 u1 u2. unfold Table.get. cbn.
    rewrite !lookup_insert. repeat case_decide; subst; try done;
      by rewrite lookup_empty.
Defined.

(** X9. On a healthy host, [updateLastSyncTime(userId)] followed by
    [getLastSyncTime(userId)] yields the time of the update when a user is
    cached under that email; when none is, the update changes nothing and
    the answer is [null].  Neither touches the [timeEntries] table or the
    sync queue. *)
Theorem updateLastSyncTime_then_get (userId : string) (w : World) :
  healthy w → keyed OfflineUser.id (users (offlineDb w)) →
  ∃ w1 w2,
    updateLastSyncTime userId w = (Ok tt, w1)
    ∧ getLastSyncTime userId w1
      = (Ok (match first_by_email userId (users (offlineDb w)) with
             | Some _ => Some (Date_now (host w) (clockReads w))
             | None => None
             end), w2)
    ∧ (first_by_email userId (users (offlineDb w)) = None →
       users (offlineDb w1) = users (offlineDb w))
    ∧ timeEntries (offlineDb w2) = timeEntries (offlineDb w)
    ∧ syncQueue (offlineDb w2) = syncQueue (offlineDb w).
Proof.
  intros H Hk. unfold updateLastSyncTime, getLastSyncTime, bind.
  rewrite store_op_healthy by done. cbn [fst snd].
  destruct (first_by_email userId (users (offlineDb w))) as [u|] eqn:Hfirst.
  - destruct (first_by_email_stored _ _ _ Hk Hfirst) as (He & k & Hid & Hget).
    unfold new_Date. rewrite Hid.
    rewrite store_op_healthy by (eapply healthy_host; [|exact H]; done).
    eexists _, _. split; [reflexivity|].
    rewrite store_op_healthy by (eapply healthy_host; [|exact H]; done).
    cbn.
    rewrite (first_by_email_update userId _ u k) by done.
    done.
  - eexists _, _. split; [reflexivity|].
    rewrite store_op_healthy by (eapply healthy_host; [|exact H]; done).
    cbn. by rewrite Hfirst.
Qed.

Lemma updateLastSyncTime_then_get_witness :
  ∃ w1 w2,
    updateLastSyncTime "u1" http500_world = (Ok tt, w1)
    ∧ getLastSyncTime "u1" w1
      = (Ok (match first_by_email "u1"
                                  (users (offlineDb http500_world)) with
             | Some _ => Some (Date_now (host http500_world)
                                        (clockReads http500_world))
             | None => None
             end), w2)
    ∧ (first_by_email "u1" (users (offlineDb http500_world)) = None →
       users (offlineDb w1) = users (offlineDb http500_world))
    ∧ timeEntries (offlineDb w2) = timeEntries (offlineDb http500_world)
    ∧ syncQueue (offlineDb w2) = syncQueue (offlineDb http500_world).
Proof.
  apply (updateLastSyncTime_then_get "u1" http500_world).
  - intros n. reflexivity.
  - unfold http500_world, cached_users. cbn [offlineDb users].
    apply keyed_add; [done|apply keyed_empty].
Defined.

(** ** Unsynced entries and conflicts *)

Lemma where_userId_update userId p k f tb :
  keyed OfflineTimeEntry.id tb →
  where_userId userId p (Table.update k f tb)
  = filter (λ e, OfflineTimeEntry.userId e = userId ∧ p e = true)
      ((λ v, if decide (OfflineTimeEntry.id v = Some k) then f v else v)
         <$> Table.toArray tb).
Proof.
  intros Hk. unfold where_userId.
  by rewrite (toArray_update OfflineTimeEntry.id).
Qed.

Lemma where_userId_add userId p v tb :
  keyed OfflineTimeEntry.id tb →
  where_userId userId p (Table.add OfflineTimeEntry.with_id v tb).2
  = where_userId userId p tb
    ++ filter (λ e, OfflineTimeEntry.userId e = userId ∧ p e = true)
         [OfflineTimeEntry.with_id (Table.nextKey tb) v].
Proof.
  intros Hk. unfold where_userId.
  by rewrite (toArray_add OfflineTimeEntry.id), filter_app.
Qed.

Lemma where_userId_delete userId p k tb :
  keyed OfflineTimeEntry.id tb →
  where_userId userId p (Table.delete k tb)
  = filter (λ e, OfflineTimeEntry.id e ≠ Some k) (where_userId userId p tb).
Proof.
  intros Hk. unfold where_userId.
  rewrite (toArray_delete OfflineTimeEntry.id) by done.
  induction (Table.toArray tb) as [|v l IH]; [done|].
  rewrite !filter_cons.
  repeat (case_decide; rewrite ?filter_cons); try done;
    try (f_equal; done); tauto.
Qed.

(** X10. On a healthy host, after [markEntrySynced(id)] the entries that
    [getUnsyncedEntries(userId)] returns are those it returned before
    without the entry [id]; the entry itself is kept, marked synced, and
    no queue entry is added. *)
Theorem markEntrySynced_then_unsynced (id : Z) (userId : string)
    (w : World) :
  healthy w → keyed OfflineTimeEntry.id (timeEntries (offlineDb w)) →
  ∃ before w0 w1 w2,
    getUnsyncedEntries userId w = (Ok before, w0)
    ∧ markEntrySynced id w = (Ok tt, w1)
    ∧ getUnsyncedEntries userId w1
      = (Ok (filter (λ e, OfflineTimeEntry.id e ≠ Some id) before), w2)
    ∧ Table.get id (timeEntries (offlineDb w1))
      = with_synced true <$> Table.get id (timeEntries (offlineDb w))
    ∧ syncQueue (offlineDb w1) = syncQueue (offlineDb w).
Proof.
  intros H Hk. unfold getUnsyncedEntries, markEntrySynced.
  rewrite !store_op_healthy by done.
  eexists _, _, _, _. split; [reflexivity|]. split; [reflexivity|].
  rewrite store_op_healthy by (eapply healthy_host; [|exact H]; done).
  cbn [fst snd offlineDb set_db timeEntries set_timeEntries syncQueue].
  split; [|split; [unfold Table.get; cbn; apply lookup_alter_eq|done]].
  f_equal. f_equal. rewrite where_userId_update by done.
  unfold where_userId.
  induction (Table.toArray _) as [|v l IH]; [done|].
  rewrite fmap_cons, !filter_cons, IH. clear IH.
  destruct v as [vid vu vd vs ve vh vst vp vc vsy vca vua].
  cbn. repeat (case_decide; cbn in *; rewrite ?filter_cons);
    try done; try (f_equal; done); try tauto;
    try (destruct_and?; simplify_eq; done).
Qed.

Lemma markEntrySynced_then_unsynced_witness :
  ∃ before w0 w1 w2,
    getUnsyncedEntries "u1" conflict_world = (Ok before, w0)
    ∧ markEntrySynced 1 conflict_world = (Ok tt, w1)
    ∧ getUnsyncedEntries "u1" w1
      = (Ok (filter (λ e, OfflineTimeEntry.id e ≠ Some 1) before), w2)
    ∧ Table.get 1 (timeEntries (offlineDb w1))
      = with_synced true
          <$> Table.get 1 (timeEntries (offlineDb conflict_world))
    ∧ syncQueue (offlineDb w1) = syncQueue (offlineDb conflict_world).
Proof.
  apply (markEntrySynced_then_unsynced 1 "u1" conflict_world).
  - intros n. reflexivity.
  - unfold conflict_world. cbn [offlineDb timeEntries].
    apply keyed_add; [done|apply keyed_empty].
Defined.

Lemma getConflicts_healthy userId w :
  healthy w →
  getConflicts userId w
  = (Ok (filter (λ entry, OfflineTimeEntry.createdAt entry
                          < OfflineTimeEntry.updatedAt entry)
           (where_userId userId
              (λ entry, negb (OfflineTimeEntry.synced entry))
              (timeEntries (offlineDb w)))),
     set_db (offlineDb w) (tick_store w)).
Proof.
  intros H. unfold getConflicts, getUnsyncedEntries, bind.
  by rewrite store_op_healthy.
Qed.

(** X11. On a healthy host, the entry that [addTimeEntry] stores is
    returned by [getUnsyncedEntries] for its user, after the entries
    returned before, and is not a conflict: [getConflicts] returns what it
    returned before the call. *)
Theorem added_entry_unsynced_not_conflict (entry : NewTimeEntry.t)
    (w : World) :
  healthy w → keyed OfflineTimeEntry.id (timeEntries (offlineDb w)) →
  let userId := NewTimeEntry.userId entry in
  ∃ id w1 stored unsynced conflicts w2 w3 w4 w5,
    addTimeEntry entry w = (Ok id, w1)
    ∧ Table.get id (timeEntries (offlineDb w1)) = Some stored
    ∧ OfflineTimeEntry.synced stored = false
    ∧ getUnsyncedEntries userId w = (Ok unsynced, w2)
    ∧ getUnsyncedEntries userId w1 = (Ok (unsynced ++ [stored]), w3)
    ∧ getConflicts userId w = (Ok conflicts, w4)
    ∧ getConflicts userId w1 = (Ok conflicts, w5)
    ∧ stored ∉ conflicts.
Proof.
  intros H Hk userId.
  pose proof (addTimeEntry_healthy w entry H) as E. cbn zeta in E.
  set (now := Date_now (host w) (clockReads w)) in *.
  set (id := Table.nextKey (timeEntries (offlineDb w))) in *.
  set (stored := OfflineTimeEntry.with_id id (fresh_entry entry now)) in *.
  set (w1 := enqueue _ _) in E.
  assert (healthy w1) as H1 by (eapply healthy_host; [|exact H]; done).
  assert (timeEntries (offlineDb w1)
          = (Table.add OfflineTimeEntry.with_id (fresh_entry entry now)
                       (timeEntries (offlineDb w))).2) as Ht1 by done.
  assert (∀ p, p stored = true →
            where_userId userId p (timeEntries (offlineDb w1))
            = where_userId userId p (timeEntries (offlineDb w)) ++ [stored])
    as Hadd.
  { intros p Hp. rewrite Ht1, where_userId_add by done.
    fold id stored. by rewrite filter_cons_True. }
  exists id, w1, stored. eexists _, _, _, _, _, _.
  split; [exact E|].
  split; [rewrite Ht1; unfold Table.get, Table.add; cbn;
          apply lookup_insert_eq|].
  split; [done|].
  unfold getUnsyncedEntries. rewrite !store_op_healthy by done.
  cbn [fst snd]. split; [reflexivity|].
  split; [by rewrite Hadd|].
  rewrite !getConflicts_healthy by done.
  split; [reflexivity|].
  split.
  { rewrite Hadd by done. rewrite filter_app, filter_cons_False.
    - by rewrite filter_nil, app_nil_r.
    - cbn. lia. }
  intros Hin. apply list_elem_of_filter in Hin as [_ Hin].
  unfold where_userId in Hin. apply list_elem_of_filter in Hin as [_ Hin].
  apply (elem_of_toArray OfflineTimeEntry.id) in Hin as [k Hget]; [|done].
  pose proof Hk as [_ Hrows]. apply Hrows in Hget as [Hlt Hid].
  cbn in Hid. injection Hid as <-. unfold id in Hlt. lia.
Qed.

Lemma added_entry_unsynced_not_conflict_witness :
  let userId := NewTimeEntry.userId sample_new_entry in
  ∃ id w1 stored unsynced conflicts w2 w3 w4 w5,
    addTimeEntry sample_new_entry conflict_world = (Ok id, w1)
    ∧ Table.get id (timeEntries (offlineDb w1)) = Some stored
    ∧ OfflineTimeEntry.synced stored = false
    ∧ getUnsyncedEntries userId conflict_world = (Ok unsynced, w2)
    ∧ getUnsyncedEntries userId w1 = (Ok (unsynced ++ [stored]), w3)
    ∧ getConflicts userId conflict_world = (Ok conflicts, w4)
    ∧ getConflicts userId w1 = (Ok conflicts, w5)
    ∧ stored ∉ conflicts.
Proof.
  apply (added_entry_unsynced_not_conflict sample_new_entry conflict_world).
  - intros n. reflexivity.
  - unfold conflict_world. cbn [offlineDb timeEntries].
    apply keyed_add; [done|apply keyed_empty].
Defined.

(** X12. For a conflicted entry on a healthy host whose clock is past the
    creation of the entry: after [resolveConflict(entryId, "local")] the
    entry, with its new [updatedAt], is still among the conflicts that
    [getConflicts] reports for its user; after
    [resolveConflict(entryId, "server")] the conflicts reported are those
    reported before without the entry. *)
Theorem resolveConflict_then_getConflicts (entryId : Z)
    (entry : OfflineTimeEntry.t) (w : World) :
  healthy w →
  keyed OfflineTimeEntry.id (timeEntries (offlineDb w)) →
  Table.get entryId (timeEntries (offlineDb w)) = Some entry →
  conflicted entry →
  OfflineTimeEntry.createdAt entry < Date_now (host w) (clockReads w) →
  let userId := OfflineTimeEntry.userId entry in
  let now := Date_now (host w) (clockReads w) in
  ∃ before w0,
    getConflicts userId w = (Ok before, w0)
    ∧ entry ∈ before
    ∧ (∃ w1 after w2,
         resolveConflict entryId Resolution.local w = (Ok tt, w1)
         ∧ getConflicts userId w1 = (Ok after, w2)
         ∧ with_updatedAt now entry ∈ after)
    ∧ (∃ w1 w2,
         resolveConflict entryId Resolution.server w = (Ok tt, w1)
         ∧ getConflicts userId w1
           = (Ok (filter (λ e, OfflineTimeEntry.id e ≠ Some entryId) before),
              w2)).
Proof.
  intros H Hk Hget [Hsynced Hlate] Hclock userId now.
  pose proof (proj1 (toArray_ids OfflineTimeEntry.id _ _ _ Hk) Hget)
    as [Hin Hid].
  rewrite getConflicts_healthy by done. eexists _, _.
  split; [reflexivity|].
  split.
  { apply list_elem_of_filter. split; [done|].
    unfold where_userId. apply list_elem_of_filter.
    split; [|done]. split; [done|]. by rewrite Hsynced. }
  split.
  - unfold resolveConflict, bind. rewrite store_op_healthy by done.
    cbn [fst snd]. rewrite Hget.
    rewrite updateTimeEntry_healthy
      by (eapply healthy_host; [|exact H]; done).
    eexists _, _, _. split; [reflexivity|].
    rewrite getConflicts_healthy
      by (eapply healthy_host; [|exact H]; done).
    split; [reflexivity|].
    cbn [offlineDb enqueue updated set_db set_timeEntries timeEntries
         tick_store tick_clock host clockReads].
    fold now. apply list_elem_of_filter. split; [cbn; done|].
    cbn [timeEntries set_syncQueue set_timeEntries].
    rewrite where_userId_update by done.
    apply list_elem_of_filter. split; [by cbn; rewrite Hsynced|].
    apply list_elem_of_fmap. exists entry. split; [|done].
    rewrite decide_True by done.
    by rewrite apply_stamped_of_entry.
  - unfold resolveConflict. rewrite store_op_healthy by done.
    eexists _, _. split; [reflexivity|].
    rewrite getConflicts_healthy
      by (eapply healthy_host; [|exact H]; done).
    f_equal. f_equal.
    cbn [fst snd offlineDb set_db set_timeEntries timeEntries].
    rewrite where_userId_delete by done.
    rewrite !list_filter_filter. apply list_filter_iff. tauto.
Qed.

Lemma resolveConflict_then_getConflicts_witness :
  let entry := OfflineTimeEntry.with_id 1 conflict_entry in
  let userId := OfflineTimeEntry.userId entry in
  ∃ before w0,
    getConflicts userId conflict_world = (Ok before, w0)
    ∧ entry ∈ before
    ∧ (∃ w1 after w2,
         resolveConflict 1 Resolution.local conflict_world = (Ok tt, w1)
         ∧ getConflicts userId w1 = (Ok after, w2)
         ∧ with_updatedAt 1000 entry ∈ after)
    ∧ (∃ w1 w2,
         resolveConflict 1 Resolution.server conflict_world = (Ok tt, w1)
         ∧ getConflicts userId w1
           = (Ok (filter (λ e, OfflineTimeEntry.id e ≠ Some 1) before), w2)).
Proof.
  apply (resolveConflict_then_getConflicts 1
           (OfflineTimeEntry.with_id 1 conflict_entry) conflict_world).
  - intros n. reflexivity.
  - unfold conflict_world. cbn [offlineDb timeEntries].
    apply keyed_add; [done|apply keyed_empty].
  - reflexivity.
  - split; [reflexivity|]. cbn. lia.
  - cbn. lia.
Defined.

(** ** Clearing the queue *)

Lemma toArray_no_rows {A} (tb : Table.t A) :
  Table.rows tb = ∅ → Table.toArray tb = [].
Proof.
  intros Hempty. unfold Table.toArray. rewrite Hempty.
  induction (seqZ _ _) as [|k ks IH]; [done|]. cbn. by rewrite lookup_empty.
Qed.

(** X13. On a healthy host [clearPendingData] discards every pending item
    without replaying it: afterwards [getPendingSyncItems] returns the
    empty list, and the next call of [syncPendingData] returns [true]
    without a gateway call or a pause; the [timeEntries] and [users]
    tables are left as they are. *)
Theorem clearPendingData_discards (w : World) :
  healthy w → syncInProgress w = false →
  ∃ w1 w2 w3,
    clearPendingData w = (Ok tt, w1)
    ∧ timeEntries (offlineDb w1) = timeEntries (offlineDb w)
    ∧ users (offlineDb w1) = users (offlineDb w)
    ∧ getPendingSyncItems w1 = (Ok [], w2)
    ∧ syncPendingData w1 = (Ok true, w3)
    ∧ requests w3 = requests w
    ∧ delays w3 = delays w
    ∧ offlineDb w3 = offlineDb w1.
Proof.
  intros H Hidle. unfold clearPendingData, clearSyncQueue.
  rewrite store_op_healthy by done. cbn [fst snd].
  set (w1 := set_db _ _).
  assert (healthy w1) as H1 by (eapply healthy_host; [|exact H]; done).
  assert (orderBy_timestamp (syncQueue (offlineDb w1)) = []) as Hnone.
  { unfold orderBy_timestamp. by rewrite toArray_no_rows. }
  exists w1. eexists _, _. split; [done|]. split; [done|]. split; [done|].
  rewrite getPendingSyncItems_healthy by done. rewrite Hnone.
  split; [reflexivity|].
  rewrite syncPendingData_idle by done. unfold sync_pass, bind.
  rewrite getPendingSyncItems_healthy
    by (eapply healthy_host; [|exact H1]; done).
  cbn [offlineDb set_syncInProgress set_db]. fold w1. rewrite Hnone.
  cbn. done.
Qed.

Lemma clearPendingData_discards_witness :
  ∃ w1 w2 w3,
    clearPendingData drain_world = (Ok tt, w1)
    ∧ timeEntries (offlineDb w1) = timeEntries (offlineDb drain_world)
    ∧ users (offlineDb w1) = users (offlineDb drain_world)
    ∧ getPendingSyncItems w1 = (Ok [], w2)
    ∧ syncPendingData w1 = (Ok true, w3)
    ∧ requests w3 = requests drain_world
    ∧ delays w3 = delays drain_world
    ∧ offlineDb w3 = offlineDb w1.
Proof.
  apply (clearPendingData_discards drain_world).
  - intros n. reflexivity.
  - reflexivity.
Defined.

(** ** Downloading an entry twice *)

(** X14. On a healthy host, processing the same server entry a second
    time changes nothing: after [downloadServerData] has handled an entry
    once, a local entry with its user, date and start exists, and handling
    it again leaves the [timeEntries] table as it is. *)
Theorem server_entry_twice (userId : string) (entry : ServerTimeEntry.t)
    (w : World) :
  healthy w →
  keyed OfflineTimeEntry.id (timeEntries (offlineDb w)) →
  ∃ w1 w2,
    store_server_entry userId entry w = (Ok tt, w1)
    ∧ has_slot userId entry (timeEntries (offlineDb w1))
    ∧ store_server_entry userId entry w1 = (Ok tt, w2)
    ∧ timeEntries (offlineDb w2) = timeEntries (offlineDb w1).
Proof.
  intros H Hk.
  assert (∀ w0, healthy w0 →
            keyed OfflineTimeEntry.id (timeEntries (offlineDb w0)) →
            has_slot userId entry (timeEntries (offlineDb w0)) →
            ∃ w', store_server_entry userId entry w0 = (Ok tt, w')
                  ∧ timeEntries (offlineDb w') = timeEntries (offlineDb w0))
    as Hskip.
  { intros w0 H0 Hk0 Hslot. unfold store_server_entry, bind.
    rewrite store_op_healthy by done. cbn [fst snd].
    apply (existing_slot userId entry _ Hk0) in Hslot as [e ->].
    eexists. split; [reflexivity|done]. }
  destruct (decide (is_Some (head (where_userId userId
              (same_slot (offlineEntry_of userId entry))
              (timeEntries (offlineDb w)))))) as [Hsome|Hnone].
  - pose proof (proj1 (existing_slot userId entry _ Hk) Hsome) as Hslot.
    destruct (Hskip w H Hk Hslot) as (w1 & E1 & Ht1).
    assert (healthy w1) as H1.
    { eapply healthy_host; [|exact H].
      pose proof (store_server_entry_host userId entry w) as Hh.
      by rewrite E1 in Hh. }
    rewrite <- Ht1 in Hk, Hslot.
    destruct (Hskip w1 H1 Hk Hslot) as (w2 & E2 & Ht2).
    by exists w1, w2.
  - unfold store_server_entry at 1, bind.
    rewrite store_op_healthy by done. cbn [fst snd].
    destruct (head _) as [e|]; [destruct Hnone; eauto|].
    rewrite store_op_healthy by (eapply healthy_host; [|exact H]; done).
    cbn [fst snd].
    match goal with |- ∃ _ _, (_, ?W) = _ ∧ _ => set (w1 := W) end.
    assert (healthy w1) as H1 by (eapply healthy_host; [|exact H]; done).
    assert (keyed OfflineTimeEntry.id (timeEntries (offlineDb w1))) as Hk1.
    { unfold w1. cbn. by apply keyed_add. }
    assert (has_slot userId entry (timeEntries (offlineDb w1))) as Hslot.
    { eexists _, _. split.
      { unfold w1, Table.get. cbn. apply lookup_insert_eq. }
      done. }
    destruct (Hskip w1 H1 Hk1 Hslot) as (w2 & E2 & Ht2).
    by exists w1, w2.
Qed.

Lemma server_entry_twice_witness :
  ∃ w1 w2,
    store_server_entry "u1" server_new march_world = (Ok tt, w1)
    ∧ has_slot "u1" server_new (timeEntries (offlineDb w1))
    ∧ store_server_entry "u1" server_new w1 = (Ok tt, w2)
    ∧ timeEntries (offlineDb w2) = timeEntries (offlineDb w1).
Proof.
  apply (server_entry_twice "u1" server_new march_world).
  - intros n. reflexivity.
  - exact keyed_march_timeEntries.
Defined.

(** ** The identifiers of added entries *)

Lemma run_mutation_nextKey m w :
  healthy w →
  ∃ id w',
    run_mutation m w = (Ok id, w')
    ∧ host w' = host w
    ∧ match m with
      | Add _ =>
          id = Table.nextKey (timeEntries (offlineDb w))
          ∧ Table.nextKey (timeEntries (offlineDb w')) = id + 1
      | _ =>
          Table.nextKey (timeEntries (offlineDb w'))
          = Table.nextKey (timeEntries (offlineDb w))
      end.
Proof.
  intros H. destruct m as [entry|id updates|id]; cbn [run_mutation].
  - pose proof (addTimeEntry_healthy w entry H) as E. cbn zeta in E.
    eexists _, _. split; [exact E|]. done.
  - unfold bind. rewrite updateTimeEntry_healthy by done.
    eexists _, _. split; [reflexivity|]. done.
  - unfold bind. rewrite deleteTimeEntry_healthy by done.
    eexists _, _. split; [reflexivity|]. done.
Qed.

(** X15. On a healthy host, the identifiers that the [addTimeEntry] calls
    of a mutation sequence return are strictly increasing, whatever
    updates and deletes come in between, and none of them is the key of a
    record stored before the sequence: an identifier is never handed out
    twice, not even after its record was deleted. *)
Theorem added_ids_never_reused (ms : list Mutation) (w : World) :
  healthy w →
  keyed OfflineTimeEntry.id (timeEntries (offlineDb w)) →
  ∃ ids w',
    run_mutations ms w = (Ok ids, w')
    ∧ length ids = length ms
    ∧ StronglySorted Z.lt (added_ids ms ids)
    ∧ Forall (λ id, Table.get id (timeEntries (offlineDb w)) = None)
             (added_ids ms ids).
Proof.
  intros H Hk.
  assert (∃ ids w',
            run_mutations ms w = (Ok ids, w')
            ∧ length ids = length ms
            ∧ StronglySorted Z.lt (added_ids ms ids)
            ∧ Forall (λ id, Table.nextKey (timeEntries (offlineDb w)) ≤ id)
                     (added_ids ms ids)) as (ids & w' & E & Hlen & Hs & Hge).
  { clear Hk. revert w H. induction ms as [|m ms IH]; intros w H.
    - exists [], w. repeat split; constructor.
    - destruct (run_mutation_nextKey m w H) as (id & w1 & E1 & Hh1 & Hm).
      destruct (IH w1 (healthy_host _ _ Hh1 H))
        as (ids & w2 & E2 & Hlen & Hs & Hge).
      exists (id :: ids), w2. cbn [run_mutations]. unfold bind at 1.
      rewrite E1. unfold bind at 1. rewrite E2.
      split; [done|]. split; [cbn; by rewrite Hlen|].
      destruct m as [entry|id' updates|id']; cbn [added_ids].
      + destruct Hm as [-> Hnext]. split.
        * constructor; [done|]. eapply Forall_impl; [exact Hge|].
          intros x. cbn. lia.
        * constructor; [lia|]. eapply Forall_impl; [exact Hge|].
          intros x. cbn. lia.
      + split; [done|]. by rewrite <- Hm.
      + split; [done|]. by rewrite <- Hm. }
  exists ids, w'. split; [done|]. split; [done|]. split; [done|].
  eapply Forall_impl; [exact Hge|]. intros id Hid. cbn in Hid.
  destruct (Table.get id _) as [e|] eqn:Hget; [|done].
  destruct Hk as [_ Hrows]. apply Hrows in Hget. lia.
Qed.

Lemma added_ids_never_reused_witness :
  ∃ ids w',
    run_mutations [Add sample_new_entry; Delete 1; Add sample_new_entry]
                  (fresh_world quiet_host) = (Ok ids, w')
    ∧ length ids = 3%nat
    ∧ StronglySorted Z.lt
        (added_ids [Add sample_new_entry; Delete 1; Add sample_new_entry] ids)
    ∧ Forall (λ id, Table.get id (timeEntries
                                    (offlineDb (fresh_world quiet_host)))
                    = None)
        (added_ids [Add sample_new_entry; Delete 1; Add sample_new_entry]
                   ids).
Proof.
  apply (added_ids_never_reused
           [Add sample_new_entry; Delete 1; Add sample_new_entry]
           (fresh_world quiet_host)).
  - intros n. reflexivity.
  - apply keyed_empty.
Defined.

(** ** Searching by participant *)

Lemma lower_ascii_idemp c : JS.lower_ascii (JS.lower_ascii c) = JS.lower_ascii c.
Proof. by destruct c as [[] [] [] [] [] [] [] []]. Qed.

Lemma lower_ascii_space c : JSString.is_space (JS.lower_ascii c) = JSString.is_space c.
Proof. by destruct c as [[] [] [] [] [] [] [] []]. Qed.

Lemma toLowerCase_idemp s : JS.toLowerCase (JS.toLowerCase s) = JS.toLowerCase s.
Proof.
  induction s as [|c s IH]; [done|]. cbn. by rewrite lower_ascii_idemp, IH.
Qed.

Lemma trimStart_blank s :
  JSString.trimStart s = EmptyString ↔ all_spaces s = true.
Proof.
  induction s as [|c s IH]; [done|]. cbn.
  destruct (JSString.is_space c); cbn; [done|]. split; discriminate.
Qed.

Lemma trimEnd_blank s :
  JSString.trimEnd s = EmptyString ↔ all_spaces s = true.
Proof.
  induction s as [|c s IH]; [done|]. cbn.
  destruct (JSString.trimEnd s) as [|c' s'] eqn:E.
  - destruct (JSString.is_space c); cbn.
    + rewrite <- IH. done.
    + split; discriminate.
  - split; [discriminate|]. rewrite andb_true_iff. intros [_ Hs].
    apply IH in Hs. discriminate.
Qed.

Lemma trimStart_spaces s :
  all_spaces (JSString.trimStart s) = all_spaces s.
Proof.
  induction s as [|c s IH]; [done|]. cbn.
  destruct (JSString.is_space c) eqn:E; cbn; [done|]. by rewrite E.
Qed.

(** [!s.trim()] holds exactly for the strings of white space. *)
Lemma trim_blank s : JSString.trim s = EmptyString ↔ all_spaces s = true.
Proof. unfold JSString.trim. by rewrite trimEnd_blank, trimStart_spaces. Qed.

Lemma all_spaces_lower s : all_spaces (JS.toLowerCase s) = all_spaces s.
Proof.
  induction s as [|c s IH]; [done|]. cbn. by rewrite lower_ascii_space, IH.
Qed.

Lemma startsWith_spec s t :
  JSString.startsWith s t = true ↔ ∃ post, s = (t +:+ post)%string.
Proof.
  revert s. induction t as [|b t IH]; intros s; cbn.
  - destruct s; (split; [intros _; by eexists|done]).
  - destruct s as [|a s]; cbn.
    + split; [done|]. by intros [post ?].
    + rewrite andb_true_iff, Ascii.eqb_eq, IH. split.
      * intros [-> [post ->]]. eauto.
      * intros [post [= -> ->]]. eauto.
Qed.

Lemma includes_spec s t :
  JSString.includes s t = true
  ↔ ∃ pre post, s = (pre +:+ t +:+ post)%string.
Proof.
  induction s as [|a s IH]; cbn [JSString.includes].
  - rewrite orb_false_r, startsWith_spec. split.
    + intros [post ->]. by exists EmptyString, post.
    + intros (pre & post & Hs). destruct pre; [by exists post|done].
  - rewrite orb_true_iff, IH, startsWith_spec. split.
    + intros [[post ->]|(pre & post & ->)].
      * by exists EmptyString, post.
      * by exists (String a pre), post.
    + intros (pre & post & Hs). destruct pre as [|c pre].
      * left. by exists post.
      * right. cbn in Hs. injection Hs as -> ->. eauto.
Qed.

(** ** Names and their case *)

Lemma lower_ascii_same a b :
  JS.lower_ascii a = JS.lower_ascii b ↔ same_letter a b.
Proof.
  unfold JS.lower_ascii, same_letter.
  pose proof (N_ascii_bounded a) as Ha. pose proof (N_ascii_bounded b) as Hb.
  assert (∀ x y, N_of_ascii x = N_of_ascii y → x = y) as Hinj.
  { intros x y E. rewrite <- (ascii_N_embedding x), <- (ascii_N_embedding y).
    by rewrite E. }
  destruct ((65 <=? N_of_ascii a)%N && (N_of_ascii a <=? 90)%N) eqn:Ea;
    destruct ((65 <=? N_of_ascii b)%N && (N_of_ascii b <=? 90)%N) eqn:Eb;
    repeat match goal with
           | H : _ && _ = true |- _ =>
               apply andb_true_iff in H; rewrite !N.leb_le in H
           | H : _ && _ = false |- _ =>
               apply andb_false_iff in H; rewrite !N.leb_gt in H
           end.
  - split.
    + intros E. left. apply Hinj.
      apply (f_equal N_of_ascii) in E.
      do 2 rewrite N_ascii_embedding in E by lia. lia.
    + intros [->|[[_ E]|[_ E]]]; [done|lia|lia].
  - split.
    + intros E. right. left. split; [lia|].
      rewrite <- E. rewrite N_ascii_embedding by lia. done.
    + intros [->|[[_ E]|[? E]]]; [lia| |lia].
      apply Hinj. rewrite N_ascii_embedding by lia. done.
  - split.
    + intros E. right. right. split; [lia|].
      rewrite E. rewrite N_ascii_embedding by lia. done.
    + intros [->|[[? E]|[_ E]]]; [lia|lia|].
      apply Hinj. rewrite N_ascii_embedding by lia. done.
  - split.
    + intros ->. by left.
    + intros [->|[[? E]|[? E]]]; [done|lia|lia].
Qed.

Lemma toLowerCase_same s t :
  JS.toLowerCase s = JS.toLowerCase t ↔ same_ignoring_case s t.
Proof.
  revert t. induction s as [|a s IH]; intros [|b t]; cbn; try done.
  rewrite <- IH, <- lower_ascii_same. split.
  - by intros [= -> ->].
  - by intros [-> ->].
Qed.

Lemma toLowerCase_app s t :
  JS.toLowerCase (s +:+ t) = (JS.toLowerCase s +:+ JS.toLowerCase t)%string.
Proof.
  induction s as [|a s IH]; simpl; [done|]. rewrite IH. reflexivity.
Qed.

Lemma toLowerCase_split s a b :
  JS.toLowerCase s = (a +:+ b)%string →
  ∃ s1 s2, s = (s1 +:+ s2)%string
           ∧ JS.toLowerCase s1 = a ∧ JS.toLowerCase s2 = b.
Proof.
  revert s. induction a as [|c a IH]; intros s E.
  - by exists EmptyString, s.
  - destruct s as [|d s]; [done|]. simpl in E. injection E as Hc E.
    destruct (IH s E) as (s1 & s2 & -> & H1 & H2).
    exists (String d s1), s2. simpl. by rewrite Hc, H1.
Qed.

(** A name occurs in a participant name up to case exactly when its
    lower-cased form occurs in the lower-cased participant name. *)
Lemma includes_ignoring_case study name :
  (∃ pre post,
     JS.toLowerCase study
     = (pre +:+ JS.toLowerCase name +:+ post)%string)
  ↔ ∃ pre mid post,
      study = (pre +:+ mid +:+ post)%string ∧ same_ignoring_case mid name.
Proof.
  split.
  - intros (pre & post & E).
    apply toLowerCase_split in E as (s1 & s2 & -> & H1 & E).
    apply toLowerCase_split in E as (s3 & s4 & -> & H3 & H4).
    exists s1, s3, s4. split; [done|]. by apply toLowerCase_same.
  - intros (pre & mid & post & -> & Hmid).
    apply toLowerCase_same in Hmid.
    exists (JS.toLowerCase pre), (JS.toLowerCase post).
    by rewrite !toLowerCase_app, Hmid.
Qed.

(** ** The search *)

Lemma search_healthy userId year participantName w :
  healthy w → all_spaces participantName = false →
  searchEntriesByParticipant userId year participantName w
  = (Ok (List.filter (matches_participant participantName)
           (where_userId userId
              (in_range (JS.Date year 0 1 0 0 0)
                        (JS.Date year 11 31 23 59 59))
              (timeEntries (offlineDb w)))),
     set_db (offlineDb w) (tick_store w)).
Proof.
  intros H Hblank. unfold searchEntriesByParticipant.
  rewrite bool_decide_eq_false_2.
  - unfold bind. by rewrite store_op_healthy.
  - rewrite trim_blank. by rewrite Hblank.
Qed.

(** X16. [searchEntriesByParticipant] with a name of white space only
    (or the empty name) returns the empty list without reading the store,
    whatever the host does: the world is left exactly as it is. *)
Theorem search_blank_name (userId : string) (year : Z)
    (participantName : string) (w : World) :
  all_spaces participantName = true →
  searchEntriesByParticipant userId year participantName w = (Ok [], w).
Proof.
  intros Hblank. unfold searchEntriesByParticipant.
  by rewrite bool_decide_eq_true_2 by by apply trim_blank.
Qed.

Lemma search_blank_name_witness :
  searchEntriesByParticipant "u1" 2024 "  " broken_world
  = (Ok [], broken_world).
Proof. apply (search_blank_name "u1" 2024 "  " broken_world). reflexivity. Defined.

(** X17. On a healthy host, for a search name and participant names of
    ASCII characters, the name not blank, [searchEntriesByParticipant]
    returns, in the order of [getTimeEntriesByYear], exactly the entries
    of the year that have a participant in whose name the search name
    occurs up to the case of the letters, which is to say whose
    lower-cased name contains the lower-cased search name; the answer does
    not depend on the case of the search name. *)
Theorem search_finds_matches (userId : string) (year : Z)
    (participantName : string) (w : World) :
  healthy w → all_spaces participantName = false →
  is_ascii participantName = true →
  ascii_participants (timeEntries (offlineDb w)) →
  ∃ entries found w',
    getTimeEntriesByYear userId year w = (Ok entries, w')
    ∧ searchEntriesByParticipant userId year participantName w
      = (Ok found, w')
    ∧ found `sublist_of` entries
    ∧ (∀ entry, entry ∈ found
         ↔ entry ∈ entries
           ∧ ∃ study pre post,
               study ∈ OfflineTimeEntry.studies entry
               ∧ JS.toLowerCase study
                 = (pre +:+ JS.toLowerCase participantName +:+ post)%string)
    ∧ (∀ entry, entry ∈ found
         ↔ entry ∈ entries
           ∧ ∃ study pre mid post,
               study ∈ OfflineTimeEntry.studies entry
               ∧ study = (pre +:+ mid +:+ post)%string
               ∧ same_ignoring_case mid participantName)
    ∧ searchEntriesByParticipant userId year
        (JS.toLowerCase participantName) w = (Ok found, w').
Proof.
  intros H Hblank _ _. unfold getTimeEntriesByYear.
  rewrite store_op_healthy by done. cbn [fst snd].
  rewrite !search_healthy by (by rewrite ?all_spaces_lower).
  eexists _, _, _. split; [reflexivity|]. split; [reflexivity|].
  split.
  { induction (where_userId _ _ _) as [|e l IH]; [done|]. cbn.
    destruct (matches_participant _ _); by constructor. }
  assert (∀ entry,
            entry ∈ List.filter (matches_participant participantName)
                      (where_userId userId
                         (in_range (JS.Date year 0 1 0 0 0)
                                   (JS.Date year 11 31 23 59 59))
                         (timeEntries (offlineDb w)))
            ↔ entry ∈ where_userId userId
                        (in_range (JS.Date year 0 1 0 0 0)
                                  (JS.Date year 11 31 23 59 59))
                        (timeEntries (offlineDb w))
              ∧ ∃ study pre post,
                  study ∈ OfflineTimeEntry.studies entry
                  ∧ JS.toLowerCase study
                    = (pre +:+ JS.toLowerCase participantName +:+ post)%string)
    as Hfound.
  { intros entry. rewrite list_elem_of_In, filter_In, <- list_elem_of_In.
    unfold matches_participant. rewrite existsb_exists.
    split.
    - intros [Hin (study & Hs & Hinc)]. split; [done|].
      apply includes_spec in Hinc as (pre & post & Hinc).
      exists study, pre, post. by rewrite list_elem_of_In.
    - intros [Hin (study & pre & post & Hs & Hinc)]. split; [done|].
      exists study. rewrite <- list_elem_of_In. split; [done|].
      apply includes_spec. eauto. }
  split; [exact Hfound|]. split.
  { intros entry. rewrite Hfound. split.
    - intros [Hin (study & pre & post & Hs & Hinc)]. split; [done|].
      destruct (proj1 (includes_ignoring_case study participantName))
        as (pre' & mid & post' & Hst & Hmid); [eauto|].
      exists study, pre', mid, post'. done.
    - intros [Hin (study & pre & mid & post & Hs & Hst & Hmid)].
      split; [done|].
      destruct (proj2 (includes_ignoring_case study participantName))
        as (pre' & post' & Hinc); [eauto|].
      exists study, pre', post'. done. }
  f_equal. f_equal. apply filter_ext. intros entry.
  unfold matches_participant. by rewrite toLowerCase_idemp.
Qed.

Lemma ascii_participants_march :
  ascii_participants (timeEntries (offlineDb march_world)).
Proof.
  intros entry p Hin Hp. vm_compute in Hin.
  repeat (apply elem_of_cons in Hin as [->|Hin]);
    [..|by apply elem_of_nil in Hin];
    cbn in Hp;
    repeat (apply elem_of_cons in Hp as [->|Hp]);
    try done; by apply elem_of_nil in Hp.
Qed.

Lemma search_finds_matches_witness :
  ∃ entries found w',
    getTimeEntriesByYear "u1" 2024 march_world = (Ok entries, w')
    ∧ searchEntriesByParticipant "u1" 2024 "ALI" march_world = (Ok found, w')
    ∧ found `sublist_of` entries
    ∧ (∀ entry, entry ∈ found
         ↔ entry ∈ entries
           ∧ ∃ study pre post,
               study ∈ OfflineTimeEntry.studies entry
               ∧ JS.toLowerCase study
                 = (pre +:+ JS.toLowerCase "ALI" +:+ post)%string)
    ∧ (∀ entry, entry ∈ found
         ↔ entry ∈ entries
           ∧ ∃ study pre mid post,
               study ∈ OfflineTimeEntry.studies entry
               ∧ study = (pre +:+ mid +:+ post)%string
               ∧ same_ignoring_case mid "ALI")
    ∧ searchEntriesByParticipant "u1" 2024 (JS.toLowerCase "ALI") march_world
      = (Ok found, w').
Proof.
  apply (search_finds_matches "u1" 2024 "ALI" march_world).
  - intros n. reflexivity.
  - reflexivity.
  - reflexivity.
  - exact ascii_participants_march.
Defined.

(** The search, computed on the March store: "ALI" finds the entry with
    the participants "Alice" and "alice", and nothing else. *)
Example march_search :
  match searchEntriesByParticipant "u1" 2024 "ALI" march_world with
  | (Ok found, _) => map OfflineTimeEntry.id found = [Some 1]
  | _ => False
  end.
Proof. by vm_compute. Qed.

(** ** Months and years *)

(** The first instant of a month index is one second after the last second
    that the range of the month before it covers. *)
Lemma month_start_after_end year month :
  JS.Date year month 1 0 0 0 = JS.Date year month 0 23 59 59 + 1000.
Proof. unfold JS.Date, JS.MakeDay. lia. Qed.

Lemma days_from_civil_in_year y j :
  0 ≤ j ≤ 11 →
  JS.days_from_civil y 0 ≤ JS.days_from_civil y j
  ∧ JS.days_from_civil y j ≤ JS.days_from_civil y 11
  ∧ JS.days_from_civil (y + 1) 0 = JS.days_from_civil y 11 + 31.
Proof.
  intros Hj.
  assert (j = 0 ∨ j = 1 ∨ j = 2 ∨ j = 3 ∨ j = 4 ∨ j = 5 ∨ j = 6 ∨ j = 7
          ∨ j = 8 ∨ j = 9 ∨ j = 10 ∨ j = 11) as Hc by lia.
  unfold JS.days_from_civil.
  replace (y + 1 - 1) with y by lia.
  repeat (destruct Hc as [->|Hc]); try subst j;
    cbn [Z.leb Z.compare Z.add Z.modulo Z.div_eucl Z.pos_div_eucl
         Pos.add Pos.succ Pos.compare Pos.compare_cont Z.mul Pos.mul
         Z.div Z.ltb Z.sub Z.opp Z.pos_sub Z.succ_double Z.pred_double
         Z.double Pos.pred_double fst snd Z.leb Z.geb Z.gtb];
    Z.div_mod_to_equations; lia.
Qed.

Lemma month_within_year year month :
  1 ≤ month ≤ 12 →
  JS.Date year 0 1 0 0 0 ≤ JS.Date year (month - 1) 1 0 0 0
  ∧ JS.Date year month 0 23 59 59 ≤ JS.Date year 11 31 23 59 59.
Proof.
  intros Hm. unfold JS.Date, JS.MakeDay.
  cbv zeta.
  set (yr := if (0 <=? year) && (year <=? 99) then 1900 + year else year).
  rewrite (Z.div_small (month - 1)), (Z.mod_small (month - 1)) by lia.
  change (0 / 12) with 0. change (0 mod 12) with 0.
  change (11 / 12) with 0. change (11 mod 12) with 11.
  rewrite !Z.add_0_r.
  destruct (days_from_civil_in_year yr (month - 1)) as (Hlo & _ & _);
    [lia|].
  split; [lia|].
  destruct (decide (month = 12)) as [->|Hne].
  - change (12 / 12) with 1. change (12 mod 12) with 0.
    destruct (days_from_civil_in_year yr 0) as (_ & _ & Heq); [lia|]. lia.
  - rewrite (Z.div_small month), (Z.mod_small month) by lia.
    rewrite Z.add_0_r.
    destruct (days_from_civil_in_year yr month) as (_ & Hhi & _); [lia|].
    lia.
Qed.

Lemma in_range_weaken lo hi lo' hi' entry :
  lo' ≤ lo → hi ≤ hi' →
  in_range lo hi entry = true → in_range lo' hi' entry = true.
Proof.
  unfold in_range. rewrite !andb_true_iff, !Z.leb_le. lia.
Qed.

Lemma where_userId_sublist userId (p q : OfflineTimeEntry.t → bool) tb :
  (∀ e, p e = true → q e = true) →
  where_userId userId p tb `sublist_of` where_userId userId q tb.
Proof.
  intros Hpq. unfold where_userId.
  induction (Table.toArray tb) as [|e l IH]; [done|].
  rewrite !filter_cons. repeat case_decide.
  - by constructor.
  - destruct_and!. exfalso. auto.
  - by constructor.
  - done.
Qed.

(** X18. On a healthy host, for a month from 1 to 12 the entries that
    [getTimeEntriesByMonth] returns are among those that
    [getTimeEntriesByYear] returns for the year, in the same order. *)
Theorem month_entries_within_year (userId : string) (year month : Z)
    (w : World) :
  healthy w → 1 ≤ month ≤ 12 →
  ∃ ofMonth ofYear w',
    getTimeEntriesByMonth userId year month w = (Ok ofMonth, w')
    ∧ getTimeEntriesByYear userId year w = (Ok ofYear, w')
    ∧ ofMonth `sublist_of` ofYear.
Proof.
  intros H Hm. unfold getTimeEntriesByMonth, getTimeEntriesByYear.
  rewrite !store_op_healthy by done. cbn [fst snd].
  eexists _, _, _. split; [reflexivity|]. split; [reflexivity|].
  apply where_userId_sublist. intros e.
  destruct (month_within_year year month Hm) as [Hlo Hhi].
  by apply in_range_weaken.
Qed.

Lemma month_entries_within_year_witness :
  ∃ ofMonth ofYear w',
    getTimeEntriesByMonth "u1" 2024 3 march_world = (Ok ofMonth, w')
    ∧ getTimeEntriesByYear "u1" 2024 march_world = (Ok ofYear, w')
    ∧ ofMonth `sublist_of` ofYear.
Proof.
  apply (month_entries_within_year "u1" 2024 3 march_world).
  - intros n. reflexivity.
  - lia.
Defined.

(** X19. On a healthy host, the ranges of two successive months do not
    overlap but leave a gap: no entry is returned both for a month and for
    the next, and an entry dated after 23:59:59.000 of the last day of a
    month and before the first instant of the next is returned for
    neither. *)
Theorem month_ranges_leave_gap (userId : string) (year month : Z)
    (w : World) :
  healthy w →
  ∃ ofMonth ofNext w',
    getTimeEntriesByMonth userId year month w = (Ok ofMonth, w')
    ∧ getTimeEntriesByMonth userId year (month + 1) w = (Ok ofNext, w')
    ∧ (∀ entry, entry ∈ ofMonth → entry ∉ ofNext)
    ∧ (∀ entry,
         JS.Date year month 0 23 59 59 < OfflineTimeEntry.date entry →
         OfflineTimeEntry.date entry < JS.Date year month 1 0 0 0 →
         (entry ∉ ofMonth) ∧ (entry ∉ ofNext))
    ∧ JS.Date year month 1 0 0 0 - JS.Date year month 0 23 59 59 = 1000.
Proof.
  intros H. unfold getTimeEntriesByMonth.
  rewrite !store_op_healthy by done. cbn [fst snd].
  eexists _, _, _. split; [reflexivity|]. split; [reflexivity|].
  replace (month + 1 - 1) with month by lia.
  pose proof (month_start_after_end year month) as Hgap.
  unfold where_userId, in_range.
  split; [|split; [|lia]].
  - intros entry Hin Hin'.
    apply list_elem_of_filter in Hin as [[_ Hr] _].
    apply list_elem_of_filter in Hin' as [[_ Hr'] _].
    apply andb_true_iff in Hr as [_ Hr]. apply andb_true_iff in Hr' as [Hr' _].
    apply Z.leb_le in Hr, Hr'. lia.
  - intros entry Hd Hd'. split; intros Hin;
      apply list_elem_of_filter in Hin as [[_ Hr] _];
      apply andb_true_iff in Hr as [Hr1 Hr2];
      apply Z.leb_le in Hr1, Hr2; lia.
Qed.

Lemma month_ranges_leave_gap_witness :
  ∃ ofMonth ofNext w',
    getTimeEntriesByMonth "u1" 2024 3 late_world = (Ok ofMonth, w')
    ∧ getTimeEntriesByMonth "u1" 2024 (3 + 1) late_world = (Ok ofNext, w')
    ∧ (∀ entry, entry ∈ ofMonth → entry ∉ ofNext)
    ∧ (∀ entry,
         JS.Date 2024 3 0 23 59 59 < OfflineTimeEntry.date entry →
         OfflineTimeEntry.date entry < JS.Date 2024 3 1 0 0 0 →
         (entry ∉ ofMonth) ∧ (entry ∉ ofNext))
    ∧ JS.Date 2024 3 1 0 0 0 - JS.Date 2024 3 0 23 59 59 = 1000.
Proof.
  apply (month_ranges_leave_gap "u1" 2024 3 late_world).
  intros n. reflexivity.
Defined.

(** The gap, computed: the entry of 31 March 2024, 23:59:59.500, is
    returned for the year 2024 but neither for March nor for April. *)
Example late_entry_in_no_month :
  match getTimeEntriesByMonth "u1" 2024 3 late_world,
        getTimeEntriesByMonth "u1" 2024 4 late_world,
        getTimeEntriesByYear "u1" 2024 late_world with
  | (Ok march, _), (Ok april, _), (Ok year, _) =>
      map OfflineTimeEntry.id march = [Some 1; Some 2]
      ∧ map OfflineTimeEntry.id april = [Some 3]
      ∧ map OfflineTimeEntry.id year = [Some 1; Some 2; Some 3; Some 4]
  | _, _, _ => False
  end.
Proof. by vm_compute. Qed.

(** ** Statistics of a month and of its year *)

Lemma uniqueStudies_sublist l1 l2 :
  l1 `sublist_of` l2 → uniqueStudies l1 ⊆ uniqueStudies l2.
Proof.
  intros Hsub s. unfold uniqueStudies.
  rewrite !elem_of_list_to_set, !list_elem_of_In, !in_flat_map.
  intros (e & He & Hs). exists e. split; [|done].
  apply list_elem_of_In. eapply sublist_subseteq; [exact Hsub|].
  by apply list_elem_of_In.
Qed.

(** X20. On a healthy host, for a month from 1 to 12, the statistics of
    the month never exceed those of its year in what they count: the
    number of distinct participants of [calculateMonthlyStats] is at most
    that of [calculateYearlyStats], and the month's entries are at most
    [entriesCount] many. *)
Theorem monthly_counts_within_yearly (userId : string) (year month : Z)
    (w : World) :
  healthy w → 1 ≤ month ≤ 12 →
  ∃ ofMonth ofYear w',
    calculateMonthlyStats userId year month w = (Ok ofMonth, w')
    ∧ calculateYearlyStats userId year w = (Ok ofYear, w')
    ∧ (m_studiesCount ofMonth ≤ y_studiesCount ofYear)%nat
    ∧ (length (m_entries ofMonth) ≤ y_entriesCount ofYear)%nat.
Proof.
  intros H Hm. unfold calculateMonthlyStats, calculateYearlyStats, bind.
  unfold getTimeEntriesByMonth, getTimeEntriesByYear.
  rewrite !store_op_healthy by done. cbn [fst snd ret].
  eexists _, _, _. split; [reflexivity|]. split; [reflexivity|].
  cbn [m_studiesCount y_studiesCount m_entries y_entriesCount].
  assert (where_userId userId
            (in_range (JS.Date year (month - 1) 1 0 0 0)
                      (JS.Date year month 0 23 59 59))
            (timeEntries (offlineDb w))
          `sublist_of`
          where_userId userId
            (in_range (JS.Date year 0 1 0 0 0)
                      (JS.Date year 11 31 23 59 59))
            (timeEntries (offlineDb w))) as Hsub.
  { apply where_userId_sublist. intros e.
    destruct (month_within_year year month Hm) as [Hlo Hhi].
    by apply in_range_weaken. }
  split.
  - apply subseteq_size, uniqueStudies_sublist, Hsub.
  - by apply sublist_length.
Qed.

Lemma monthly_counts_within_yearly_witness :
  ∃ ofMonth ofYear w',
    calculateMonthlyStats "u1" 2024 3 march_world = (Ok ofMonth, w')
    ∧ calculateYearlyStats "u1" 2024 march_world = (Ok ofYear, w')
    ∧ (m_studiesCount ofMonth ≤ y_studiesCount ofYear)%nat
    ∧ (length (m_entries ofMonth) ≤ y_entriesCount ofYear)%nat.
Proof.
  apply (monthly_counts_within_yearly "u1" 2024 3 march_world).
  - intros n. reflexivity.
  - lia.
Defined.

(** ** The triggers of the engine *)

Lemma syncPendingData_returns w :
  ∃ b, syncPendingData w = (Ok b, (syncPendingData w).2).
Proof.
  destruct (syncInProgress w) eqn:Hf.
  - rewrite syncPendingData_busy by done. eauto.
  - rewrite syncPendingData_idle by done. eauto.
Qed.

Lemma syncPendingData_flag w :
  syncInProgress (syncPendingData w).2 = syncInProgress w.
Proof.
  destruct (syncInProgress w) eqn:Hf.
  - by rewrite syncPendingData_busy.
  - by rewrite syncPendingData_idle.
Qed.

Lemma sync_then_unit w :
  (syncPendingData ;;; ret tt) w = (Ok tt, (syncPendingData w).2).
Proof.
  unfold bind. destruct (syncPendingData_returns w) as [b Hb].
  by rewrite Hb.
Qed.

(** X21. The two background triggers of the engine, the handler of the
    [online] event ([syncWhenOnline]) and the callback of the 30-second
    timer, never throw, whatever the storage engine and the network do;
    they leave the [timeEntries] and [users] tables and the in-progress
    flag as they found them; and they do nothing at all while the browser
    is offline or a pass is in progress. *)
Theorem background_triggers_safe (w : World) :
  ∀ trigger, trigger = syncWhenOnline ∨ trigger = periodic_sync →
  ∃ w', trigger w = (Ok tt, w')
    ∧ syncInProgress w' = syncInProgress w
    ∧ timeEntries (offlineDb w') = timeEntries (offlineDb w)
    ∧ users (offlineDb w') = users (offlineDb w)
    ∧ (navigator_onLine (host w) = false ∨ syncInProgress w = true →
       w' = w).
Proof.
  pose proof (syncPendingData_preserves same_timeEntries
                same_timeEntries_store sync_one_timeEntries w) as Ht.
  pose proof (syncPendingData_preserves same_users
                same_users_store sync_one_users w) as Hu.
  pose proof (syncPendingData_flag w) as Hf.
  unfold same_timeEntries, same_users in *.
  intros trigger [-> | ->].
  - unfold syncWhenOnline. destruct (navigator_onLine (host w)).
    + rewrite sync_then_unit. eexists. split; [reflexivity|].
      repeat (split; [done|]).
      intros [?|Hbusy]; [done|]. by rewrite syncPendingData_busy.
    + eexists. split; [reflexivity|]. done.
  - unfold periodic_sync.
    destruct (navigator_onLine (host w)), (syncInProgress w) eqn:Hflag;
      cbn [andb negb].
    + eexists. split; [reflexivity|]. done.
    + rewrite sync_then_unit. eexists. split; [reflexivity|].
      repeat (split; [done|]). by intros [?|?].
    + eexists. split; [reflexivity|]. done.
    + eexists. split; [reflexivity|]. done.
Qed.

Lemma background_triggers_safe_witness :
  ∃ w', periodic_sync faulty_world = (Ok tt, w')
    ∧ syncInProgress w' = syncInProgress faulty_world
    ∧ timeEntries (offlineDb w') = timeEntries (offlineDb faulty_world)
    ∧ users (offlineDb w') = users (offlineDb faulty_world)
    ∧ (navigator_onLine (host faulty_world) = false
       ∨ syncInProgress faulty_world = true →
       w' = faulty_world).
Proof.
  apply (background_triggers_safe faulty_world periodic_sync).
  by right.
Defined.

(** ** The months that a download requests *)

Lemma all_from_spec p z n :
  all_from p z n = true → ∀ k, z ≤ k < z + Z.of_nat n → p k = true.
Proof.
  revert z. induction n as [|n IH]; intros z Hall k Hk; [lia|].
  cbn [all_from] in Hall. apply andb_true_iff in Hall as [Hz Hrest].
  destruct (decide (k = z)) as [->|Hne]; [done|].
  apply (IH (z + 1)); [done|lia].
Qed.

Lemma era_round_trip_all :
  all_from (λ yoe, all_from (era_round_trip yoe) 0 12) 0 400 = true.
Proof. vm_compute. reflexivity. Qed.

Lemma era_round_trip_spec yoe m :
  0 ≤ yoe < 400 → 0 ≤ m ≤ 11 →
  0 ≤ era_day yoe m < 146097
  ∧ era_year_month (era_day yoe m) = (yoe, m).
Proof.
  intros Hy Hm.
  pose proof (all_from_spec _ _ _ era_round_trip_all yoe) as H1.
  cbv beta in H1. specialize (H1 ltac:(lia)).
  pose proof (all_from_spec _ _ _ H1 m ltac:(lia)) as H2.
  unfold era_round_trip in H2.
  rewrite !andb_true_iff, Z.leb_le, Z.ltb_lt, !Z.eqb_eq in H2.
  destruct H2 as [[[? ?] Ha] Hb]. split; [lia|].
  destruct (era_year_month _) as [a b]. cbn in Ha, Hb. by subst.
Qed.

Lemma days_from_civil_era y m :
  JS.days_from_civil y m
  = (let y' := if m <=? 1 then y - 1 else y in
     y' / 400 * 146097 + era_day (y' - y' / 400 * 400) m - 719468).
Proof. reflexivity. Qed.

Lemma civil_year_month_era t :
  JSDate.civil_year_month t
  = (let z := t / 86400000 + 719468 in
     let ym := era_year_month (z - z / 146097 * 146097) in
     (ym.1 + z / 146097 * 400 + (if ym.2 <=? 1 then 1 else 0), ym.2)).
Proof. reflexivity. Qed.

(** Midnight of the first day of a month has the year and the month of
    that day. *)
Lemma civil_of_days y m :
  0 ≤ m ≤ 11 →
  JSDate.civil_year_month (JS.days_from_civil y m * 86400000) = (y, m).
Proof.
  intros Hm. rewrite civil_year_month_era, days_from_civil_era. cbv zeta.
  set (y' := if m <=? 1 then y - 1 else y).
  set (era := y' / 400). set (yoe := y' - era * 400).
  assert (0 ≤ yoe < 400) as Hyoe.
  { subst yoe era. Z.div_mod_to_equations. lia. }
  destruct (era_round_trip_spec yoe m Hyoe Hm) as [Hd Hrt].
  rewrite Z.div_mul by lia.
  replace (era * 146097 + era_day yoe m - 719468 + 719468)
    with (era_day yoe m + era * 146097) by lia.
  rewrite Z.div_add by lia. rewrite (Z.div_small (era_day yoe m)) by lia.
  replace (era_day yoe m + era * 146097 - (0 + era) * 146097)
    with (era_day yoe m) by lia.
  rewrite Hrt. cbn [fst snd]. f_equal.
  subst yoe y'. destruct (m <=? 1); lia.
Qed.

Lemma getMonth_range t : 0 ≤ JSDate.getMonth t ≤ 11.
Proof.
  unfold JSDate.getMonth. rewrite civil_year_month_era. cbv zeta.
  cbn [snd]. unfold era_year_month. cbv zeta. cbn [snd].
  set (z := t / 86400000 + 719468).
  set (doe := z - z / 146097 * 146097).
  assert (0 ≤ doe < 146097) as Hr.
  { subst doe. Z.div_mod_to_equations. lia. }
  clearbody doe. clear z.
  set (yoe := (doe - doe / 1460 + doe / 36524 - doe / 146096) / 365).
  set (doy := doe - (365 * yoe + yoe / 4 - yoe / 100)).
  assert (0 ≤ doy ≤ 365) as Hdoy.
  { subst doy yoe. Z.div_mod_to_equations. lia. }
  clearbody doy. clear yoe.
  destruct (_ <? 10) eqn:Hlt.
  - apply Z.ltb_lt in Hlt. Z.div_mod_to_equations. lia.
  - apply Z.ltb_ge in Hlt. Z.div_mod_to_equations. lia.
Qed.

(** [new Date(year, month - 1 - i, 1)] lies in the month [i] months
    before. *)
Lemma target_month year month i :
  100 ≤ year → 1 ≤ month ≤ 12 → 0 ≤ i ≤ 11 →
  (JSDate.getFullYear (JS.Date year (month - 1 - i) 1 0 0 0),
   JSDate.getMonth (JS.Date year (month - 1 - i) 1 0 0 0) + 1)
  = months_before year month i.
Proof.
  intros Hy Hm Hi. unfold JSDate.getFullYear, JSDate.getMonth.
  unfold JS.Date, JS.MakeDay. cbv zeta.
  replace ((0 <=? year) && (year <=? 99)) with false
    by (symmetry; apply andb_false_iff; right; apply Z.leb_gt; lia).
  set (j := month - 1 - i).
  replace ((JS.days_from_civil (year + j / 12) (j mod 12) + 1 - 1)
           * 86400000 + 0 * 3600000 + 0 * 60000 + 0 * 1000)
    with (JS.days_from_civil (year + j / 12) (j mod 12) * 86400000)
    by lia.
  rewrite civil_of_days by (pose proof (Z.mod_pos_bound j 12); lia).
  cbn [fst snd]. unfold months_before.
  destruct (i <? month) eqn:Hlt.
  - apply Z.ltb_lt in Hlt.
    rewrite (Z.div_small j), (Z.mod_small j) by (subst j; lia).
    f_equal; subst j; lia.
  - apply Z.ltb_ge in Hlt.
    assert (j = -1 * 12 + (j + 12)) as Hj by lia.
    assert (j / 12 = -1) as Hq.
    { rewrite Hj, Z.div_add_l by lia. rewrite Z.div_small; lia. }
    assert (j mod 12 = j + 12) as Hr.
    { rewrite Hj at 1. rewrite Z.add_comm, Z.mod_add by lia.
      apply Z.mod_small. lia. }
    rewrite Hq, Hr. f_equal; subst j; lia.
Qed.

Lemma store_op_requests {A} (f : OfflineDatabase → A * OfflineDatabase) w :
  requests (store_op f w).2 = requests w.
Proof. unfold store_op. by destruct (store_fails _ _). Qed.

Lemma store_server_entry_requests userId entry w :
  requests (store_server_entry userId entry w).2 = requests w.
Proof.
  unfold store_server_entry, bind.
  match goal with
  | |- context [store_op ?f w] =>
      pose proof (store_op_requests f w) as Hr;
      destruct (store_op f w) as [[[x|]|e] w1]
  end; cbn [snd] in *; [done| |done].
  by rewrite store_op_requests.
Qed.

Lemma for_of_requests {A} (body : A → M unit) xs :
  (∀ x w, requests (body x w).2 = requests w) →
  ∀ w, requests (for_of xs body w).2 = requests w.
Proof.
  intros Hbody. induction xs as [|x xs IH]; intros w; [done|].
  cbn [for_of]. unfold bind. specialize (Hbody x w).
  destruct (body x w) as [[[]|e] w1]; cbn [snd] in *; [|done].
  by rewrite IH.
Qed.

Lemma updateLastSyncTime_requests userId w :
  requests (updateLastSyncTime userId w).2 = requests w.
Proof.
  unfold updateLastSyncTime, bind.
  match goal with
  | |- context [store_op ?f w] =>
      pose proof (store_op_requests f w) as Hr;
      destruct (store_op f w) as [[[u|]|e] w1]
  end; cbn [snd] in *; [|done|done].
  unfold new_Date. destruct (OfflineUser.id u); [|done].
  by rewrite store_op_requests.
Qed.

(** Each iteration over the months makes one request, whatever comes of
    it. *)
Lemma download_month_requests userId year month i w :
  requests (download_month userId year month i w).2
  = requests w
    ++ [GET_monthly
          (JSDate.getFullYear (JS.Date year (month - 1 - i) 1 0 0 0))
          (JSDate.getMonth (JS.Date year (month - 1 - i) 1 0 0 0) + 1)].
Proof.
  unfold download_month, bind, fetch. cbv zeta.
  destruct (fetch_result _ _) as [|[] [|entries]]; try done.
  rewrite for_of_requests; [done|]. apply store_server_entry_requests.
Qed.

Lemma download_loop_requests userId year month (offsets : list Z) w :
  ∃ n, requests (for_of offsets (download_month userId year month) w).2
       = requests w
         ++ take n
              (map (λ i, GET_monthly
                    (JSDate.getFullYear
                       (JS.Date year (month - 1 - i) 1 0 0 0))
                    (JSDate.getMonth
                       (JS.Date year (month - 1 - i) 1 0 0 0) + 1))
                   offsets)
       ∧ (∀ u, (for_of offsets (download_month userId year month) w).1
               = Ok u → n = length offsets).
Proof.
  revert w. induction offsets as [|i offsets IH]; intros w.
  - exists 0%nat. cbn. by rewrite app_nil_r.
  - cbn [for_of]. unfold bind.
    pose proof (download_month_requests userId year month i w) as Hi.
    destruct (download_month userId year month i w) as [[[]|e] w1];
      cbn [snd] in Hi.
    + destruct (IH w1) as (n & Hn & Hok). exists (S n).
      rewrite Hn, Hi. cbn [map take length]. rewrite <- app_assoc.
      split; [done|]. intros u Hu. f_equal. by apply (Hok u).
    + exists 1%nat. cbn [snd fst map take]. rewrite take_0.
      split; [done|]. done.
Qed.

(** X22. When the clock reads a date of the year 100 or later,
    [downloadServerData] requests the entries of the calendar month of
    that date and then of the two months before it, going back into
    December and November of the year before from January and February.
    It makes no other request: whatever is thrown, the requests made are
    an initial part of these three, and all three when the call
    succeeds. *)
Theorem download_requests_recent_months (userId : string) (w : World) :
  let now := Date_now (host w) (clockReads w) in
  100 ≤ JSDate.getFullYear now →
  1 ≤ JSDate.getMonth now + 1 ≤ 12
  ∧ months_before (JSDate.getFullYear now) (JSDate.getMonth now + 1) 0
    = (JSDate.getFullYear now, JSDate.getMonth now + 1)
  ∧ ∃ n,
      requests (downloadServerData userId w).2
      = requests w ++ take n (recent_months now)
      ∧ ((downloadServerData userId w).1 = Ok tt → n = 3%nat).
Proof.
  intros now Hy.
  pose proof (getMonth_range now) as Hm.
  split; [lia|]. split.
  { unfold months_before.
    replace (0 <? JSDate.getMonth now + 1) with true
      by (symmetry; apply Z.ltb_lt; lia).
    f_equal. lia. }
  unfold downloadServerData.
  destruct (navigator_onLine (host w)); cbn [negb].
  2: { exists 0%nat. cbn [snd fst]. rewrite take_0, app_nil_r. done. }
  rewrite try_catch_rethrow. unfold download_body, bind, new_Date.
  fold now.
  set (year := JSDate.getFullYear now) in *.
  set (month := JSDate.getMonth now + 1) in *.
  destruct (download_loop_requests userId year month [0; 1; 2]
              (tick_clock w)) as (n & Hn & Hok).
  assert (map (λ i, GET_monthly
                 (JSDate.getFullYear (JS.Date year (month - 1 - i) 1 0 0 0))
                 (JSDate.getMonth (JS.Date year (month - 1 - i) 1 0 0 0)
                  + 1))
              [0; 1; 2]
          = recent_months now) as Hrecent.
  { unfold recent_months. fold year month. cbn [map].
    pose proof (target_month year month 0 Hy ltac:(lia) ltac:(lia)) as H0.
    pose proof (target_month year month 1 Hy ltac:(lia) ltac:(lia)) as H1.
    pose proof (target_month year month 2 Hy ltac:(lia) ltac:(lia)) as H2.
    rewrite <- H0, <- H1, <- H2. cbn [fst snd]. reflexivity. }
  rewrite Hrecent in Hn. exists n.
  destruct (for_of [0; 1; 2] (download_month userId year month)
              (tick_clock w)) as [[[]|e] w1]; cbn [fst snd] in *.
  - rewrite updateLastSyncTime_requests. split; [exact Hn|].
    intros _. by apply (Hok tt).
  - split; [exact Hn|]. done.
Qed.

Lemma download_requests_recent_months_witness :
  let now := Date_now (host flaky_world) (clockReads flaky_world) in
  1 ≤ JSDate.getMonth now + 1 ≤ 12
  ∧ months_before (JSDate.getFullYear now) (JSDate.getMonth now + 1) 0
    = (JSDate.getFullYear now, JSDate.getMonth now + 1)
  ∧ ∃ n,
      requests (downloadServerData "u1" flaky_world).2
      = requests flaky_world ++ take n (recent_months now)
      ∧ ((downloadServerData "u1" flaky_world).1 = Ok tt → n = 3%nat).
Proof.
  apply (download_requests_recent_months "u1" flaky_world).
  by vm_compute.
Defined.

(** The months before January 2024 and March 2024. *)
Example months_before_sample :
  map (months_before 2024 1) [0; 1; 2] = [(2024, 1); (2023, 12); (2023, 11)]
  ∧ map (months_before 2024 3) [0; 1; 2] = [(2024, 3); (2024, 2); (2024, 1)].
Proof. done. Qed.

(** ** From a mutation to its replay *)

(** A pass on a healthy host whose gateway accepts every request. *)
Lemma syncPendingData_up w :
  healthy w → gateway_up w →
  keyed SyncQueueItem.id (syncQueue (offlineDb w)) →
  syncInProgress w = false →
  (∀ k item, Table.get k (syncQueue (offlineDb w)) = Some item →
             sendable item) →
  ∃ w', syncPendingData w = (Ok true, w')
    ∧ requests w'
      = requests w
        ++ omap request_of (orderBy_timestamp (syncQueue (offlineDb w)))
    ∧ Table.rows (syncQueue (offlineDb w')) = ∅
    ∧ timeEntries (offlineDb w') = timeEntries (offlineDb w).
Proof.
  intros H Hup Hk Hidle Hsend.
  destruct (syncPendingData_loop w H Hk Hidle) as (w1 & E1 & E).
  set (w0 := set_db _ _) in E1.
  assert (healthy w0) as H0 by (eapply healthy_host; [|exact H]; done).
  assert (gateway_up w0) as Hup0
    by (eapply gateway_up_host; [|exact Hup]; done).
  pose proof (snapshot_ok w Hk) as [_ Hst].
  destruct (sync_loop_up (orderBy_timestamp (syncQueue (offlineDb w)))
              w0 H0 Hup0) as (w1' & E1' & Hd1 & Hno1 & Hgone1).
  { apply Forall_forall. intros item Hin.
    destruct (Hst item Hin) as (k & Hid & Hget). split; [by rewrite Hid|].
    by eapply Hsend. }
  rewrite E1 in E1'. injection E1' as <-.
  destruct (sync_loop_effect _ w0 H0 (pending_ok_ids _ _ (snapshot_ok w Hk)))
    as (w1' & E1' & _ & _ & Ht & _).
  rewrite E1 in E1'. injection E1' as <-.
  pose proof (sync_loop_requests _ w0 H0
                (pending_ok_ids _ _ (snapshot_ok w Hk))) as Hr.
  rewrite E1 in Hr. cbn [snd] in Hr.
  exists (set_syncInProgress false w1). split; [done|].
  cbn [offlineDb set_syncInProgress requests].
  split; [exact Hr|]. split; [|exact Ht].
  apply map_eq. intros k. rewrite lookup_empty.
  destruct (Table.get k (syncQueue (offlineDb w))) as [item|] eqn:Hget.
  - assert (item ∈ orderBy_timestamp (syncQueue (offlineDb w))) as Hin.
    { rewrite orderBy_timestamp_perm.
      apply (elem_of_toArray SyncQueueItem.id); [done|]. by exists k. }
    apply (Hgone1 item k Hin). destruct Hk as [_ Hrows].
    exact (proj2 (Hrows _ _ Hget)).
  - by apply Hno1.
Qed.

(** The queue that holds one item after an enqueue on an empty queue. *)
Lemma enqueue_alone item w :
  keyed SyncQueueItem.id (syncQueue (offlineDb w)) →
  Table.rows (syncQueue (offlineDb w)) = ∅ →
  orderBy_timestamp (syncQueue (offlineDb (enqueue item w)))
  = [SyncQueueItem.with_id (Table.nextKey (syncQueue (offlineDb w))) item]
  ∧ ∀ k stored,
      Table.get k (syncQueue (offlineDb (enqueue item w))) = Some stored →
      stored
      = SyncQueueItem.with_id (Table.nextKey (syncQueue (offlineDb w))) item.
Proof.
  intros Hk Hempty. split.
  - apply Permutation_singleton_r. rewrite orderBy_timestamp_perm.
    rewrite enqueue_toArray by done. by rewrite toArray_no_rows.
  - intros k stored. cbn. unfold Table.get, Table.add. cbn.
    rewrite Hempty, lookup_insert. case_decide; [|by rewrite lookup_empty].
    by intros [= <-].
Qed.

(** The replay of the single item that a mutation has queued. *)
Lemma replay_alone w item req :
  healthy w → gateway_up w → syncInProgress w = false →
  keyed SyncQueueItem.id (syncQueue (offlineDb w)) →
  Table.rows (syncQueue (offlineDb w)) = ∅ →
  sendable item →
  request_of
    (SyncQueueItem.with_id (Table.nextKey (syncQueue (offlineDb w))) item)
  = Some req →
  ∃ w2, syncPendingData (enqueue item w) = (Ok true, w2)
    ∧ requests w2 = requests w ++ [req]
    ∧ Table.toArray (syncQueue (offlineDb w2)) = []
    ∧ timeEntries (offlineDb w2) = timeEntries (offlineDb (enqueue item w)).
Proof.
  intros H Hup Hidle Hk Hempty Hs Hreq.
  destruct (enqueue_alone item w Hk Hempty) as [Hsnap Hstored].
  destruct (syncPendingData_up (enqueue item w)) as (w2 & E & Hr & Hq & Ht).
  - eapply healthy_host; [|exact H]. done.
  - eapply gateway_up_host; [|exact Hup]. done.
  - by apply enqueue_keyed.
  - exact Hidle.
  - intros k stored Hget. rewrite (Hstored _ _ Hget). exact Hs.
  - exists w2. split; [done|]. rewrite Hsnap in Hr. cbn [omap list_omap] in Hr.
    rewrite Hreq in Hr. split; [exact Hr|]. split; [|done].
    by apply toArray_no_rows.
Qed.

(** X23. From a mutation to the gateway: on a healthy host whose gateway
    accepts every request, with nothing pending, a mutation followed by a
    call of [syncPendingData] makes exactly one gateway call, the one that
    describes the mutation: for [addTimeEntry] a POST whose body carries
    the date, the two times, the participants, the participation mark and
    the comments of the new record, and nothing else (no local key, no
    [hoursWorked], no [synced], no time stamp); for [updateTimeEntry] a PUT
    to the record's local key whose body carries those of these six fields
    that the update gives, and neither [synced] nor [updatedAt]; for
    [deleteTimeEntry] a DELETE to the record's local key.  The queue is
    empty afterwards, and the pass leaves the local records as the
    mutation left them. *)
Theorem mutation_replayed (m : Mutation) (w : World) :
  healthy w → gateway_up w → syncInProgress w = false →
  keyed SyncQueueItem.id (syncQueue (offlineDb w)) →
  Table.rows (syncQueue (offlineDb w)) = ∅ →
  ∃ rid w1 w2,
    run_mutation m w = (Ok rid, w1)
    ∧ syncPendingData w1 = (Ok true, w2)
    ∧ requests w2 = requests w ++ [replay_request m]
    ∧ Table.toArray (syncQueue (offlineDb w2)) = []
    ∧ timeEntries (offlineDb w2) = timeEntries (offlineDb w1).
Proof.
  intros H Hup Hidle Hk Hempty.
  destruct m as [entry|id updates|id]; cbn [run_mutation replay_request].
  - rewrite addTimeEntry_healthy by done. cbv zeta.
    set (w0 := added entry w). set (item := queued w0 _ _ _).
    destruct (replay_alone w0 item
                (POST_time_entry
                   (RequestBody.of_data (SyncQueueItem.data item))))
      as (w2 & E & Hr & Hq & Ht); try done.
    eexists _, _, w2. split; [reflexivity|]. done.
  - unfold bind. rewrite updateTimeEntry_healthy by done.
    set (w0 := updated id updates w). set (item := queued w0 _ _ _).
    destruct (replay_alone w0 item
                (PUT_time_entry (JS.toString id)
                   (RequestBody.of_data (SyncQueueItem.data item))))
      as (w2 & E & Hr & Hq & Ht); try done.
    eexists _, _, w2. split; [reflexivity|]. done.
  - unfold bind. rewrite deleteTimeEntry_healthy by done.
    set (w0 := deleted id w). set (item := queued w0 _ _ _).
    destruct (replay_alone w0 item (DELETE_time_entry (JS.toString id)))
      as (w2 & E & Hr & Hq & Ht); try done.
    eexists _, _, w2. split; [reflexivity|]. done.
Qed.

Lemma mutation_replayed_witness :
  ∃ rid w1 w2,
    run_mutation (Update 2 no_changes) settled_world = (Ok rid, w1)
    ∧ syncPendingData w1 = (Ok true, w2)
    ∧ requests w2
      = requests settled_world ++ [replay_request (Update 2 no_changes)]
    ∧ Table.toArray (syncQueue (offlineDb w2)) = []
    ∧ timeEntries (offlineDb w2) = timeEntries (offlineDb w1).
Proof.
  apply (mutation_replayed (Update 2 no_changes) settled_world).
  - intros n. reflexivity.
  - intros n. eexists. reflexivity.
  - reflexivity.
  - split; [cbn; lia|]. intros k item. cbn. by rewrite lookup_empty.
  - reflexivity.
Defined.

(** The bodies sent: an update that changes nothing is replayed with the
    empty object; a new record is sent without its duration. *)
Example replayed_bodies :
  requests (syncPendingData
              (run_mutation (Update 2 no_changes) settled_world).2).2
  = [PUT_time_entry "2" (RequestBody.mk None None None None None None)]
  ∧ requests (syncPendingData
                (run_mutation (Add sample_new_entry) settled_world).2).2
    = [POST_time_entry
         (RequestBody.mk (Some 86400000) (Some 90000000) (Some 102600000)
                         (Some ["Alice"%string]) (Some true) None)].
Proof. by vm_compute. Qed.

(** ** Errors during a download *)

Lemma download_loop_grow userId year month (offsets : list Z) :
  preserves timeEntries_grow (for_of offsets (download_month userId year month)).
Proof.
  apply preserves_for_of; [apply _|]. intros i. apply download_month_grow.
Qed.

Lemma download_loop_requests_ok userId year month (offsets : list Z) w w' :
  for_of offsets (download_month userId year month) w = (Ok tt, w') →
  requests w' = requests w ++ map (month_request year month) offsets.
Proof.
  intros E.
  destruct (download_loop_requests userId year month offsets w)
    as (n & Hn & Hok).
  rewrite E in Hn, Hok. cbn [fst snd] in Hn, Hok.
  rewrite (Hok tt eq_refl) in Hn. rewrite Hn. f_equal.
  rewrite <- (length_map (month_request year month) offsets).
  by rewrite firstn_all.
Qed.

Lemma for_of_throw_at {A} (pre : list A) x post body w w0 e w' :
  for_of pre body w = (Ok tt, w0) →
  body x w0 = (Throw e, w') →
  for_of (pre ++ x :: post) body w = (Throw e, w').
Proof.
  intros Epre Ex. rewrite (for_of_app pre (x :: post) body w w0 Epre).
  by rewrite for_of_cons, Ex.
Qed.

(** Storing a server entry throws only when the storage engine fails, and
    leaves the tables as they were. *)
Lemma store_server_entry_throw userId entry w e w' :
  store_server_entry userId entry w = (Throw e, w') →
  e = StorageError ∧ offlineDb w' = offlineDb w.
Proof.
  unfold store_server_entry, bind, store_op, ret.
  destruct (store_fails (host w) (storeOps w)); [by intros [= <- <-]|].
  cbn. destruct (head _); [done|].
  destruct (store_fails _ _); [by intros [= <- <-]|done].
Qed.



(** ** The calendar month of a date *)

Lemma yoe_of_doe yoe doy :
  0 ≤ yoe < 400 → 0 ≤ doy →
  (yoe * 365 + yoe / 4 - yoe / 100 + doy
   < (yoe + 1) * 365 + (yoe + 1) / 4 - (yoe + 1) / 100
   ∨ (yoe = 399 ∧ doy ≤ 365)) →
  let doe := yoe * 365 + yoe / 4 - yoe / 100 + doy in
  (doe - doe / 1460 + doe / 36524 - doe / 146096) / 365 = yoe.
Proof.
  intros Hy Hd Hlt doe. subst doe. Z.div_mod_to_equations. lia.
Qed.

Lemma mp_of_doy m doy :
  0 ≤ m ≤ 11 →
  (153 * ((m + 10) mod 12) + 2) / 5 ≤ doy →
  (m = 1 ∨ doy < (153 * ((m + 10) mod 12 + 1) + 2) / 5) →
  doy ≤ 365 →
  (if (5 * doy + 2) / 153 <? 10
   then (5 * doy + 2) / 153 + 2 else (5 * doy + 2) / 153 - 10) = m.
Proof.
  intros Hm Hlo Hhi H365.
  assert (m = 0 ∨ m = 1 ∨ m = 2 ∨ m = 3 ∨ m = 4 ∨ m = 5 ∨ m = 6 ∨ m = 7
          ∨ m = 8 ∨ m = 9 ∨ m = 10 ∨ m = 11) as Hc by lia.
  repeat (destruct Hc as [->|Hc]); try subst m;
    change ((0 + 10) mod 12) with 10 in *;
    change ((1 + 10) mod 12) with 11 in *;
    change ((2 + 10) mod 12) with 0 in *;
    change ((3 + 10) mod 12) with 1 in *;
    change ((4 + 10) mod 12) with 2 in *;
    change ((5 + 10) mod 12) with 3 in *;
    change ((6 + 10) mod 12) with 4 in *;
    change ((7 + 10) mod 12) with 5 in *;
    change ((8 + 10) mod 12) with 6 in *;
    change ((9 + 10) mod 12) with 7 in *;
    change ((10 + 10) mod 12) with 8 in *;
    change ((11 + 10) mod 12) with 9 in *;
    (destruct (_ <? 10) eqn:E;
     [apply Z.ltb_lt in E|apply Z.ltb_ge in E];
     Z.div_mod_to_equations; lia).
Qed.

(** A day of the era lies in the year and the month in which
    [era_year_month] places it. *)
Lemma era_year_month_in yoe m doy :
  0 ≤ yoe < 400 → 0 ≤ m ≤ 11 →
  (153 * ((m + 10) mod 12) + 2) / 5 ≤ doy →
  (m = 1 ∨ doy < (153 * ((m + 10) mod 12 + 1) + 2) / 5) →
  (yoe * 365 + yoe / 4 - yoe / 100 + doy
   < (yoe + 1) * 365 + (yoe + 1) / 4 - (yoe + 1) / 100
   ∨ (yoe = 399 ∧ doy ≤ 365)) →
  era_year_month (yoe * 365 + yoe / 4 - yoe / 100 + doy) = (yoe, m).
Proof.
  intros Hy Hm Hlo Hhi Hyear.
  assert (0 ≤ doy) as Hd.
  { pose proof (Z.mod_pos_bound (m + 10) 12). Z.div_mod_to_equations. lia. }
  assert (doy ≤ 365) as H365.
  { destruct Hyear as [Hlt|[_ ?]]; [|done].
    Z.div_mod_to_equations. lia. }
  unfold era_year_month. cbv zeta.
  rewrite (yoe_of_doe yoe doy Hy Hd Hyear).
  replace (yoe * 365 + yoe / 4 - yoe / 100 + doy
           - (365 * yoe + yoe / 4 - yoe / 100)) with doy by lia.
  by rewrite (mp_of_doy m doy Hm Hlo Hhi H365).
Qed.

Lemma civil_of_era t E yoe doy m :
  0 ≤ yoe < 400 → 0 ≤ m ≤ 11 →
  (153 * ((m + 10) mod 12) + 2) / 5 ≤ doy →
  (m = 1 ∨ doy < (153 * ((m + 10) mod 12 + 1) + 2) / 5) →
  (yoe * 365 + yoe / 4 - yoe / 100 + doy
   < (yoe + 1) * 365 + (yoe + 1) / 4 - (yoe + 1) / 100
   ∨ (yoe = 399 ∧ doy ≤ 365)) →
  t / 86400000 + 719468
  = E * 146097 + (yoe * 365 + yoe / 4 - yoe / 100 + doy) →
  JSDate.civil_year_month t
  = (yoe + E * 400 + (if m <=? 1 then 1 else 0), m).
Proof.
  intros Hy Hm Hlo Hhi Hyear Hz.
  rewrite civil_year_month_era. cbv zeta. rewrite Hz.
  set (doe := yoe * 365 + yoe / 4 - yoe / 100 + doy).
  assert (0 ≤ doe < 146097) as Hdoe.
  { subst doe. pose proof (Z.mod_pos_bound (m + 10) 12).
    Z.div_mod_to_equations. lia. }
  rewrite (Z.add_comm (E * 146097) doe), Z.div_add by lia.
  rewrite (Z.div_small doe) by lia.
  replace (doe + E * 146097 - (0 + E) * 146097) with doe by lia.
  subst doe. rewrite (era_year_month_in yoe m doy) by done.
  reflexivity.
Qed.

(** A date from the first instant of a month up to the first instant of
    the next lies in that month. *)
Lemma civil_in_month y m t :
  0 ≤ m ≤ 11 →
  JS.days_from_civil y m * 86400000 ≤ t →
  t < JS.days_from_civil (y + (m + 1) / 12) ((m + 1) mod 12) * 86400000 →
  JSDate.civil_year_month t = (y, m).
Proof.
  intros Hm Hlo Hhi.
  rewrite !days_from_civil_era in *. cbv zeta in *. unfold era_day in *.
  set (y' := if m <=? 1 then y - 1 else y) in *.
  set (E := y' / 400) in *. set (yoe := y' - E * 400) in *.
  assert (0 ≤ yoe < 400) as Hyoe.
  { subst yoe E. Z.div_mod_to_equations. lia. }
  set (z := t / 86400000).
  set (doy := z + 719468 - E * 146097 - (yoe * 365 + yoe / 4 - yoe / 100)).
  assert (y = yoe + E * 400 + (if m <=? 1 then 1 else 0)) as Hy.
  { subst yoe y'. destruct (m <=? 1); lia. }
  transitivity (yoe + E * 400 + (if m <=? 1 then 1 else 0), m);
    [|f_equal; symmetry; exact Hy].
  apply (civil_of_era t E yoe doy m); [done|done| | | |subst doy z; lia].
  - subst doy z. Z.div_mod_to_equations. lia.
  - destruct (decide (m = 1)) as [->|Hne]; [by left|right].
    assert ((m + 1) / 12 = 0 ∧ (m + 1) mod 12 = m + 1
            ∨ (m = 11 ∧ (m + 1) / 12 = 1 ∧ (m + 1) mod 12 = 0)) as Hn.
    { Z.div_mod_to_equations. lia. }
    destruct Hn as [[Hq Hr]|(-> & Hq & Hr)]; rewrite Hq, Hr in Hhi.
    + assert ((if m + 1 <=? 1 then y + 0 - 1 else y + 0) = y') as Hy'.
      { subst y'. destruct (Z.leb_spec (m + 1) 1), (Z.leb_spec m 1); lia. }
      rewrite Hy' in Hhi. fold E yoe in Hhi.
      subst doy z. Z.div_mod_to_equations. lia.
    + change (0 <=? 1) with true in Hhi. cbv iota in Hhi.
      replace (y + 1 - 1) with y' in Hhi by (subst y'; cbn; lia).
      fold E yoe in Hhi.
      subst doy z. Z.div_mod_to_equations. lia.
  - destruct (decide (m = 1)) as [->|Hne].
    + change ((1 + 1) / 12) with 0 in Hhi.
      change ((1 + 1) mod 12) with 2 in Hhi.
      change (2 <=? 1) with false in Hhi. cbv iota in Hhi.
      replace (y + 0) with (y' + 1) in Hhi by (subst y'; cbn; lia).
      destruct (decide (yoe = 399)) as [H399|H399].
      * right. split; [done|].
        assert ((y' + 1) / 400 = E + 1) as Hq.
        { subst yoe E. Z.div_mod_to_equations. lia. }
        rewrite Hq in Hhi.
        replace (y' + 1 - (E + 1) * 400) with 0 in Hhi by (subst yoe; lia).
        subst doy z. Z.div_mod_to_equations. lia.
      * left.
        assert ((y' + 1) / 400 = E) as Hq.
        { subst yoe E. Z.div_mod_to_equations. lia. }
        rewrite Hq in Hhi.
        replace (y' + 1 - E * 400) with (yoe + 1) in Hhi
          by (subst yoe; lia).
        subst doy z. Z.div_mod_to_equations. lia.
    + left.
      assert ((m + 1) / 12 = 0 ∧ (m + 1) mod 12 = m + 1
              ∨ (m = 11 ∧ (m + 1) / 12 = 1 ∧ (m + 1) mod 12 = 0)) as Hn.
      { Z.div_mod_to_equations. lia. }
      destruct Hn as [[Hq Hr]|(-> & Hq & Hr)]; rewrite Hq, Hr in Hhi.
      * assert ((if m + 1 <=? 1 then y + 0 - 1 else y + 0) = y') as Hy'.
        { subst y'. destruct (Z.leb_spec (m + 1) 1), (Z.leb_spec m 1); lia. }
        rewrite Hy' in Hhi. fold E yoe in Hhi.
        subst doy z. Z.div_mod_to_equations. lia.
      * change (0 <=? 1) with true in Hhi. cbv iota in Hhi.
        replace (y + 1 - 1) with y' in Hhi by (subst y'; cbn; lia).
        fold E yoe in Hhi.
        subst doy z. Z.div_mod_to_equations. lia.
Qed.

(** A date is not before the first instant of its month. *)
Lemma civil_lower_bound t :
  0 ≤ (JSDate.civil_year_month t).2 ≤ 11
  ∧ JS.days_from_civil (JSDate.civil_year_month t).1
                       (JSDate.civil_year_month t).2 * 86400000 ≤ t.
Proof.
  rewrite civil_year_month_era. cbv zeta. unfold era_year_month. cbv zeta.
  cbn [fst snd].
  set (z := t / 86400000 + 719468).
  set (E := z / 146097). set (doe := z - E * 146097).
  assert (0 ≤ doe < 146097) as Hdoe.
  { subst doe E. Z.div_mod_to_equations. lia. }
  assert (z = E * 146097 + doe) as Hz by (subst doe; lia).
  clearbody doe.
  set (yoe := (doe - doe / 1460 + doe / 36524 - doe / 146096) / 365).
  set (doy := doe - (365 * yoe + yoe / 4 - yoe / 100)).
  assert (0 ≤ yoe < 400 ∧ 0 ≤ doy ≤ 365) as [Hyoe Hdoy].
  { subst doy yoe. Z.div_mod_to_equations. lia. }
  assert (doe = yoe * 365 + yoe / 4 - yoe / 100 + doy) as Hdoe'
    by (subst doy; lia).
  clearbody doy. clearbody yoe.
  set (mp := (5 * doy + 2) / 153).
  assert (0 ≤ mp ≤ 11 ∧ (153 * mp + 2) / 5 ≤ doy) as [Hmp Hstart].
  { subst mp. Z.div_mod_to_equations. lia. }
  clearbody mp.
  set (m := if mp <? 10 then mp + 2 else mp - 10).
  assert (0 ≤ m ≤ 11 ∧ (m + 10) mod 12 = mp
          ∧ (if m <=? 1 then 1 else 0) = (if mp <? 10 then 0 else 1))
    as (Hm & Hmod & Hadj).
  { subst m. destruct (Z.ltb_spec mp 10).
    - split; [lia|]. split; [Z.div_mod_to_equations; lia|].
      destruct (Z.leb_spec (mp + 2) 1); lia.
    - split; [lia|]. split; [Z.div_mod_to_equations; lia|].
      destruct (Z.leb_spec (mp - 10) 1); lia. }
  split; [exact Hm|].
  rewrite days_from_civil_era. cbv zeta. unfold era_day. rewrite Hmod.
  set (y' := if m <=? 1 then _ - 1 else _).
  assert (y' = yoe + E * 400) as Hy'.
  { subst y'. destruct (m <=? 1); lia. }
  rewrite Hy'.
  assert ((yoe + E * 400) / 400 = E) as Hq.
  { Z.div_mod_to_equations. lia. }
  rewrite Hq.
  replace (yoe + E * 400 - E * 400) with yoe by lia.
  subst z. Z.div_mod_to_equations. lia.
Qed.

Lemma Date_first_instant year j :
  100 ≤ year →
  JS.Date year j 1 0 0 0
  = JS.days_from_civil (year + j / 12) (j mod 12) * 86400000.
Proof.
  intros Hy. unfold JS.Date, JS.MakeDay. cbv zeta.
  replace ((0 <=? year) && (year <=? 99)) with false
    by (symmetry; apply andb_false_iff; right; apply Z.leb_gt; lia).
  lia.
Qed.

(** For a year from 100 on and a month from 1 to 12, the range of
    [getTimeEntriesByMonth] holds the dates of that calendar month up to
    23:59:59.000 of its last day. *)
Lemma month_range_calendar year month d :
  100 ≤ year → 1 ≤ month ≤ 12 →
  JS.Date year (month - 1) 1 0 0 0 ≤ d ≤ JS.Date year month 0 23 59 59
  ↔ JSDate.getFullYear d = year ∧ JSDate.getMonth d + 1 = month
    ∧ d ≤ JS.Date year month 0 23 59 59.
Proof.
  intros Hy Hm.
  pose proof (month_start_after_end year month) as Hend.
  rewrite (Date_first_instant year month Hy) in Hend.
  rewrite (Date_first_instant year (month - 1) Hy).
  rewrite (Z.div_small (month - 1)), (Z.mod_small (month - 1)) by lia.
  rewrite Z.add_0_r.
  unfold JSDate.getFullYear, JSDate.getMonth. split.
  - intros [Hlo Hhi].
    rewrite (civil_in_month year (month - 1) d); [cbn; lia|lia|done|].
    replace (month - 1 + 1) with month by lia. lia.
  - intros (Hyear & Hmonth & Hhi). split; [|done].
    pose proof (civil_lower_bound d) as [_ Hlo].
    rewrite Hyear in Hlo.
    replace ((JSDate.civil_year_month d).2) with (month - 1) in Hlo by lia.
    exact Hlo.
Qed.

Lemma month_of_year y t (k : nat) :
  (k ≤ 11)%nat →
  JS.days_from_civil y 0 * 86400000 ≤ t →
  t < JS.days_from_civil (y + (Z.of_nat k + 1) / 12)
                         ((Z.of_nat k + 1) mod 12) * 86400000 →
  ∃ m, 0 ≤ m ≤ 11
       ∧ JS.days_from_civil y m * 86400000 ≤ t
       ∧ t < JS.days_from_civil (y + (m + 1) / 12) ((m + 1) mod 12)
             * 86400000.
Proof.
  induction k as [|k IH]; intros Hk Hlo Hhi.
  - exists 0. split; [lia|]. done.
  - destruct (Z.lt_ge_cases t
                (JS.days_from_civil (y + (Z.of_nat k + 1) / 12)
                                    ((Z.of_nat k + 1) mod 12) * 86400000))
      as [Hlt|Hge].
    + apply IH; [lia|done|done].
    + exists (Z.of_nat (S k)). split; [lia|]. split; [|done].
      rewrite (Z.div_small (Z.of_nat k + 1)),
              (Z.mod_small (Z.of_nat k + 1)) in Hge by lia.
      rewrite Z.add_0_r in Hge.
      replace (Z.of_nat (S k)) with (Z.of_nat k + 1) by lia. lia.
Qed.

(** For a year from 100 on, the range of [getTimeEntriesByYear] holds the
    dates of that calendar year up to 23:59:59.000 of 31 December. *)
Lemma year_range_calendar year d :
  100 ≤ year →
  JS.Date year 0 1 0 0 0 ≤ d ≤ JS.Date year 11 31 23 59 59
  ↔ JSDate.getFullYear d = year ∧ d ≤ JS.Date year 11 31 23 59 59.
Proof.
  intros Hy.
  assert (JS.Date year 11 31 23 59 59 + 1000
          = JS.days_from_civil (year + 1) 0 * 86400000) as Hend.
  { destruct (days_from_civil_in_year year 0) as (_ & _ & Hnext); [lia|].
    rewrite Hnext. unfold JS.Date, JS.MakeDay. cbv zeta.
    replace ((0 <=? year) && (year <=? 99)) with false
      by (symmetry; apply andb_false_iff; right; apply Z.leb_gt; lia).
    change (11 / 12) with 0. change (11 mod 12) with 11.
    rewrite Z.add_0_r. lia. }
  rewrite (Date_first_instant year 0 Hy).
  change (0 / 12) with 0. change (0 mod 12) with 0. rewrite Z.add_0_r.
  unfold JSDate.getFullYear. split.
  - intros [Hlo Hhi]. split; [|done].
    destruct (month_of_year year d 11) as (m & Hm & Hmlo & Hmhi);
      [lia|done| |].
    { change ((Z.of_nat 11 + 1) / 12) with 1.
      change ((Z.of_nat 11 + 1) mod 12) with 0. lia. }
    by rewrite (civil_in_month year m d Hm Hmlo Hmhi).
  - intros [Hyear Hhi]. split; [|done].
    pose proof (civil_lower_bound d) as [Hm Hlo].
    rewrite Hyear in Hlo.
    destruct (days_from_civil_in_year year (JSDate.civil_year_month d).2 Hm)
      as (H0 & _ & _).
    lia.
Qed.

(** ** Aggregation *)

Lemma distinct_participants_unique entries :
  distinct_participants entries (elements (uniqueStudies entries)).
Proof.
  split; [|split].
  - intros p (entry & Hin & Hp). exists (JS.toLowerCase p). split.
    + apply elem_of_elements, elem_of_uniqueStudies. by exists entry, p.
    + apply toLowerCase_same. by rewrite toLowerCase_idemp.
  - intros r Hr.
    apply elem_of_elements, elem_of_uniqueStudies in Hr
      as (entry & p & Hin & Hp & ->).
    exists p. split; [by exists entry|].
    apply toLowerCase_same. by rewrite toLowerCase_idemp.
  - intros i j r r' Hi Hj Hsame.
    assert (r = r') as <-.
    { apply toLowerCase_same in Hsame.
      assert (∀ x, x ∈ elements (uniqueStudies entries) →
                   JS.toLowerCase x = x) as Hlow.
      { intros x Hx.
        apply elem_of_elements, elem_of_uniqueStudies in Hx
          as (entry & p & _ & _ & ->).
        apply toLowerCase_idemp. }
      rewrite <- (Hlow r), <- (Hlow r'), Hsame; [done| |].
      - by eapply list_elem_of_lookup_2.
      - by eapply list_elem_of_lookup_2. }
    exact (NoDup_lookup _ i j r (NoDup_elements (uniqueStudies entries))
             Hi Hj).
Qed.

Lemma elem_of_where_userId_range userId lo hi tb e :
  e ∈ where_userId userId (in_range lo hi) tb
  ↔ e ∈ Table.toArray tb ∧ OfflineTimeEntry.userId e = userId
    ∧ lo ≤ OfflineTimeEntry.date e ≤ hi.
Proof.
  unfold where_userId, in_range.
  rewrite list_elem_of_filter, andb_true_iff, !Z.leb_le. tauto.
Qed.

Lemma where_userId_sublist_all userId p tb :
  where_userId userId p tb `sublist_of` Table.toArray tb.
Proof. unfold where_userId. apply sublist_filter. Qed.



(** The example of the specification: the participant lists
    ["Alice", "alice"] and ["Bob"] in March 2024 count as two studies; the
    durations 1.5 and 2.25 give the total 3.8. *)
Example march_monthly_stats :
  match calculateMonthlyStats "u1" 2024 3 march_world with
  | (Ok stats, _) =>
      m_studiesCount stats = 2%nat
      ∧ m_totalHours stats = JS.num 38 10
      ∧ m_participated stats = true
      ∧ length (m_entries stats) = 2%nat
  | _ => False
  end.
Proof. by vm_compute. Qed.

Example march_yearly_stats :
  match calculateYearlyStats "u1" 2024 march_world with
  | (Ok stats, _) =>
      y_studiesCount stats = 3%nat
      ∧ y_totalHours stats = JS.num 48 10
      ∧ y_entriesCount stats = 3%nat
  | _ => False
  end.
Proof. by vm_compute. Qed.

(** The numbers of the decimal literals 0.15, 1.2, 1.3 and 0.2 lie within
    a ten-thousand-million-millionth of the decimals. *)
Example decimal_literals :
  (∃ q, JS.exact (JS.num 15 100) = Some q
        ∧ ((15 # 100) - (1 # 10000000000000000) < q < (15 # 100) + (1 # 10000000000000000))%Q)
  ∧ (∃ q, JS.exact (JS.num 12 10) = Some q
          ∧ ((12 # 10) - (1 # 10000000000000000) < q < (12 # 10) + (1 # 10000000000000000))%Q)
  ∧ (∃ q, JS.exact (JS.num 13 10) = Some q
          ∧ ((13 # 10) - (1 # 1000000000000000) < q < (13 # 10) + (1 # 1000000000000000))%Q)
  ∧ (∃ q, JS.exact (JS.num 2 10) = Some q
          ∧ ((2 # 10) - (1 # 10000000000000000) < q < (2 # 10) + (1 # 10000000000000000))%Q).
Proof.
  repeat split; eexists; (split; [reflexivity|by vm_compute]).
Qed.

